(** * DPlugin: an anti-aliased pulse synthesiser

    A shallow embedding of the DSP core of [PluginProcessor.cpp] and
    [PluginProcessor.h]: the feedback-FM saw oscillator, the pulse oscillator
    built from two saws, the synthesiser voice and the processor's block
    callback, with the parameter layout and the layout of the editor
    ([PluginEditor.cpp]), followed by the properties that the design
    document states and by further properties of the code.

    Numbers are modelled as the code has them.  A C++ [float] is an IEEE 754
    binary32 value and a [double] a binary64 value, both carried by the
    standard library's [spec_float] with round-to-nearest-even operations, so
    that infinities, signed zeros and NaN behave as on the machine (the
    flush-to-zero mode that [ScopedNoDenormals] switches on is not modelled).
    C++ [int]s are mathematical integers; no claim below depends on overflow.

    Functions of libm and of the JUCE library that the sources call but do
    not contain ([std::sin], [std::pow], the IIR filter, the synthesiser's
    MIDI dispatch) are fields of the class [Library] or section variables:
    every theorem holds whatever they compute.  The three JUCE one-liners
    [jlimit], [jmax] and [jmap] and the few members of
    [juce::SynthesiserVoice] that the voice uses are written out.

    An [AudioBuffer] has the memory of a buffer that allocates its own data,
    where the channels lie one after the other: [addSample] writes through
    the channel's pointer as the code does, so that a block that overruns a
    channel lands in the next one.  The three parameters are atomics that
    other threads store to; a call is given what its loads return.

    The phase loop of the pulse oscillator need not end on every [float], so
    the functions that run it take fuel and return an [option]; they are
    shown to return on every state whose phases are from 0 up to but not 1,
    which rests on a few facts of binary32 rounding proved here from the
    definitions of [SpecFloat]. *)

From Stdlib Require Import String.
From Stdlib Require Import ZArith Bool List Lia SpecFloat.
Import ListNotations.
Local Open Scope Z_scope.

(** ** Floating-point formats *)

Definition float : Type := spec_float.
Definition double : Type := spec_float.

(** C++ [float]: precision 24, infinities at exponent 128. *)
Module F32.
Definition prec : Z := 24.
Definition emax : Z := 128.

Definition valid (x : float) : bool := valid_binary prec emax x.
Definition add (x y : float) : float := SFadd prec emax x y.
Definition sub (x y : float) : float := SFsub prec emax x y.
Definition mul (x y : float) : float := SFmul prec emax x y.
Definition div (x y : float) : float := SFdiv prec emax x y.
Definition abs (x : float) : float := SFabs x.
Definition ltb (x y : float) : bool := SFltb x y.
Definition leb (x y : float) : bool := SFleb x y.
(** [x > y] and [x >= y] are the mirrored comparisons, false on NaN. *)
Definition gtb (x y : float) : bool := SFltb y x.
Definition geb (x y : float) : bool := SFleb y x.

Definition is_nan (x : float) : bool :=
  match x with S754_nan => true | _ => false end.

Definition is_finite (x : float) : bool :=
  match x with S754_zero _ | S754_finite _ _ _ => true | _ => false end.

(** The nearest [float] to an integer, and to a decimal literal [n/d]
    whose numerator and denominator are exact (below [2^24]). *)
Definition of_Z (n : Z) : float := binary_normalize prec emax n 0 false.
Definition of_decimal (n d : Z) : float := SFdiv prec emax (of_Z n) (of_Z d).

Definition zero : float := S754_zero false.
Definition one : float := Eval vm_compute in of_Z 1.
End F32.

(** C++ [double]: precision 53, infinities at exponent 1024. *)
Module F64.
Definition prec : Z := 53.
Definition emax : Z := 1024.

Definition valid (x : double) : bool := valid_binary prec emax x.
Definition mul (x y : double) : double := SFmul prec emax x y.
Definition div (x y : double) : double := SFdiv prec emax x y.
Definition ltb (x y : double) : bool := SFltb x y.
Definition leb (x y : double) : bool := SFleb x y.

Definition of_Z (n : Z) : double := binary_normalize prec emax n 0 false.
Definition of_decimal (n d : Z) : double := SFdiv prec emax (of_Z n) (of_Z d).

Definition zero : double := S754_zero false.
End F64.

(** [static_cast<float>(d)] of a [double]: rounding to nearest even, to
    infinity on overflow and to zero on underflow. *)
Definition double_to_float (d : double) : float :=
  match d with
  | S754_finite s m e =>
      binary_normalize F32.prec F32.emax (cond_Zopp s (Zpos m)) e s
  | _ => d
  end.

(** The implicit conversion of a [float] argument to a [double] parameter:
    exact, the value is only brought to binary64's canonical form. *)
Definition float_to_double (x : float) : double :=
  match x with
  | S754_finite s m e =>
      binary_normalize F64.prec F64.emax (cond_Zopp s (Zpos m)) e s
  | _ => x
  end.

Declare Scope f32_scope.
Delimit Scope f32_scope with f32.
Notation "x + y" := (F32.add x y) : f32_scope.
Notation "x - y" := (F32.sub x y) : f32_scope.
Notation "x * y" := (F32.mul x y) : f32_scope.
Notation "x / y" := (F32.div x y) : f32_scope.
Notation "x <? y" := (F32.ltb x y) : f32_scope.
Notation "x <=? y" := (F32.leb x y) : f32_scope.
Notation "x >? y" := (F32.gtb x y) : f32_scope.
Notation "x >=? y" := (F32.geb x y) : f32_scope.

(** ** JUCE's range helpers ([juce_MathsFunctions.h])

    The three templates are library code; they are written out here because
    what they do on NaN and at the ends of the range decides several of the
    properties below. *)

(** [jlimit (lowerLimit, upperLimit, valueToConstrain)]:
    [valueToConstrain < lowerLimit ? lowerLimit
     : (upperLimit < valueToConstrain ? upperLimit : valueToConstrain)]. *)
Definition jlimit (lowerLimit upperLimit valueToConstrain : float) : float :=
  if (valueToConstrain <? lowerLimit)%f32 then lowerLimit
  else if (upperLimit <? valueToConstrain)%f32 then upperLimit
  else valueToConstrain.

(** [jmax (a, b)]: [a < b ? b : a]. *)
Definition jmax (a b : float) : float :=
  if (a <? b)%f32 then b else a.

(** [jmap (sourceValue, sourceRangeMin, sourceRangeMax, targetRangeMin,
    targetRangeMax)]:
    [targetRangeMin + ((targetRangeMax - targetRangeMin)
     * (sourceValue - sourceRangeMin)) / (sourceRangeMax - sourceRangeMin)]. *)
Definition jmap (sourceValue sourceRangeMin sourceRangeMax
                 targetRangeMin targetRangeMax : float) : float :=
  (targetRangeMin
   + ((targetRangeMax - targetRangeMin) * (sourceValue - sourceRangeMin))
     / (sourceRangeMax - sourceRangeMin))%f32.

(** ** Constants of the anonymous namespace and literals of the sources *)

Definition hfCompA0 : float := Eval vm_compute in F32.of_decimal 5 2.
Definition hfCompA1 : float := Eval vm_compute in F32.of_decimal (-3) 2.
Definition minNorm : float := Eval vm_compute in F32.of_decimal 1 1000.

(** [juce::MathConstants<float>::twoPi], the [float] nearest to 2π
    (bit pattern [0x40C90FDB]). *)
Definition twoPi : float := S754_finite false 13176795 (-21).

Definition f0_5 : float := Eval vm_compute in F32.of_decimal 1 2.
Definition f1_5 : float := Eval vm_compute in F32.of_decimal 3 2.
Definition f2 : float := Eval vm_compute in F32.of_Z 2.
Definition f13 : float := Eval vm_compute in F32.of_Z 13.
Definition f200 : float := Eval vm_compute in F32.of_Z 200.
Definition f0_49 : float := Eval vm_compute in F32.of_decimal 49 100.
Definition f0_01 : float := Eval vm_compute in F32.of_decimal 1 100.
Definition f0_99 : float := Eval vm_compute in F32.of_decimal 99 100.
Definition f0_376 : float := Eval vm_compute in F32.of_decimal 376 1000.
Definition f0_752 : float := Eval vm_compute in F32.of_decimal 752 1000.
Definition f1em3 : float := Eval vm_compute in F32.of_decimal 1 1000.
Definition fm1 : float := Eval vm_compute in F32.of_Z (-1).
Definition d0_45 : double := Eval vm_compute in F64.of_decimal 45 100.
Definition d2 : double := Eval vm_compute in F64.of_Z 2.
Definition d12 : double := Eval vm_compute in F64.of_Z 12.
Definition d440 : double := Eval vm_compute in F64.of_Z 440.
Definition d44100 : double := Eval vm_compute in F64.of_Z 44100.

(** ** What the sources take from libm and JUCE

    [std::sin] and [std::pow], the decibel conversion and the IIR filter are
    library code.  The class lists what the sources call; the filter and its
    coefficient set are opaque types with the four methods used. *)
Class Library : Type := {
  (** [std::sin] on [float] *)
  sinf : float -> float;
  (** [std::pow] on [double] *)
  pow : double -> double -> double;
  (** [juce::Decibels::decibelsToGain] *)
  decibelsToGain : float -> float;
  IIRCoefficients : Type;
  IIRFilter : Type;
  (** a default-constructed [juce::IIRFilter] *)
  IIRFilter_new : IIRFilter;
  (** [juce::IIRCoefficients::makeLowPass (sampleRate, frequency)] *)
  makeLowPass : double -> double -> IIRCoefficients;
  (** [juce::IIRFilter::setCoefficients], [reset], [processSingleSampleRaw] *)
  setCoefficients : IIRCoefficients -> IIRFilter -> IIRFilter;
  IIRFilter_reset : IIRFilter -> IIRFilter;
  processSingleSampleRaw : float -> IIRFilter -> float * IIRFilter
}.

(** ** AntiAliasedSawOscillator *)

Module AntiAliasedSawOscillator.

Record t : Type := mk {
  phase : float;
  osc : float;
  previousInput : float;
  w : float;
  beta : float
}.

(** The member initialisers of the class. *)
Definition init : t := mk F32.zero F32.zero F32.zero F32.zero F32.zero.

Definition set_phase (x : float) (s : t) : t :=
  mk x (osc s) (previousInput s) (w s) (beta s).
Definition set_osc (x : float) (s : t) : t :=
  mk (phase s) x (previousInput s) (w s) (beta s).
Definition set_previousInput (x : float) (s : t) : t :=
  mk (phase s) (osc s) x (w s) (beta s).
Definition set_w (x : float) (s : t) : t :=
  mk (phase s) (osc s) (previousInput s) x (beta s).
Definition set_beta (x : float) (s : t) : t :=
  mk (phase s) (osc s) (previousInput s) (w s) x.

Definition setFrequency (newFrequency : float) (newSampleRate : double)
    (s : t) : t :=
  if F64.leb newSampleRate F64.zero then s
  else
    let normalised := (newFrequency / double_to_float newSampleRate)%f32 in
    let s := set_w (jlimit F32.zero f0_49 normalised) s in
    let diff := (f0_5 - w s)%f32 in
    set_beta (f13 * diff * diff * diff * diff)%f32 s.

Section WithLibrary.
Context {L : Library}.

Definition getNextSample (s : t) : float * t :=
  let feedbackPhase := (phase s + (osc s * beta s))%f32 in
  let input := sinf (twoPi * feedbackPhase)%f32 in
  let s := set_osc (f0_5 * (osc s + input))%f32 s in
  let filtered :=
    ((hfCompA0 * osc s) + (hfCompA1 * previousInput s))%f32 in
  let s := set_previousInput (osc s) s in
  let dc := (f0_376 - (f0_752 * w s))%f32 in
  let norm := jmax minNorm (F32.one - (f2 * w s))%f32 in
  let sample := ((filtered - dc) / norm)%f32 in
  let s := set_phase (phase s + w s)%f32 s in
  let s :=
    if (phase s >=? F32.one)%f32
    then set_phase (phase s - F32.one)%f32 s
    else s in
  (sample, s).
End WithLibrary.

Definition reset (s : t) : t :=
  let s := set_phase F32.zero s in
  let s := set_osc F32.zero s in
  set_previousInput F32.zero s.

End AntiAliasedSawOscillator.

(** ** AntiAliasedPulseOscillator *)

Module AntiAliasedPulseOscillator.
Module Saw := AntiAliasedSawOscillator.

Record t : Type := mk {
  leadingEdge : Saw.t;
  trailingEdge : Saw.t;
  pulseWidth : float
}.

Definition init : t := mk Saw.init Saw.init f0_5.

Definition set_leadingEdge (x : Saw.t) (p : t) : t :=
  mk x (trailingEdge p) (pulseWidth p).
Definition set_trailingEdge (x : Saw.t) (p : t) : t :=
  mk (leadingEdge p) x (pulseWidth p).
Definition set_pulseWidth (x : float) (p : t) : t :=
  mk (leadingEdge p) (trailingEdge p) x.

Definition setFrequency (newFrequency : float) (newSampleRate : double)
    (p : t) : t :=
  let p :=
    set_leadingEdge
      (Saw.setFrequency newFrequency newSampleRate (leadingEdge p)) p in
  set_trailingEdge
    (Saw.setFrequency newFrequency newSampleRate (trailingEdge p)) p.

Definition setPulseWidth (newPulseWidth : float) (p : t) : t :=
  set_pulseWidth (jlimit f0_01 f0_99 newPulseWidth) p.

(** [while (shiftedPhase >= 1.0f) shiftedPhase -= 1.0f;] The loop need not
    end (a subtraction of 1 leaves a large [float] or an infinity as it
    is), so it runs on fuel: [None] when the fuel does not reach the exit. *)
Fixpoint wrapShiftedPhase (fuel : nat) (shiftedPhase : float)
    : option float :=
  match fuel with
  | O => None
  | S fuel' =>
      if (shiftedPhase >=? F32.one)%f32
      then wrapShiftedPhase fuel' (shiftedPhase - F32.one)%f32
      else Some shiftedPhase
  end.

Section WithLibrary.
Context {L : Library}.

Definition getNextSample (fuel : nat) (p : t) : option (float * t) :=
  let '(leading, le) := Saw.getNextSample (leadingEdge p) in
  let p := set_leadingEdge le p in
  match
    wrapShiftedPhase fuel (Saw.phase (leadingEdge p) + pulseWidth p)%f32
  with
  | None => None
  | Some shiftedPhase =>
      let t := trailingEdge p in
      let feedbackPhase := (shiftedPhase + (Saw.osc t * Saw.beta t))%f32 in
      let input := sinf (twoPi * feedbackPhase)%f32 in
      let t := Saw.set_osc (f0_5 * (Saw.osc t + input))%f32 t in
      let filtered :=
        ((hfCompA0 * Saw.osc t) + (hfCompA1 * Saw.previousInput t))%f32 in
      let t := Saw.set_previousInput (Saw.osc t) t in
      let dc := (f0_376 - (f0_752 * Saw.w t))%f32 in
      let norm := jmax minNorm (F32.one - (f2 * Saw.w t))%f32 in
      let trailing := ((filtered - dc) / norm)%f32 in
      let t := Saw.set_phase (shiftedPhase + Saw.w t)%f32 t in
      let t :=
        if (Saw.phase t >=? F32.one)%f32
        then Saw.set_phase (Saw.phase t - F32.one)%f32 t
        else t in
      let p := set_trailingEdge t p in
      let pulse := jlimit fm1 F32.one (leading - trailing)%f32 in
      Some (pulse, p)
  end.
End WithLibrary.

Definition reset (p : t) : t :=
  let p := set_leadingEdge (Saw.reset (leadingEdge p)) p in
  set_trailingEdge (Saw.reset (trailingEdge p)) p.

End AntiAliasedPulseOscillator.

(** ** The shared parameters and the audio buffer *)

(** The values that a call loads from the three [std::atomic<float>]
    parameters of the value tree.  [startNote] loads two of them once each.
    A render call loads each of the three once and, when it refreshes the
    filter, the filter control a second time; another thread may store to
    it in between (see [renderNextBlockLoads]). *)
Record Parameters : Type := mkParameters {
  gainParam : float;
  pulseWidthParam : float;
  filterCutoffParam : float
}.

(** The defaults of [createParameterLayout]. *)
Definition defaultParameters : Parameters :=
  Eval vm_compute in mkParameters (F32.of_Z (-12)) f0_5 f0_5.

(** [juce::AudioBuffer<float>]: one list of samples per channel. *)
Definition AudioBuffer : Type := list (list float).

Definition getNumChannels (b : AudioBuffer) : nat := length b.

Definition getNumSamples (b : AudioBuffer) : Z :=
  match b with
  | [] => 0
  | c :: _ => Z.of_nat (length c)
  end.

(** [update n f l] applies [f] to the element at index [n], if there is one. *)
Fixpoint update {A : Type} (n : nat) (f : A -> A) (l : list A) : list A :=
  match l, n with
  | [], _ => []
  | x :: l', O => f x :: l'
  | x :: l', S n' => x :: update n' f l'
  end.

(** The samples of a buffer that allocates its own data lie in one block
    of memory, channel after channel.  [channelStart] is where a channel
    begins in that block, counted in samples from the first sample of the
    first channel. *)
Definition channelStart (channel : nat) (b : AudioBuffer) : Z :=
  Z.of_nat (length (concat (firstn channel b))).

(** [addAtOffset offset value b] adds [value] to the sample that lies
    [offset] samples into the block, if the block is that long. *)
Fixpoint addAtOffset (offset : nat) (value : float) (b : AudioBuffer)
    : AudioBuffer :=
  match b with
  | [] => []
  | c :: b' =>
      if (offset <? length c)%nat
      then update offset (fun x => (x + value)%f32) c :: b'
      else c :: addAtOffset (offset - length c) value b'
  end.

(** [addSample (destChannel, destSample, valueToAdd)]:
    [jassert (isPositiveAndBelow (destChannel, numChannels));
     jassert (isPositiveAndBelow (destSample, size));
     *(channels[destChannel] + destSample) += valueToAdd;].
    The assertions stop nothing in a release build and the write goes
    through the pointer: an index past the end of a channel is a sample of
    the next channel, an index before its start a sample of the channel
    before.  Before the first and after the last sample of the block lies
    memory that is not the buffer's samples, which then stay as they are,
    and what the write hits there is not modelled; nor is a write through
    [channels[numChannels]], a null pointer, which the sources never
    make. *)
Definition addSample (destChannel : nat) (destSample : Z) (valueToAdd : float)
    (b : AudioBuffer) : AudioBuffer :=
  let offset := channelStart destChannel b + destSample in
  if (offset <? 0) || negb (destChannel <? getNumChannels b)%nat then b
  else addAtOffset (Z.to_nat offset) valueToAdd b.

(** [buffer.clear()]. *)
Definition clear (b : AudioBuffer) : AudioBuffer :=
  map (map (fun _ => F32.zero)) b.

(** ** juce::SynthesiserVoice, the base class of the voice

    Library code: the members that the voice reads or writes through
    [getSampleRate], [clearCurrentNote], [isVoiceActive] and
    [isPlayingChannel]. *)
Module SynthesiserVoice.

Record t : Type := mk {
  currentSampleRate : double;
  currentlyPlayingNote : Z;
  currentPlayingMidiChannel : Z;
  (** whether [currentlyPlayingSound] is not null *)
  hasPlayingSound : bool
}.

Definition init : t := mk d44100 (-1) 0 false.

Definition getSampleRate (b : t) : double := currentSampleRate b.

(** [setCurrentPlaybackSampleRate (newRate)]:
    [currentSampleRate = newRate]. *)
Definition setCurrentPlaybackSampleRate (newRate : double) (b : t) : t :=
  mk newRate (currentlyPlayingNote b) (currentPlayingMidiChannel b)
     (hasPlayingSound b).

Definition clearCurrentNote (b : t) : t :=
  mk (currentSampleRate b) (-1) 0 false.

Definition isVoiceActive (b : t) : bool := 0 <=? currentlyPlayingNote b.

Definition isPlayingChannel (midiChannel : Z) (b : t) : bool :=
  currentPlayingMidiChannel b =? midiChannel.

End SynthesiserVoice.

(** Modelled from the spec: [juce::MidiMessage::getMidiNoteInHertz] is JUCE
    code that the sources only call; the spec gives it as
    [440·2^((midiNote−69)/12)], computed here in [double] with [std::pow]. *)
Definition getMidiNoteInHertz {L : Library} (noteNumber : Z) : double :=
  F64.mul d440 (pow d2 (F64.div (F64.of_Z (noteNumber - 69)) d12)).

(** ** AntiAliasedVoice *)

Module AntiAliasedVoice.
Module Pulse := AntiAliasedPulseOscillator.

Section State.
(** The type of the [juce::IIRFilter] member. *)
Variable Filter : Type.

Record state : Type := mk {
  base : SynthesiserVoice.t;
  pulseOsc : Pulse.t;
  currentLevel : float;
  currentFrequency : float;
  isActive : bool;
  lowPassFilter : Filter;
  currentSampleRate : double;
  lastFilterCutoff : float
}.

Definition set_base (x : SynthesiserVoice.t) (v : state) : state :=
  mk x (pulseOsc v) (currentLevel v) (currentFrequency v) (isActive v)
     (lowPassFilter v) (currentSampleRate v) (lastFilterCutoff v).
Definition set_pulseOsc (x : Pulse.t) (v : state) : state :=
  mk (base v) x (currentLevel v) (currentFrequency v) (isActive v)
     (lowPassFilter v) (currentSampleRate v) (lastFilterCutoff v).
Definition set_currentLevel (x : float) (v : state) : state :=
  mk (base v) (pulseOsc v) x (currentFrequency v) (isActive v)
     (lowPassFilter v) (currentSampleRate v) (lastFilterCutoff v).
Definition set_currentFrequency (x : float) (v : state) : state :=
  mk (base v) (pulseOsc v) (currentLevel v) x (isActive v)
     (lowPassFilter v) (currentSampleRate v) (lastFilterCutoff v).
Definition set_isActive (x : bool) (v : state) : state :=
  mk (base v) (pulseOsc v) (currentLevel v) (currentFrequency v) x
     (lowPassFilter v) (currentSampleRate v) (lastFilterCutoff v).
Definition set_lowPassFilter (x : Filter) (v : state) : state :=
  mk (base v) (pulseOsc v) (currentLevel v) (currentFrequency v)
     (isActive v) x (currentSampleRate v) (lastFilterCutoff v).
Definition set_currentSampleRate (x : double) (v : state) : state :=
  mk (base v) (pulseOsc v) (currentLevel v) (currentFrequency v)
     (isActive v) (lowPassFilter v) x (lastFilterCutoff v).
Definition set_lastFilterCutoff (x : float) (v : state) : state :=
  mk (base v) (pulseOsc v) (currentLevel v) (currentFrequency v)
     (isActive v) (lowPassFilter v) (currentSampleRate v) x.
End State.

Arguments mk {Filter}.
Arguments base {Filter}.
Arguments pulseOsc {Filter}.
Arguments currentLevel {Filter}.
Arguments currentFrequency {Filter}.
Arguments isActive {Filter}.
Arguments lowPassFilter {Filter}.
Arguments currentSampleRate {Filter}.
Arguments lastFilterCutoff {Filter}.
Arguments set_base {Filter}.
Arguments set_pulseOsc {Filter}.
Arguments set_currentLevel {Filter}.
Arguments set_currentFrequency {Filter}.
Arguments set_isActive {Filter}.
Arguments set_lowPassFilter {Filter}.
Arguments set_currentSampleRate {Filter}.
Arguments set_lastFilterCutoff {Filter}.

Section WithLibrary.
Context {L : Library}.

(** The voice, with JUCE's filter. *)
Definition t : Type := state IIRFilter.

(** The member initialisers; the constructor only caches the three
    parameter pointers. *)
Definition init : t :=
  mk SynthesiserVoice.init Pulse.init F32.zero F32.zero false
     IIRFilter_new d44100 fm1.

Definition updateFilterCoefficients (ps : Parameters) (v : t) : t :=
  if F64.leb (currentSampleRate v) F64.zero then v
  else
    let smoothingAmount := filterCutoffParam ps in
    let maxCutoff :=
      double_to_float (F64.mul (currentSampleRate v) d0_45) in
    let minCutoff := f200 in
    let cutoff :=
      jmap smoothingAmount F32.zero F32.one maxCutoff minCutoff in
    let coeffs :=
      makeLowPass (currentSampleRate v) (float_to_double cutoff) in
    set_lowPassFilter (setCoefficients coeffs (lowPassFilter v)) v.

Definition startNote (ps : Parameters) (midiNoteNumber : Z)
    (velocity : float) (v : t) : t :=
  let sampleRate := SynthesiserVoice.getSampleRate (base v) in
  if F64.leb sampleRate F64.zero
  then set_base (SynthesiserVoice.clearCurrentNote (base v)) v
  else
    let v := set_currentLevel velocity v in
    let v :=
      set_currentFrequency
        (double_to_float (getMidiNoteInHertz midiNoteNumber)) v in
    let v := set_pulseOsc (Pulse.reset (pulseOsc v)) v in
    let v :=
      set_pulseOsc
        (Pulse.setPulseWidth (pulseWidthParam ps) (pulseOsc v)) v in
    let v :=
      set_pulseOsc
        (Pulse.setFrequency (currentFrequency v) sampleRate (pulseOsc v))
        v in
    let v := set_currentSampleRate sampleRate v in
    let v := updateFilterCoefficients ps v in
    let v := set_lowPassFilter (IIRFilter_reset (lowPassFilter v)) v in
    set_isActive true v.

(** Neither argument is used: the velocity is unnamed and [allowTailOff]
    is passed to [ignoreUnused]. *)
Definition stopNote (velocity : float) (allowTailOff : bool) (v : t) : t :=
  let v := set_base (SynthesiserVoice.clearCurrentNote (base v)) v in
  let v := set_pulseOsc (Pulse.reset (pulseOsc v)) v in
  let v := set_isActive false v in
  set_currentLevel F32.zero v.

(** The inner loop of [renderNextBlock]: [addSample] on every channel,
    [channel] counting up over the [todo] channels that are left. *)
Fixpoint addToChannels (todo channel : nat) (destSample : Z)
    (value : float) (outputBuffer : AudioBuffer) : AudioBuffer :=
  match todo with
  | O => outputBuffer
  | S todo' =>
      addToChannels todo' (S channel) destSample value
        (addSample channel destSample value outputBuffer)
  end.

(** The sample loop of [renderNextBlock], [sample] counting up over the
    [todo] samples that are left. *)
Fixpoint sampleLoop (fuel : nat) (gain : float) (startSample : Z)
    (todo : nat) (sample : Z) (v : t) (outputBuffer : AudioBuffer)
    : option (AudioBuffer * t) :=
  match todo with
  | O => Some (outputBuffer, v)
  | S todo' =>
      match Pulse.getNextSample fuel (pulseOsc v) with
      | None => None
      | Some (x, p) =>
          let v := set_pulseOsc p v in
          let rawValue := (x * currentLevel v * gain)%f32 in
          let '(value, f) :=
            processSingleSampleRaw rawValue (lowPassFilter v) in
          let v := set_lowPassFilter f v in
          let outputBuffer :=
            addToChannels (getNumChannels outputBuffer) 0
              (startSample + sample) value outputBuffer in
          sampleLoop fuel gain startSample todo' (sample + 1) v
            outputBuffer
      end
  end.

(** The guard of [renderNextBlock]. *)
Definition rendering (v : t) : bool :=
  SynthesiserVoice.isVoiceActive (base v) && isActive v.

(** [renderNextBlock].  [ps] has what the call's own three loads return;
    [reloaded] has the parameters as [updateFilterCoefficients] finds them
    when it loads the filter control again. *)
Definition renderNextBlockLoads (fuel : nat) (ps reloaded : Parameters)
    (outputBuffer : AudioBuffer) (startSample numSamples : Z) (v : t)
    : option (AudioBuffer * t) :=
  if negb (SynthesiserVoice.isVoiceActive (base v)) || negb (isActive v)
  then Some (outputBuffer, v)
  else
    let sampleRate := SynthesiserVoice.getSampleRate (base v) in
    if F64.leb sampleRate F64.zero then Some (outputBuffer, v)
    else
      let v :=
        set_pulseOsc
          (Pulse.setFrequency (currentFrequency v) sampleRate
             (pulseOsc v)) v in
      let v :=
        set_pulseOsc
          (Pulse.setPulseWidth (pulseWidthParam ps) (pulseOsc v)) v in
      let v := set_currentSampleRate sampleRate v in
      let smoothingAmount := filterCutoffParam ps in
      let v :=
        if (F32.abs (smoothingAmount - lastFilterCutoff v) >? f1em3)%f32
        then
          updateFilterCoefficients reloaded
            (set_lastFilterCutoff smoothingAmount v)
        else v in
      let gain := decibelsToGain (gainParam ps) in
      sampleLoop fuel gain startSample (Z.to_nat numSamples) 0 v
        outputBuffer.

(** A render call during which no other thread stores to the filter
    control: both loads of it return the same. *)
Definition renderNextBlock (fuel : nat) (ps : Parameters)
    (outputBuffer : AudioBuffer) (startSample numSamples : Z) (v : t)
    : option (AudioBuffer * t) :=
  renderNextBlockLoads fuel ps ps outputBuffer startSample numSamples v.
End WithLibrary.

End AntiAliasedVoice.

(** ** AudioPluginAudioProcessor *)

Module AudioPluginAudioProcessor.
Module Voice := AntiAliasedVoice.

(** [juce::Synthesiser::allNotesOff (midiChannel, allowTailOff)], library
    code: [stopNote (1.0f, allowTailOff)] on every voice when
    [midiChannel <= 0], else on the voices playing that channel. *)
Definition allNotesOff {L : Library} (midiChannel : Z) (allowTailOff : bool)
    (voices : list Voice.t) : list Voice.t :=
  map
    (fun voice =>
       if (midiChannel <=? 0)
          || SynthesiserVoice.isPlayingChannel midiChannel (Voice.base voice)
       then Voice.stopNote F32.one allowTailOff voice
       else voice)
    voices.

Section State.
(** The types of the voices and of the [juce::MidiKeyboardState] member. *)
Variables VoiceState KeyboardState : Type.

Record state : Type := mk {
  parameters : Parameters;
  (** the voices that [synth] owns *)
  synth : list VoiceState;
  lastSampleRate : double;
  keyboardState : KeyboardState
}.
End State.

Arguments mk {VoiceState KeyboardState}.
Arguments parameters {VoiceState KeyboardState}.
Arguments synth {VoiceState KeyboardState}.
Arguments lastSampleRate {VoiceState KeyboardState}.
Arguments keyboardState {VoiceState KeyboardState}.

Section WithLibrary.
Context {L : Library}.

(** The MIDI side of JUCE, which the processor only passes along: the
    events of a [juce::MidiBuffer], the on-screen keyboard's state with
    its [processNextMidiBuffer], and [juce::Synthesiser::renderNextBlock],
    which dispatches the events to the voices and renders them (it has
    no result when a voice's rendering does not end). *)
Variable MidiEvent : Type.
Variable MidiKeyboardState : Type.
Variable processNextMidiBuffer :
  MidiKeyboardState -> list MidiEvent -> Z -> Z -> bool ->
  list MidiEvent * MidiKeyboardState.
Variable Synthesiser_renderNextBlock :
  Parameters -> list Voice.t -> AudioBuffer -> list MidiEvent -> Z -> Z ->
  option (AudioBuffer * list Voice.t).

Definition t : Type := state Voice.t MidiKeyboardState.

Definition numVoices : nat := 8.

(** [juce::Synthesiser::addVoice (newVoice)], library code:
    [newVoice->setCurrentPlaybackSampleRate (sampleRate);
     voices.add (newVoice);] with the synthesiser's own [sampleRate]. *)
Definition addVoice (sampleRate : double) (newVoice : Voice.t)
    (voices : list Voice.t) : list Voice.t :=
  voices
  ++ [Voice.set_base
        (SynthesiserVoice.setCurrentPlaybackSampleRate sampleRate
           (Voice.base newVoice))
        newVoice].

(** The constructor's loop: [addVoice (new AntiAliasedVoice)] [todo]
    more times, on a synthesiser that was just constructed, whose
    [sampleRate] is 0. *)
Fixpoint addVoices (todo : nat) (voices : list Voice.t) : list Voice.t :=
  match todo with
  | O => voices
  | S todo' => addVoices todo' (addVoice F64.zero Voice.init voices)
  end.

(** The constructor, for a freshly constructed keyboard state. *)
Definition init (keyboard : MidiKeyboardState) : t :=
  mk defaultParameters (addVoices numVoices []) d44100 keyboard.

Definition releaseResources (p : t) : t :=
  mk (parameters p) (allNotesOff 0 true (synth p)) (lastSampleRate p)
     (keyboardState p).

Definition processBlock (buffer : AudioBuffer)
    (midiMessages : list MidiEvent) (p : t)
    : option (AudioBuffer * list MidiEvent * t) :=
  if F64.leb (lastSampleRate p) F64.zero
  then Some (clear buffer, [], p)
  else
    let '(midiMessages, keyboard) :=
      processNextMidiBuffer (keyboardState p) midiMessages 0
        (getNumSamples buffer) true in
    let buffer := clear buffer in
    match
      Synthesiser_renderNextBlock (parameters p) (synth p) buffer
        midiMessages 0 (getNumSamples buffer)
    with
    | None => None
    | Some (buffer, voices) =>
        Some (buffer, [], mk (parameters p) voices (lastSampleRate p)
                             keyboard)
    end.
End WithLibrary.

Arguments init {L MidiKeyboardState}.
Arguments releaseResources {L MidiKeyboardState}.
Arguments processBlock {L MidiEvent MidiKeyboardState}.

Section Preparing.
Context {L : Library}.
Variable MidiKeyboardState : Type.

(** [juce::Synthesiser::setCurrentPlaybackSampleRate], library code that
    hands the rate on to the voices. *)
Variable Synthesiser_setCurrentPlaybackSampleRate :
  double -> list Voice.t -> list Voice.t.

(** [samplesPerBlock] goes to [ignoreUnused]. *)
Definition prepareToPlay (sampleRate : double) (samplesPerBlock : Z)
    (p : t MidiKeyboardState) : t MidiKeyboardState :=
  mk (parameters p)
     (Synthesiser_setCurrentPlaybackSampleRate sampleRate (synth p))
     sampleRate (keyboardState p).
End Preparing.

Arguments prepareToPlay {L MidiKeyboardState}.

(** The parameter IDs of the anonymous namespace. *)
Definition gainParamID : String.string := "gain"%string.
Definition pulseWidthParamID : String.string := "pulseWidth"%string.
Definition filterCutoffParamID : String.string := "filterCutoff"%string.

(** [juce::AudioParameterFloat (parameterID, parameterName,
    juce::NormalisableRange<float> (rangeStart, rangeEnd, intervalValue),
    defaultValue)]. *)
Record AudioParameterFloat : Type := mkAudioParameterFloat {
  parameterID : String.string;
  parameterName : String.string;
  rangeStart : float;
  rangeEnd : float;
  intervalValue : float;
  defaultValue : float
}.

Definition createParameterLayout : list AudioParameterFloat :=
  [ mkAudioParameterFloat gainParamID "Gain"%string
      (F32.of_Z (-60)) F32.zero (F32.of_decimal 1 10) (F32.of_Z (-12));
    mkAudioParameterFloat pulseWidthParamID "Pulse Width"%string
      (F32.of_decimal 5 100) (F32.of_decimal 95 100)
      (F32.of_decimal 1 1000) f0_5;
    mkAudioParameterFloat filterCutoffParamID "Virtual Filter"%string
      F32.zero F32.one (F32.of_decimal 1 1000) f0_5 ].

End AudioPluginAudioProcessor.

(** ** The design document's vocabulary

    Definitions that follow the wording of the design document, to which the
    embedded code is compared below. *)

Module Design.
Module Saw := AntiAliasedSawOscillator.
Module Pulse := AntiAliasedPulseOscillator.
Module Voice := AntiAliasedVoice.

(** [lo <= x <= hi]; false when [x] is NaN. *)
Definition within (lo hi x : float) : bool :=
  (lo <=? x)%f32 && (x <=? hi)%f32.

Section WithLibrary.
Context {L : Library}.

(** Steps 1 to 3 of the saw algorithm, from a phase [ph]: the new value
    of [osc]. *)
Definition sawOsc (ph : float) (s : Saw.t) : float :=
  let feedbackPhase := (ph + Saw.osc s * Saw.beta s)%f32 in
  let input := sinf (twoPi * feedbackPhase)%f32 in
  (f0_5 * (Saw.osc s + input))%f32.

(** Steps 4, 6 and 7: the sample. *)
Definition sawSample (ph : float) (s : Saw.t) : float :=
  let filtered :=
    (hfCompA0 * sawOsc ph s - f1_5 * Saw.previousInput s)%f32 in
  let dc := (f0_376 - f0_752 * Saw.w s)%f32 in
  let norm := jmax minNorm (F32.one - f2 * Saw.w s)%f32 in
  ((filtered - dc) / norm)%f32.

(** Step 8: the phase advanced by [w], less 1 once when it reaches 1. *)
Definition sawPhase (ph : float) (s : Saw.t) : float :=
  let advanced := (ph + Saw.w s)%f32 in
  if (advanced >=? F32.one)%f32 then (advanced - F32.one)%f32
  else advanced.

(** The core after a step taken from phase [ph]. *)
Definition sawNext (ph : float) (s : Saw.t) : Saw.t :=
  Saw.mk (sawPhase ph s) (sawOsc ph s) (sawOsc ph s) (Saw.w s)
         (Saw.beta s).
End WithLibrary.

(** [13·(0.5 − w)⁴], multiplied out from the left as the code does. *)
Definition betaOf (w : float) : float :=
  let diff := (f0_5 - w)%f32 in (f13 * diff * diff * diff * diff)%f32.

(** [x] after [k] subtractions of 1. *)
Fixpoint lessOnes (k : nat) (x : float) : float :=
  match k with
  | O => x
  | S k' => lessOnes k' (x - F32.one)%f32
  end.

(** The calls of the pulse oscillator's interface. *)
Inductive PulseCall : Type :=
| CallSetFrequency (newFrequency : float) (newSampleRate : double)
| CallSetPulseWidth (newPulseWidth : float)
| CallReset
| CallGetNextSample.

Definition applyCall {L : Library} (fuel : nat) (c : PulseCall)
    (p : Pulse.t) : option Pulse.t :=
  match c with
  | CallSetFrequency f sr => Some (Pulse.setFrequency f sr p)
  | CallSetPulseWidth pw => Some (Pulse.setPulseWidth pw p)
  | CallReset => Some (Pulse.reset p)
  | CallGetNextSample =>
      match Pulse.getNextSample fuel p with
      | Some (_, p') => Some p'
      | None => None
      end
  end.

Fixpoint applyCalls {L : Library} (fuel : nat) (cs : list PulseCall)
    (p : Pulse.t) : option Pulse.t :=
  match cs with
  | [] => Some p
  | c :: cs' =>
      match applyCall fuel c p with
      | Some p' => applyCalls fuel cs' p'
      | None => None
      end
  end.

(** A core whose [phase], [osc] and [previousInput] are zero. *)
Definition sawZeroed (s : Saw.t) : Prop :=
  Saw.phase s = F32.zero /\ Saw.osc s = F32.zero
  /\ Saw.previousInput s = F32.zero.

(** A valid [float] that is a zero or positive and finite. *)
Definition nonneg (x : float) : bool :=
  F32.valid x
  && match x with
     | S754_zero _ | S754_finite false _ _ => true
     | _ => false
     end.

(** The value of such a [float] in units of [2^-149], the smallest positive
    [float]. *)
Definition units (x : float) : Z :=
  match x with
  | S754_finite _ m e => Z.pos m * 2 ^ (e + 149)
  | _ => 0
  end.

(** NaN, or a [float] from 0 up to but not 1: what a phase, a normalised
    frequency or a pulse width can be. *)
Definition inUnit (x : float) : bool :=
  F32.is_nan x || (nonneg x && (x <? F32.one)%f32).

(** NaN, or a [float] from 0 up to but not 2. *)
Definition underTwo (x : float) : bool :=
  F32.is_nan x || (nonneg x && (x <? f2)%f32).

(** [w] and [beta] agree between the two cores of a pulse oscillator. *)
Definition sameTuning (p : Pulse.t) : Prop :=
  Saw.w (Pulse.leadingEdge p) = Saw.w (Pulse.trailingEdge p)
  /\ Saw.beta (Pulse.leadingEdge p) = Saw.beta (Pulse.trailingEdge p).

(** NaN or a valid [float]: what a C++ [float] can hold. *)
Definition isFloat (x : float) : bool := F32.is_nan x || F32.valid x.

(** A pulse oscillator whose leading phase, normalised frequency and pulse
    width are phases. *)
Definition pulseInRange (p : Pulse.t) : bool :=
  inUnit (Saw.phase (Pulse.leadingEdge p))
  && inUnit (Saw.w (Pulse.leadingEdge p))
  && inUnit (Pulse.pulseWidth p).

(** The cutoff that [updateFilterCoefficients] hands to [makeLowPass]. *)
Definition cutoffOf (sampleRate : double) (c : float) : float :=
  jmap c F32.zero F32.one
    (double_to_float (F64.mul sampleRate d0_45)) f200.

Section Block.
Context {L : Library}.

(** The values that the voice computes for the [todo] next samples:
    oscillator, level and gain, then the filter. *)
Fixpoint sampleValues (fuel : nat) (gain : float) (todo : nat)
    (v : Voice.t) : option (list float * Voice.t) :=
  match todo with
  | O => Some ([], v)
  | S todo' =>
      match Pulse.getNextSample fuel (Voice.pulseOsc v) with
      | None => None
      | Some (x, p) =>
          let '(value, f) :=
            processSingleSampleRaw (x * Voice.currentLevel v * gain)%f32
              (Voice.lowPassFilter v) in
          match
            sampleValues fuel gain todo'
              (Voice.set_lowPassFilter f (Voice.set_pulseOsc p v))
          with
          | None => None
          | Some (values, v') => Some (value :: values, v')
          end
      end
  end.

(** The voice as the per-block refresh of [renderNextBlock] leaves it,
    before the first sample. *)
Definition refreshed (ps : Parameters) (v : Voice.t) : Voice.t :=
  let sampleRate := SynthesiserVoice.getSampleRate (Voice.base v) in
  let v :=
    Voice.set_pulseOsc
      (Pulse.setPulseWidth (pulseWidthParam ps)
         (Pulse.setFrequency (Voice.currentFrequency v) sampleRate
            (Voice.pulseOsc v))) v in
  let v := Voice.set_currentSampleRate sampleRate v in
  if (F32.abs (filterCutoffParam ps - Voice.lastFilterCutoff v)
      >? f1em3)%f32
  then
    Voice.updateFilterCoefficients ps
      (Voice.set_lastFilterCutoff (filterCutoffParam ps) v)
  else v.

(** The same when the filter control is loaded again from [reloaded]. *)
Definition refreshedLoads (ps reloaded : Parameters) (v : Voice.t)
    : Voice.t :=
  let sampleRate := SynthesiserVoice.getSampleRate (Voice.base v) in
  let v :=
    Voice.set_pulseOsc
      (Pulse.setPulseWidth (pulseWidthParam ps)
         (Pulse.setFrequency (Voice.currentFrequency v) sampleRate
            (Voice.pulseOsc v))) v in
  let v := Voice.set_currentSampleRate sampleRate v in
  if (F32.abs (filterCutoffParam ps - Voice.lastFilterCutoff v)
      >? f1em3)%f32
  then
    Voice.updateFilterCoefficients reloaded
      (Voice.set_lastFilterCutoff (filterCutoffParam ps) v)
  else v.

(** The buffer after the sample loop has added [values] from
    [startSample] on, each to every channel. *)
Fixpoint mixIn (startSample : Z) (values : list float) (b : AudioBuffer)
    : AudioBuffer :=
  match values with
  | [] => b
  | value :: values' =>
      mixIn (startSample + 1) values'
        (Voice.addToChannels (getNumChannels b) 0 startSample value b)
  end.

(** A voice whose leading phase is a phase, with a pulse-width parameter
    that is a float. *)
Definition voiceInRange (ps : Parameters) (v : Voice.t) : bool :=
  inUnit (Saw.phase (Pulse.leadingEdge (Voice.pulseOsc v)))
  && isFloat (pulseWidthParam ps).

(** Whether a render call gets past both guards. *)
Definition renders (v : Voice.t) : bool :=
  Voice.rendering v
  && negb (F64.leb (SynthesiserVoice.getSampleRate (Voice.base v))
             F64.zero).

(** The samples of one block: none when the voice does not render. *)
Definition blockValues (fuel : nat) (ps : Parameters) (numSamples : Z)
    (v : Voice.t) : option (list float * Voice.t) :=
  if renders v
  then
    sampleValues fuel (decibelsToGain (gainParam ps))
      (Z.to_nat numSamples) (refreshed ps v)
  else Some ([], v).
End Block.

(** The sample at index [i] of channel [channel], if the buffer has
    one. *)
Definition sampleAt (b : AudioBuffer) (channel i : nat) : option float :=
  match nth_error b channel with
  | Some c => nth_error c i
  | None => None
  end.

(** [value] added at index [destSample] of a channel that has it. *)
Definition addAt (destSample : Z) (value : float) (c : list float)
    : list float :=
  if destSample <? 0 then c
  else update (Z.to_nat destSample) (fun x => (x + value)%f32) c.

(** Whether the block of [numSamples] samples from [startSample] on lies
    inside every channel of the buffer, as a caller of [renderNextBlock]
    has to see to. *)
Definition blockInside (startSample numSamples : Z) (b : AudioBuffer)
    : bool :=
  (0 <=? startSample)
  && forallb (fun c => startSample + numSamples <=? Z.of_nat (length c)) b.

(** [2^27] Hz: under it the filter control at 1 gives 200 Hz exactly. *)
Definition f2p27 : float := Eval vm_compute in F32.of_Z (2 ^ 27).

(** A channel after [values] were added one by one from [startSample]
    on. *)
Fixpoint mixChannel (startSample : Z) (values : list float)
    (c : list float) : list float :=
  match values with
  | [] => c
  | value :: values' =>
      mixChannel (startSample + 1) values' (addAt startSample value c)
  end.

(** What a block of [values] mixed in from [startSample] makes of the
    sample that was [old] at index [i]. *)
Definition mixedAt (startSample : Z) (values : list float) (i : nat)
    (old : float) : float :=
  if (startSample <=? Z.of_nat i)
     && (Z.of_nat i <? startSample + Z.of_nat (length values))
  then (old + nth (Z.to_nat (Z.of_nat i - startSample)) values F32.zero)%f32
  else old.

(** A voice as a render call has refreshed it for the parameters [ps]:
    both cores tuned, the pulse width set, the sample rate cached and the
    filter control not more than 0.001 away from its record. *)
Definition refreshedFor {L : Library} (ps : Parameters) (v : Voice.t)
    : Prop :=
  let sampleRate := SynthesiserVoice.getSampleRate (Voice.base v) in
  let w :=
    jlimit F32.zero f0_49
      (Voice.currentFrequency v / double_to_float sampleRate)%f32 in
  Saw.w (Pulse.leadingEdge (Voice.pulseOsc v)) = w
  /\ Saw.beta (Pulse.leadingEdge (Voice.pulseOsc v)) = betaOf w
  /\ Saw.w (Pulse.trailingEdge (Voice.pulseOsc v)) = w
  /\ Saw.beta (Pulse.trailingEdge (Voice.pulseOsc v)) = betaOf w
  /\ Pulse.pulseWidth (Voice.pulseOsc v)
     = jlimit f0_01 f0_99 (pulseWidthParam ps)
  /\ Voice.currentSampleRate v = sampleRate
  /\ (F32.abs (filterCutoffParam ps - Voice.lastFilterCutoff v) >? f1em3)%f32
     = false.

(** Whether the pulse width that a call of the oscillator's interface
    passes is a [float]. *)
Definition pulseCallOfFloats (c : PulseCall) : bool :=
  match c with
  | CallSetPulseWidth pw => isFloat pw
  | _ => true
  end.

(** What reaches a voice: the three overrides that the synthesiser calls,
    and the synthesiser's own writes to the members of the base class (the
    note, the channel, the sound and the sample rate). *)
Inductive VoiceCall : Type :=
| CallStartNote (ps : Parameters) (midiNoteNumber : Z) (velocity : float)
| CallStopNote (velocity : float) (allowTailOff : bool)
| CallRenderNextBlock (ps : Parameters) (outputBuffer : AudioBuffer)
    (startSample numSamples : Z)
| CallSetBase (b : SynthesiserVoice.t).

Definition applyVoiceCall {L : Library} (fuel : nat) (c : VoiceCall)
    (v : Voice.t) : option Voice.t :=
  match c with
  | CallStartNote ps midiNoteNumber velocity =>
      Some (Voice.startNote ps midiNoteNumber velocity v)
  | CallStopNote velocity allowTailOff =>
      Some (Voice.stopNote velocity allowTailOff v)
  | CallRenderNextBlock ps outputBuffer startSample numSamples =>
      match
        Voice.renderNextBlock fuel ps outputBuffer startSample numSamples v
      with
      | Some (_, v') => Some v'
      | None => None
      end
  | CallSetBase b => Some (Voice.set_base b v)
  end.

Fixpoint applyVoiceCalls {L : Library} (fuel : nat) (cs : list VoiceCall)
    (v : Voice.t) : option Voice.t :=
  match cs with
  | [] => Some v
  | c :: cs' =>
      match applyVoiceCall fuel c v with
      | Some v' => applyVoiceCalls fuel cs' v'
      | None => None
      end
  end.

(** Whether the pulse-width parameter that a call reads is a [float]. *)
Definition voiceCallOfFloats (c : VoiceCall) : bool :=
  match c with
  | CallStartNote ps _ _ => isFloat (pulseWidthParam ps)
  | CallRenderNextBlock ps _ _ _ => isFloat (pulseWidthParam ps)
  | _ => true
  end.

(** Step 6's normaliser, [jmax (minNorm, 1 − 2·w)]. *)
Definition normOf (w : float) : float :=
  jmax minNorm (F32.one - f2 * w)%f32.

(** A [float] that is a number of magnitude at most [2^k]. *)
Definition atMost (k : Z) (x : float) : bool :=
  F32.valid x && F32.is_finite x && (units x <=? 2 ^ (k + 149)).

(** A phase: a number from 0 up to but not 1. *)
Definition isPhase (x : float) : bool := nonneg x && (x <? F32.one)%f32.

(** A sine whose value is a number within [-1, 1] at every number. *)
Definition sineInRange {L : Library} : Prop :=
  forall x : float,
    F32.valid x = true -> F32.is_finite x = true ->
    atMost 0 (sinf x) = true.

(** A core whose [osc] and [previousInput] are numbers within [-1, 1],
    whose [w] is a phase and whose [beta] is a number of magnitude at most
    [2^8]. *)
Definition sawInBounds (s : Saw.t) : bool :=
  atMost 0 (Saw.osc s) && atMost 0 (Saw.previousInput s)
  && isPhase (Saw.w s) && atMost 8 (Saw.beta s).

(** A pulse oscillator of such cores whose leading phase and pulse width
    are phases. *)
Definition pulseInBounds (p : Pulse.t) : bool :=
  isPhase (Saw.phase (Pulse.leadingEdge p))
  && sawInBounds (Pulse.leadingEdge p)
  && sawInBounds (Pulse.trailingEdge p)
  && isPhase (Pulse.pulseWidth p).

(** Whether a call of the oscillator's interface passes numbers: a
    sample rate that is [<= 0], or else a frequency whose single-precision
    quotient by it is not NaN; a pulse width that is a [float] and not
    NaN. *)
Definition pulseCallOfNumbers (c : PulseCall) : bool :=
  match c with
  | CallSetFrequency f sr =>
      F64.leb sr F64.zero || negb (F32.is_nan (f / double_to_float sr)%f32)
  | CallSetPulseWidth pw => F32.valid pw && negb (F32.is_nan pw)
  | _ => true
  end.

(** The samples that the [getNextSample] calls of a run return, in
    order. *)
Fixpoint samplesOfCalls {L : Library} (fuel : nat) (cs : list PulseCall)
    (p : Pulse.t) : option (list float) :=
  match cs with
  | [] => Some []
  | CallGetNextSample :: cs' =>
      match Pulse.getNextSample fuel p with
      | Some (x, p') =>
          match samplesOfCalls fuel cs' p' with
          | Some xs => Some (x :: xs)
          | None => None
          end
      | None => None
      end
  | c :: cs' =>
      match applyCall fuel c p with
      | Some p' => samplesOfCalls fuel cs' p'
      | None => None
      end
  end.

(** A zero, a negative number or the negative infinity. *)
Definition nonpos (x : float) : bool :=
  match x with
  | S754_zero _ | S754_finite true _ _ | S754_infinity true => true
  | _ => false
  end.

End Design.

(** ** A small library to run the model on

    The theorems hold for every [Library].  Closed examples need one: a
    polynomial for the sine (exact at 0, NaN on NaN like the real one), a
    power that is right for the exponents 0 and 1, unit gain, and a filter
    that keeps its cutoff and last output and passes samples through. *)
Module Example.

Definition sin_poly (x : float) : float :=
  let x2 := (x * x)%f32 in
  (x - (x * x2) / F32.of_Z 6 + (x * x2 * x2) / F32.of_Z 120)%f32.

Definition pow01 (x y : double) : double :=
  match y with
  | S754_zero _ => F64.of_Z 1
  | _ => x
  end.

#[export] Instance library : Library := {|
  sinf := sin_poly;
  pow := pow01;
  decibelsToGain := fun _ => F32.one;
  IIRCoefficients := double;
  IIRFilter := double * float;
  IIRFilter_new := (F64.zero, F32.zero);
  makeLowPass := fun _ frequency => frequency;
  setCoefficients := fun c f => (c, snd f);
  IIRFilter_reset := fun f => (fst f, F32.zero);
  processSingleSampleRaw := fun x f => (x, (fst f, x))
|}.

Definition f440 : float := Eval vm_compute in F32.of_Z 440.

(** [2^-200], a positive [double] below every positive [float]. *)
Definition dTiny : double := S754_finite false 4503599627370496 (-252).

(** [2^25], a [float] that a subtraction of 1 leaves as it is. *)
Definition twoTo25 : float := S754_finite false 8388608 2.

(** A pulse oscillator tuned to 440 Hz at 44.1 kHz whose leading core is
    halfway through its period, with pulse width 0.99. *)
Definition pulseHalfway : AntiAliasedPulseOscillator.t :=
  let tuned :=
    AntiAliasedSawOscillator.setFrequency f440 d44100
      AntiAliasedSawOscillator.init in
  AntiAliasedPulseOscillator.mk
    (AntiAliasedSawOscillator.set_phase f0_5 tuned) tuned f0_99.

(** A keyboard without keys pressed, a synthesiser call that renders no
    voice, a processor whose sample rate was set to 0, a playing voice and
    a stereo buffer of three samples. *)
Definition keyboardPass (keyboard : unit) (midi : list unit) (_ _ : Z)
    (_ : bool) : list unit * unit :=
  (midi, keyboard).

Definition synthIdle (_ : Parameters) (voices : list AntiAliasedVoice.t)
    (buffer : AudioBuffer) (_ : list unit) (_ _ : Z)
    : option (AudioBuffer * list AntiAliasedVoice.t) :=
  Some (buffer, voices).

Definition stoppedProcessor : AudioPluginAudioProcessor.t unit :=
  AudioPluginAudioProcessor.mk defaultParameters
    (AudioPluginAudioProcessor.synth (AudioPluginAudioProcessor.init tt))
    F64.zero tt.

Definition buffer : AudioBuffer :=
  [ [F32.of_Z 1; F32.of_Z 2; F32.of_Z 3];
    [F32.of_Z 4; F32.of_Z 5; F32.of_Z 6] ].

(** A voice to which the synthesiser has given note 69 on channel 1. *)
Definition assignedVoice : AntiAliasedVoice.t :=
  AntiAliasedVoice.set_base (SynthesiserVoice.mk d44100 69 1 true)
    AntiAliasedVoice.init.

(** That voice after [startNote (69, 0.8f)]. *)
Definition playingVoice : AntiAliasedVoice.t :=
  AntiAliasedVoice.startNote defaultParameters 69 (F32.of_decimal 8 10)
    assignedVoice.

(** A voice as the constructor's [addVoice] leaves it. *)
Definition addedVoice : AntiAliasedVoice.t :=
  AntiAliasedVoice.set_base
    (SynthesiserVoice.setCurrentPlaybackSampleRate F64.zero
       (AntiAliasedVoice.base AntiAliasedVoice.init))
    AntiAliasedVoice.init.

(** A voice whose sample rate is 0. *)
Definition voiceWithoutRate : AntiAliasedVoice.t :=
  AntiAliasedVoice.set_base (SynthesiserVoice.mk F64.zero 69 1 true)
    AntiAliasedVoice.init.

(** A voice with its active flag up and a note playing whose sample rate
    is 0. *)
Definition activeVoiceWithoutRate : AntiAliasedVoice.t :=
  AntiAliasedVoice.set_isActive true voiceWithoutRate.

Definition d8000 : double := Eval vm_compute in F64.of_Z 8000.
Definition d48000 : double := Eval vm_compute in F64.of_Z 48000.
Definition d96000 : double := Eval vm_compute in F64.of_Z 96000.
Definition d384000 : double := Eval vm_compute in F64.of_Z 384000.

(** A run of the pulse oscillator's interface. *)
Definition calls : list Design.PulseCall :=
  [ Design.CallSetFrequency f440 d44100;
    Design.CallSetPulseWidth f0_99;
    Design.CallGetNextSample;
    Design.CallGetNextSample;
    Design.CallReset;
    Design.CallSetFrequency (F32.of_Z 880) F64.zero;
    Design.CallSetFrequency (F32.of_Z 880) d44100;
    Design.CallGetNextSample ].

(** A run of a voice: the synthesiser assigns note 69, the note starts, a
    block is rendered, the note stops and another block is asked for. *)
Definition voiceCalls : list Design.VoiceCall :=
  [ Design.CallSetBase (SynthesiserVoice.mk d44100 69 1 true);
    Design.CallStartNote defaultParameters 69 (F32.of_decimal 8 10);
    Design.CallRenderNextBlock defaultParameters buffer 0 3;
    Design.CallStopNote F32.zero true;
    Design.CallRenderNextBlock defaultParameters buffer 0 3 ].

(** A stand-in for the sine whose values are within [-1, 1]: the square
    wave of the argument's sign. *)
Definition squareOfSign (x : float) : float :=
  match x with
  | S754_finite false _ _ => F32.one
  | S754_finite true _ _ => fm1
  | _ => x
  end.

(** The library above with that sine. *)
Definition boundedLibrary : Library := {|
  sinf := squareOfSign;
  pow := pow01;
  decibelsToGain := fun _ => F32.one;
  IIRCoefficients := double;
  IIRFilter := double * float;
  IIRFilter_new := (F64.zero, F32.zero);
  makeLowPass := fun _ frequency => frequency;
  setCoefficients := fun c f => (c, snd f);
  IIRFilter_reset := fun f => (fst f, F32.zero);
  processSingleSampleRaw := fun x f => (x, (fst f, x))
|}.

End Example.

(** ** The editor's layout ([PluginEditor.cpp])

    [resized] cuts the editor's bounds up with [juce::Rectangle<int>].  The
    members of that class that it calls are library code, written out
    here: [removeFromTop] and [removeFromLeft] return the strip and leave
    the rest in the rectangle, so both are results here. *)
Module Rectangle.

Record t : Type := mk { x : Z; y : Z; w : Z; h : Z }.

(** [const Rectangle r (pos.x, pos.y, w, jmin (amountToRemove, h));
     pos.y += r.h; h -= r.h; return r;] *)
Definition removeFromTop (amountToRemove : Z) (r : t) : t * t :=
  let strip := mk (x r) (y r) (w r) (Z.min amountToRemove (h r)) in
  (strip, mk (x r) (y r + h strip) (w r) (h r - h strip)).

(** [const Rectangle r (pos.x, pos.y, jmin (amountToRemove, w), h);
     pos.x += r.w; w -= r.w; return r;] *)
Definition removeFromLeft (amountToRemove : Z) (r : t) : t * t :=
  let strip := mk (x r) (y r) (Z.min amountToRemove (w r)) (h r) in
  (strip, mk (x r + w strip) (y r) (w r - w strip) (h r)).

(** [expanded (deltaX, deltaY)]:
    [{ pos.x - deltaX, pos.y - deltaY,
       jmax (0, w + deltaX * 2), jmax (0, h + deltaY * 2) }]. *)
Definition expanded (deltaX deltaY : Z) (r : t) : t :=
  mk (x r - deltaX) (y r - deltaY) (Z.max 0 (w r + deltaX * 2))
     (Z.max 0 (h r + deltaY * 2)).

(** [reduced (delta)] is [expanded (-delta, -delta)]. *)
Definition reduced (delta : Z) (r : t) : t := expanded (- delta) (- delta) r.

(** [contains (point)]: [point.x >= pos.x && point.y >= pos.y
    && point.x < pos.x + w && point.y < pos.y + h]. *)
Definition contains (px py : Z) (r : t) : bool :=
  (x r <=? px) && (y r <=? py) && (px <? x r + w r) && (py <? y r + h r).

(** Every point of [a] is a point of [b]; no point is in both. *)
Definition inside (a b : t) : Prop :=
  forall px py : Z, contains px py a = true -> contains px py b = true.

Definition apart (a b : t) : Prop :=
  forall px py : Z,
    contains px py a = true -> contains px py b = true -> False.

End Rectangle.

Module AudioPluginAudioProcessorEditor.

(** The bounds that [resized] sets, by widget. *)
Record Bounds : Type := mkBounds {
  midiKeyboard : Rectangle.t;
  gainLabel : Rectangle.t;
  gainSlider : Rectangle.t;
  pulseWidthLabel : Rectangle.t;
  pulseWidthSlider : Rectangle.t;
  filterCutoffLabel : Rectangle.t;
  filterCutoffSlider : Rectangle.t
}.

(** [getLocalBounds()] of a component of the given size. *)
Definition getLocalBounds (width height : Z) : Rectangle.t :=
  Rectangle.mk 0 0 width height.

(** The lambda [layoutColumn]: the bounds of the label and of the
    slider. *)
Definition layoutColumn (bounds : Rectangle.t) : Rectangle.t * Rectangle.t :=
  let '(labelArea, bounds) := Rectangle.removeFromTop 24 bounds in
  (labelArea, Rectangle.reduced 10 bounds).

(** [resized], for an editor of the given size.  [int] division truncates
    ([Z.quot]). *)
Definition resized (width height : Z) : Bounds :=
  let area := Rectangle.reduced 20 (getLocalBounds width height) in
  let '(headerArea, area) := Rectangle.removeFromTop 40 area in
  let '(controlArea, area) := Rectangle.removeFromTop 110 area in
  let keyboardArea := area in
  let '(_, keyboardArea) := Rectangle.removeFromTop 10 keyboardArea in
  let columnWidth := Z.quot (Rectangle.w controlArea) 3 in
  let '(firstColumn, controlArea) :=
    Rectangle.removeFromLeft columnWidth controlArea in
  let '(gainLabel, gainSlider) := layoutColumn firstColumn in
  let '(secondColumn, controlArea) :=
    Rectangle.removeFromLeft columnWidth controlArea in
  let '(pulseWidthLabel, pulseWidthSlider) := layoutColumn secondColumn in
  let '(filterCutoffLabel, filterCutoffSlider) :=
    layoutColumn controlArea in
  mkBounds keyboardArea gainLabel gainSlider pulseWidthLabel
    pulseWidthSlider filterCutoffLabel filterCutoffSlider.

(** The size that the constructor sets. *)
Definition initialWidth : Z := 360.
Definition initialHeight : Z := 220.

(** The widgets that [resized] places. *)
Definition widgets (b : Bounds) : list Rectangle.t :=
  [ midiKeyboard b; gainLabel b; gainSlider b; pulseWidthLabel b;
    pulseWidthSlider b; filterCutoffLabel b; filterCutoffSlider b ].

End AudioPluginAudioProcessorEditor.

(** * Properties *)

(** ** Signs and comparisons of [spec_float] *)

Section FloatFacts.
Variables prec emax : Z.

Lemma binary_round_aux_negb s m e l :
binary_round_aux prec emax (negb s) m e l
= SFopp (binary_round_aux prec emax s m e l).
Proof.
unfold binary_round_aux.
destruct (shr_fexp prec emax m e l) as [mrs' e'].
destruct (shr_fexp prec emax _ e' loc_Exact) as [mrs'' e''].
destruct (shr_m mrs''); try reflexivity.
destruct (e'' <=? emax - prec); reflexivity.
Qed.

(** Negating a factor negates the rounded product. *)
Lemma SFmul_opp_l x y :
SFmul prec emax (SFopp x) y = SFopp (SFmul prec emax x y).
Proof.
destruct x as [sx|sx| |sx mx ex], y as [sy|sy| |sy my ey]; simpl;
  try reflexivity; try (destruct sx, sy; reflexivity).
rewrite <- binary_round_aux_negb. destruct sx, sy; reflexivity.
Qed.

(** Adding the opposite is subtracting. *)
Lemma SFadd_opp_r x y :
SFadd prec emax x (SFopp y) = SFsub prec emax x y.
Proof.
destruct x as [sx|sx| |sx mx ex], y as [sy|sy| |sy my ey]; simpl;
  try reflexivity; destruct sx, sy; reflexivity.
Qed.
End FloatFacts.

Lemma SFcompare_antisym x y :
  SFcompare y x = option_map CompOpp (SFcompare x y).
Proof.
  destruct x as [sx|sx| |sx mx ex], y as [sy|sy| |sy my ey]; simpl;
    try reflexivity; try (destruct sx; reflexivity);
    try (destruct sy; reflexivity); try (destruct sx, sy; reflexivity).
  assert (Hm : Pos.compare_cont Eq my mx
               = CompOpp (Pos.compare_cont Eq mx my))
    by (symmetry; apply (Pos.compare_cont_antisym mx my Eq)).
  rewrite (Z.compare_antisym ex ey), Hm.
  destruct sx, sy; simpl; try reflexivity;
    destruct (ex ?= ey); simpl; reflexivity.
Qed.

Lemma SFcompare_refl x : F32.is_nan x = false -> SFcompare x x = Some Eq.
Proof.
  destruct x as [s|s| |s m e]; simpl; try discriminate; intros _;
    try (destruct s; reflexivity).
  rewrite Z.compare_refl, Pos.compare_cont_refl. destruct s; reflexivity.
Qed.

Lemma SFcompare_nan_l x : SFcompare S754_nan x = None.
Proof. reflexivity. Qed.

Lemma SFcompare_nan_r x : SFcompare x S754_nan = None.
Proof. destruct x; reflexivity. Qed.

Lemma SFcompare_some x y :
  F32.is_nan x = false -> F32.is_nan y = false ->
  exists c, SFcompare x y = Some c.
Proof.
  destruct x, y; simpl; try discriminate; intros _ _; eexists; reflexivity.
Qed.

(** On numbers, [x < y] failing means [y <= x]. *)
Lemma ltb_false_leb x y :
  F32.is_nan x = false -> F32.is_nan y = false ->
  F32.ltb x y = false -> F32.leb y x = true.
Proof.
  intros Hx Hy. unfold F32.ltb, F32.leb, SFltb, SFleb.
  rewrite (SFcompare_antisym x y).
  destruct (SFcompare_some x y Hx Hy) as [c ->]. destruct c; simpl; congruence.
Qed.

Lemma leb_refl x : F32.is_nan x = false -> F32.leb x x = true.
Proof.
  intros Hx. unfold F32.leb, SFleb. now rewrite SFcompare_refl.
Qed.

(** ** The range helpers *)

(** [jlimit] hands NaN through. *)
Lemma jlimit_nan lo hi : jlimit lo hi S754_nan = S754_nan.
Proof.
  unfold jlimit, F32.ltb, SFltb. now rewrite SFcompare_nan_r.
Qed.

(** On a number, and between two ordered numbers, [jlimit] stays within
    the limits. *)
Lemma jlimit_within lo hi x :
  F32.is_nan lo = false -> F32.is_nan hi = false -> F32.leb lo hi = true ->
  F32.is_nan x = false ->
  Design.within lo hi (jlimit lo hi x) = true.
Proof.
  intros Hlo Hhi Hle Hx. unfold Design.within, jlimit.
  destruct (F32.ltb x lo) eqn:E1.
  - now rewrite leb_refl, Hle.
  - destruct (F32.ltb hi x) eqn:E2.
    + now rewrite Hle, leb_refl.
    + now rewrite (ltb_false_leb x lo), (ltb_false_leb hi x).
Qed.

(** A value within two numbers is a number. *)
Lemma within_not_nan lo hi x :
  Design.within lo hi x = true -> F32.is_nan x = false.
Proof.
  destruct x; try reflexivity. unfold Design.within, F32.leb, SFleb.
  now rewrite SFcompare_nan_r.
Qed.

Module Saw := AntiAliasedSawOscillator.
Module Pulse := AntiAliasedPulseOscillator.
Module Voice := AntiAliasedVoice.
Module Processor := AudioPluginAudioProcessor.

(** ** Arithmetic on phases

    What the oscillators need of [float] addition and subtraction: two
    numbers from 0 up to but not 1 add up to a number below 2, and such a
    number from 1 on, less 1, is below 1 again. *)

(** *** One subtraction of 1 *)

(** The binary digits of a positive number bracket it. *)
Lemma digits2_pos_bounds (p : positive) :
  2 ^ (Z.pos (digits2_pos p) - 1) <= Z.pos p < 2 ^ Z.pos (digits2_pos p).
Proof.
  induction p as [p IH|p IH|]; cbn [digits2_pos].
  - rewrite Pos2Z.inj_succ.
    replace (Z.succ (Z.pos (digits2_pos p)) - 1) with (Z.pos (digits2_pos p))
      by lia.
    rewrite Z.pow_succ_r by lia.
    assert (H : 2 ^ Z.pos (digits2_pos p)
                = 2 * 2 ^ (Z.pos (digits2_pos p) - 1)).
    { rewrite <- Z.pow_succ_r by lia. f_equal. lia. }
    lia.
  - rewrite Pos2Z.inj_succ.
    replace (Z.succ (Z.pos (digits2_pos p)) - 1) with (Z.pos (digits2_pos p))
      by lia.
    rewrite Z.pow_succ_r by lia.
    assert (H : 2 ^ Z.pos (digits2_pos p)
                = 2 * 2 ^ (Z.pos (digits2_pos p) - 1)).
    { rewrite <- Z.pow_succ_r by lia. f_equal. lia. }
    lia.
  - cbn. lia.
Qed.

(** Conversely a bracket by powers of two gives the digits. *)
Lemma digits2_pos_unique (p : positive) (d : Z) :
  2 ^ (d - 1) <= Z.pos p < 2 ^ d -> 0 < d -> Z.pos (digits2_pos p) = d.
Proof.
  intros [Hlo Hhi] Hd. pose proof (digits2_pos_bounds p) as [Blo Bhi].
  destruct (Z.lt_trichotomy (Z.pos (digits2_pos p)) d) as [H|[H|H]];
    [|exact H|].
  - assert (2 ^ Z.pos (digits2_pos p) <= 2 ^ (d - 1))
      by (apply Z.pow_le_mono_r; lia).
    lia.
  - assert (2 ^ d <= 2 ^ (Z.pos (digits2_pos p) - 1))
      by (apply Z.pow_le_mono_r; lia).
    lia.
Qed.

Lemma digits2_pos_iter_xO (k : positive) (p : positive) :
  Z.pos (digits2_pos (Pos.iter xO p k))
  = Z.pos (digits2_pos p) + Z.pos k.
Proof.
  revert p. induction k as [|k IH] using Pos.peano_ind; intros p.
  - cbn [Pos.iter digits2_pos]. lia.
  - rewrite Pos.iter_succ. cbn [digits2_pos].
    rewrite Pos2Z.inj_succ, IH. lia.
Qed.

(** A valid [float] from 1 up to but not 2 has exponent -23 and a mantissa
    of 24 digits. *)
Lemma between_one_and_two (s : bool) (m : positive) (e : Z) :
  F32.valid (S754_finite s m e) = true ->
  (S754_finite s m e >=? F32.one)%f32 = true ->
  (S754_finite s m e <? f2)%f32 = true ->
  s = false /\ e = -23 /\ 2 ^ 23 <= Z.pos m < 2 ^ 24.
Proof.
  unfold F32.valid, valid_binary, bounded, canonical_mantissa, fexp, emin,
    F32.geb, F32.leb, F32.ltb, SFleb, SFltb, F32.one, f2, F32.prec, F32.emax.
  cbn [SFcompare]. intros Hvalid Hge Hlt.
  apply andb_true_iff in Hvalid. destruct Hvalid as [Hcanon _].
  apply Z.eqb_eq in Hcanon.
  pose proof (digits2_pos_bounds m) as Hdigits.
  destruct s; [discriminate|].
  destruct (Z.compare_spec (-23) e) as [He|He|He]; try discriminate.
  - subst e. assert (Hd : Z.pos (digits2_pos m) = 24) by lia.
    rewrite Hd in Hdigits. repeat split; lia.
  - destruct (Z.compare_spec e (-22)) as [He2|He2|He2]; try discriminate;
      try lia.
    subst e. assert (Hd : Z.pos (digits2_pos m) = 24) by lia.
    rewrite Hd in Hdigits.
    change (2 ^ (24 - 1)) with (Z.pos 8388608) in Hdigits.
    rewrite Pos.compare_cont_spec in Hlt. cbn [Pos.switch_Eq] in Hlt.
    destruct (Pos.compare_spec m 8388608) as [Hm|Hm|Hm]; try discriminate.
    apply Pos2Z.pos_lt_pos in Hm. lia.
Qed.

(** A mantissa of 24 digits at an exponent from -149 on is already in
    place: rounding has nothing to shift. *)
Lemma shr_fexp_in_place (m : positive) (e : Z) :
  Z.pos (digits2_pos m) = 24 -> -149 <= e ->
  shr_fexp F32.prec F32.emax (Z.pos m) e loc_Exact
  = (Build_shr_record (Z.pos m) false false, e).
Proof.
  intros Hd He. unfold shr_fexp, fexp, emin, F32.prec, F32.emax.
  cbn [Zdigits2 shr_record_of_loc]. rewrite Hd.
  assert (E : Z.max (24 + e - 24) (3 - 128 - 24) - e = 0) by lia.
  rewrite E. reflexivity.
Qed.

Lemma binary_round_aux_in_place (s : bool) (m : positive) (e : Z) :
  Z.pos (digits2_pos m) = 24 -> -149 <= e <= 104 ->
  binary_round_aux F32.prec F32.emax s (Z.pos m) e loc_Exact
  = S754_finite s m e.
Proof.
  intros Hd He. unfold binary_round_aux.
  rewrite (shr_fexp_in_place m e Hd) by lia.
  cbn [shr_m loc_of_shr_record round_nearest_even].
  rewrite (shr_fexp_in_place m e Hd) by lia.
  cbn [shr_m]. unfold F32.emax, F32.prec.
  replace (e <=? 128 - 24) with true by (symmetry; apply Z.leb_le; lia).
  reflexivity.
Qed.

(** A positive integer below [2^23], at exponent -23, normalises to a
    24-digit mantissa at an exponent under -23. *)
Lemma binary_normalize_below_one (p : positive) :
  Z.pos p < 2 ^ 23 ->
  exists (m : positive) (e : Z),
    binary_normalize F32.prec F32.emax (Z.pos p) (-23) false
    = S754_finite false m e
    /\ Z.pos (digits2_pos m) = 24 /\ -149 <= e < -23.
Proof.
  intros Hp. pose proof (digits2_pos_bounds p) as Hd.
  assert (Hd23 : Z.pos (digits2_pos p) <= 23).
  { destruct (Z_le_gt_dec (Z.pos (digits2_pos p)) 23) as [H|H]; [exact H|].
    assert (2 ^ 23 <= 2 ^ (Z.pos (digits2_pos p) - 1))
      by (apply Z.pow_le_mono_r; lia).
    lia. }
  set (k := Z.to_pos (24 - Z.pos (digits2_pos p))).
  assert (Hk : Z.pos k = 24 - Z.pos (digits2_pos p))
    by (unfold k; rewrite Z2Pos.id; lia).
  exists (Pos.iter xO p k), (-23 - Z.pos k).
  split; [|split].
  - cbn [binary_normalize]. unfold binary_round.
    assert (E : fexp F32.prec F32.emax (Z.pos (digits2_pos p) + -23)
                = -23 - Z.pos k).
    { unfold fexp, emin, F32.prec, F32.emax. lia. }
    rewrite E. unfold shl_align.
    assert (E2 : -23 - Z.pos k - -23 = Z.neg k) by lia.
    rewrite E2.
    apply binary_round_aux_in_place; [|lia].
    rewrite digits2_pos_iter_xO. lia.
  - rewrite digits2_pos_iter_xO. lia.
  - lia.
Qed.

(** Such a [float] less 1 is a [float] from 0 up to but not 1. *)
Lemma sub_one_below_one (x : float) :
  F32.valid x = true -> (x >=? F32.one)%f32 = true ->
  (x <? f2)%f32 = true ->
  Design.nonneg (x - F32.one)%f32 = true
  /\ (x - F32.one <? F32.one)%f32 = true
  /\ (x - F32.one >=? F32.one)%f32 = false.
Proof.
  intros Hvalid Hge Hlt. destruct x as [s|s| |s m e].
  - discriminate.
  - destruct s; discriminate.
  - discriminate.
  - destruct (between_one_and_two s m e Hvalid Hge Hlt) as (-> & -> & Hm).
    unfold F32.sub, SFsub, F32.one.
    change (Z.min (-23) (-23)) with (-23).
    change (shl_align m (-23) (-23)) with (m, -23).
    change (shl_align 8388608 (-23) (-23)) with (8388608%positive, -23).
    cbn [fst cond_Zopp].
    destruct (Z.eq_dec (Z.pos m) (2 ^ 23)) as [E|E].
    + replace (Z.pos m - 8388608) with 0
        by (change (2 ^ 23) with 8388608 in E; lia).
      repeat split.
    + destruct (binary_normalize_below_one (Z.to_pos (Z.pos m - 8388608)))
        as (m' & e' & Hn & Hd & He).
      { rewrite Z2Pos.id; change (2 ^ 23) with 8388608 in *;
          change (2 ^ 24) with 16777216 in *; lia. }
      rewrite Z2Pos.id in Hn
        by (change (2 ^ 23) with 8388608 in *; lia).
      rewrite Hn. unfold Design.nonneg, F32.valid, valid_binary, bounded,
        canonical_mantissa, fexp, emin, F32.prec, F32.emax,
        F32.geb, F32.leb, F32.ltb, SFleb, SFltb.
      cbn [SFcompare]. rewrite Hd. repeat split.
      * rewrite andb_true_r.
        apply andb_true_iff. split; [apply Z.eqb_eq|apply Z.leb_le]; lia.
      * destruct (Z.compare_spec e' (-23)); try reflexivity; lia.
      * destruct (Z.compare_spec (-23) e'); try reflexivity; lia.
Qed.

(** *** Values in units of the smallest [float] *)

(** What validity says of a finite [float]. *)
Lemma valid_finite (s : bool) (m : positive) (e : Z) :
  F32.valid (S754_finite s m e) = true ->
  -149 <= e <= 104 /\ Z.pos (digits2_pos m) <= 24
  /\ (e = -149 \/ Z.pos (digits2_pos m) = 24).
Proof.
  unfold F32.valid, valid_binary, bounded, canonical_mantissa, fexp, emin,
    F32.prec, F32.emax.
  intros H. apply andb_true_iff in H. destruct H as [Hc Hb].
  apply Z.eqb_eq in Hc. apply Z.leb_le in Hb. lia.
Qed.

Lemma pow2_pos (k : Z) : 0 <= k -> 0 < 2 ^ k.
Proof. intros H. apply Z.pow_pos_nonneg; lia. Qed.

(** The bracket of a valid finite [float] in units. *)
Lemma units_bounds (s : bool) (m : positive) (e : Z) :
  F32.valid (S754_finite s m e) = true ->
  2 ^ (Z.pos (digits2_pos m) - 1 + (e + 149))
  <= Design.units (S754_finite s m e)
  < 2 ^ (Z.pos (digits2_pos m) + (e + 149)).
Proof.
  intros H. destruct (valid_finite s m e H) as (He & Hd & _).
  pose proof (digits2_pos_bounds m) as [Hlo Hhi].
  cbn [Design.units].
  rewrite (Z.pow_add_r 2 (Z.pos (digits2_pos m) - 1) (e + 149)) by lia.
  rewrite (Z.pow_add_r 2 (Z.pos (digits2_pos m)) (e + 149)) by lia.
  pose proof (pow2_pos (e + 149)). nia.
Qed.

(** On non-negative valid floats the comparison is that of the units. *)
Lemma SFcompare_units (x y : float) :
  Design.nonneg x = true -> Design.nonneg y = true ->
  SFcompare x y = Some (Design.units x ?= Design.units y).
Proof.
  unfold Design.nonneg. intros Hx Hy.
  apply andb_true_iff in Hx. destruct Hx as [Vx Sx].
  apply andb_true_iff in Hy. destruct Hy as [Vy Sy].
  destruct x as [sx|sx| |sx mx ex]; try discriminate;
    destruct y as [sy|sy| |sy my ey]; try discriminate.
  - reflexivity.
  - destruct sy; [discriminate|]. cbn [SFcompare Design.units].
    pose proof (units_bounds false my ey Vy) as [Hlo _].
    destruct (valid_finite false my ey Vy) as (He & _ & _).
    pose proof (pow2_pos (Z.pos (digits2_pos my) - 1 + (ey + 149))).
    cbn [Design.units] in Hlo. symmetry. f_equal. apply Z.compare_lt_iff. lia.
  - destruct sx; [discriminate|]. cbn [SFcompare Design.units].
    pose proof (units_bounds false mx ex Vx) as [Hlo _].
    destruct (valid_finite false mx ex Vx) as (He & _ & _).
    pose proof (pow2_pos (Z.pos (digits2_pos mx) - 1 + (ex + 149))).
    cbn [Design.units] in Hlo. symmetry. f_equal. apply Z.compare_gt_iff. lia.
  - destruct sx, sy; try discriminate. cbn [SFcompare]. f_equal.
    pose proof (units_bounds false mx ex Vx) as [Lx Ux].
    pose proof (units_bounds false my ey Vy) as [Ly Uy].
    destruct (valid_finite false mx ex Vx) as (Hex & Hdx & Cx).
    destruct (valid_finite false my ey Vy) as (Hey & Hdy & Cy).
    destruct (Z.compare_spec ex ey) as [E|E|E].
    + subst ey. cbn [Design.units]. rewrite Pos.compare_cont_spec.
      cbn [Pos.switch_Eq]. pose proof (pow2_pos (ex + 149)).
      destruct (Pos.compare_spec mx my) as [Hm|Hm|Hm]; symmetry.
      * subst my. apply Z.compare_refl.
      * apply Z.compare_lt_iff. apply Pos2Z.pos_lt_pos in Hm. nia.
      * apply Z.compare_gt_iff. apply Pos2Z.pos_lt_pos in Hm. nia.
    + symmetry. apply Z.compare_lt_iff.
      assert (Hd : Z.pos (digits2_pos my) = 24) by lia.
      rewrite Hd in Ly.
      assert (2 ^ (Z.pos (digits2_pos mx) + (ex + 149))
              <= 2 ^ (24 - 1 + (ey + 149)))
        by (apply Z.pow_le_mono_r; lia).
      lia.
    + symmetry. apply Z.compare_gt_iff.
      assert (Hd : Z.pos (digits2_pos mx) = 24) by lia.
      rewrite Hd in Lx.
      assert (2 ^ (Z.pos (digits2_pos my) + (ey + 149))
              <= 2 ^ (24 - 1 + (ex + 149)))
        by (apply Z.pow_le_mono_r; lia).
      lia.
Qed.

(** *** Shifting a mantissa right *)

Lemma iter_pos_nat {A : Type} (f : A -> A) (n : positive) : forall x : A,
  iter_pos f n x = Nat.iter (Pos.to_nat n) f x.
Proof.
  induction n as [n IH|n IH|]; intros x; cbn [iter_pos].
  - rewrite !IH, Pos2Nat.inj_xI, <- Nat.iter_succ_r.
    rewrite <- Nat.iter_add. f_equal. lia.
  - rewrite !IH, Pos2Nat.inj_xO, <- Nat.iter_add. f_equal. lia.
  - reflexivity.
Qed.

(** One step halves a non-negative mantissa, keeps the bit that falls off
    and remembers whether any bit fell off before. *)
Lemma shr_1_spec (m : Z) (r s : bool) :
  0 <= m ->
  shr_1 (Build_shr_record m r s)
  = Build_shr_record (m / 2) (Z.odd m) (r || s).
Proof.
  intros Hm. destruct m as [|p|p]; [reflexivity| |lia].
  destruct p as [p|p|]; cbn [shr_1].
  - f_equal. rewrite Pos2Z.inj_xI. apply (Z.div_unique _ _ _ 1); lia.
  - f_equal. rewrite Pos2Z.inj_xO. apply (Z.div_unique _ _ _ 0); lia.
  - reflexivity.
Qed.

(** After [k] steps the mantissa is divided by [2^k], and nothing is
    remembered unless the division left a remainder. *)
Lemma shr_steps (m : Z) (k : nat) :
  0 <= m ->
  let mrs := Nat.iter k shr_1 (Build_shr_record m false false) in
  shr_m mrs = m / 2 ^ Z.of_nat k
  /\ (m mod 2 ^ Z.of_nat k = 0 -> shr_r mrs = false /\ shr_s mrs = false).
Proof.
  intros Hm. cbv zeta. induction k as [|k IH].
  - cbn. rewrite Z.div_1_r. auto.
  - rewrite Nat.iter_succ. destruct (Nat.iter k shr_1 _) as [mk rk sk] eqn:E.
    cbn [shr_m shr_r shr_s] in IH. destruct IH as [IHm IHrs].
    assert (Hk : 0 < 2 ^ Z.of_nat k) by (apply pow2_pos; lia).
    assert (Hmk : 0 <= mk) by (rewrite IHm; apply Z.div_pos; lia).
    rewrite shr_1_spec by exact Hmk. cbn [shr_m shr_r shr_s].
    rewrite Nat2Z.inj_succ, Z.pow_succ_r by lia.
    split.
    + rewrite IHm, Z.div_div by lia. f_equal. lia.
    + intros Hmod.
      assert (Hdiv : m = 2 ^ Z.of_nat k * (2 * (m / (2 * 2 ^ Z.of_nat k)))).
      { pose proof (Z.div_mod m (2 * 2 ^ Z.of_nat k)). lia. }
      assert (Hmod0 : m mod 2 ^ Z.of_nat k = 0).
      { rewrite Hdiv, Z.mul_comm. apply Z.mod_mul. lia. }
      destruct (IHrs Hmod0) as [-> ->]. split; [|reflexivity].
      rewrite IHm. rewrite Hdiv at 1.
      rewrite Z.mul_comm, Z.div_mul by lia.
      rewrite Z.odd_mul. reflexivity.
Qed.

(** *** Rounding a sum *)

Lemma pos_iter_xO_value (k p : positive) :
  Z.pos (Pos.iter xO p k) = Z.pos p * 2 ^ Z.pos k.
Proof.
  induction k as [|k IH] using Pos.peano_ind.
  - cbn [Pos.iter]. rewrite Pos2Z.inj_xO. change (2 ^ 1) with 2. lia.
  - rewrite Pos.iter_succ, Pos2Z.inj_xO, IH, Pos2Z.inj_succ.
    rewrite Z.pow_succ_r by lia. lia.
Qed.

(** A mantissa that sits at its own exponent is left in place. *)
Lemma shr_fexp_canonical (m : positive) (e : Z) :
  fexp F32.prec F32.emax (Z.pos (digits2_pos m) + e) = e ->
  shr_fexp F32.prec F32.emax (Z.pos m) e loc_Exact
  = (Build_shr_record (Z.pos m) false false, e).
Proof.
  intros H. unfold shr_fexp. cbn [Zdigits2 shr_record_of_loc].
  rewrite H, Z.sub_diag. reflexivity.
Qed.

Lemma binary_round_aux_canonical (m : positive) (e : Z) :
  fexp F32.prec F32.emax (Z.pos (digits2_pos m) + e) = e -> e <= 104 ->
  binary_round_aux F32.prec F32.emax false (Z.pos m) e loc_Exact
  = S754_finite false m e
  /\ Design.nonneg (S754_finite false m e) = true.
Proof.
  intros Hc He. split.
  - unfold binary_round_aux. rewrite (shr_fexp_canonical m e Hc).
    cbn [shr_m loc_of_shr_record round_nearest_even].
    rewrite (shr_fexp_canonical m e Hc). cbn [shr_m].
    unfold F32.emax, F32.prec.
    replace (e <=? 128 - 24) with true by (symmetry; apply Z.leb_le; lia).
    reflexivity.
  - unfold Design.nonneg, F32.valid, valid_binary, bounded,
      canonical_mantissa.
    rewrite Hc, Z.eqb_refl. unfold F32.emax, F32.prec.
    replace (e <=? 128 - 24) with true by (symmetry; apply Z.leb_le; lia).
    reflexivity.
Qed.

Lemma round_nearest_even_range (mrs : shr_record) :
  let m1 := round_nearest_even (shr_m mrs) (loc_of_shr_record mrs) in
  (m1 = shr_m mrs \/ m1 = shr_m mrs + 1)
  /\ (shr_r mrs = false -> shr_s mrs = false -> m1 = shr_m mrs).
Proof.
  destruct mrs as [m [|] [|]]; cbn; destruct (Z.even m); auto;
    split; auto; discriminate.
Qed.

(** The last step of rounding, on a mantissa of 24 digits or on [2^24],
    to which a mantissa of 24 ones rounds up. *)
Lemma binary_round_aux_finish (m1 e1 : Z) :
  2 ^ 23 <= m1 <= 2 ^ 24 -> -149 < e1 <= 100 ->
  let r :=
    let '(mrs, e2) := shr_fexp F32.prec F32.emax m1 e1 loc_Exact in
    match shr_m mrs with
    | Z0 => S754_zero false
    | Z.pos m =>
        if e2 <=? F32.emax - F32.prec then S754_finite false m e2
        else S754_infinity false
    | Z.neg _ => S754_nan
    end in
  Design.nonneg r = true /\ Design.units r = m1 * 2 ^ (e1 + 149).
Proof.
  intros Hm He. cbv zeta.
  destruct (Z.eq_dec m1 (2 ^ 24)) as [E|E].
  - subst m1. change (2 ^ 24) with (Z.pos 16777216).
    unfold shr_fexp. cbn [Zdigits2 shr_record_of_loc].
    change (Z.pos (digits2_pos 16777216)) with 25.
    assert (E1 : fexp F32.prec F32.emax (25 + e1) - e1 = 1)
      by (unfold fexp, emin, F32.prec, F32.emax; lia).
    rewrite E1. cbn [shr iter_pos shr_1 shr_m].
    unfold F32.emax, F32.prec.
    replace (e1 + 1 <=? 128 - 24) with true
      by (symmetry; apply Z.leb_le; lia).
    split.
    + unfold Design.nonneg, F32.valid, valid_binary, bounded,
        canonical_mantissa, fexp, emin, F32.prec, F32.emax.
      change (Z.pos (digits2_pos 8388608)) with 24.
      apply andb_true_iff. split; [|reflexivity].
      apply andb_true_iff. split; [apply Z.eqb_eq|apply Z.leb_le]; lia.
    + cbn [Design.units].
      replace (e1 + 1 + 149) with (Z.succ (e1 + 149)) by lia.
      rewrite Z.pow_succ_r by lia. lia.
  - change (2 ^ 23) with 8388608 in Hm. change (2 ^ 24) with 16777216 in *.
    destruct m1 as [|mp|mp]; try lia.
    assert (Hd : Z.pos (digits2_pos mp) = 24)
      by (apply digits2_pos_unique;
          [change (2 ^ (24 - 1)) with 8388608;
           change (2 ^ 24) with 16777216|]; lia).
    assert (Hc : fexp F32.prec F32.emax (Z.pos (digits2_pos mp) + e1) = e1)
      by (rewrite Hd; unfold fexp, emin, F32.prec, F32.emax; lia).
    rewrite (shr_fexp_canonical mp e1 Hc). cbn [shr_m].
    unfold F32.emax, F32.prec.
    replace (e1 <=? 128 - 24) with true by (symmetry; apply Z.leb_le; lia).
    split; [|reflexivity].
    unfold Design.nonneg, F32.valid, valid_binary, bounded,
      canonical_mantissa.
    rewrite Hc, Z.eqb_refl. unfold F32.emax, F32.prec.
    replace (e1 <=? 128 - 24) with true by (symmetry; apply Z.leb_le; lia).
    reflexivity.
Qed.

(** Rounding a positive integer [p] at exponent [e] does not pass a bound
    [K] on its value that lies on the grid of the result. *)
Lemma binary_round_bound (p : positive) (e K c : Z) :
  -149 <= e -> Z.pos (digits2_pos p) + e <= 100 ->
  Z.pos p * 2 ^ (e + 149) <= K ->
  K = c * 2 ^ (fexp F32.prec F32.emax (Z.pos (digits2_pos p) + e) + 149) ->
  Design.nonneg (binary_round F32.prec F32.emax false p e) = true
  /\ Design.units (binary_round F32.prec F32.emax false p e) <= K.
Proof.
  intros He Hd HK Hgrid.
  set (d := Z.pos (digits2_pos p)) in *.
  set (e1 := fexp F32.prec F32.emax (d + e)) in *.
  assert (He1 : e1 = Z.max (d + e - 24) (-149)) by reflexivity.
  assert (Hd1 : 1 <= d) by (unfold d; lia).
  pose proof (digits2_pos_bounds p) as [Plo Phi]. fold d in Plo, Phi.
  unfold binary_round. fold d. fold e1. unfold shl_align.
  destruct (Z.compare_spec e1 e) as [E|E|E].
  - (* the mantissa is in place *)
    rewrite E, Z.sub_diag.
    destruct (binary_round_aux_canonical p e) as [-> Hn];
      [fold d; fold e1; exact E|lia|].
    split; [exact Hn|]. cbn [Design.units]. lia.
  - (* the mantissa moves left, exactly *)
    set (k := Z.to_pos (e - e1)).
    assert (Hk : Z.pos k = e - e1) by (unfold k; rewrite Z2Pos.id; lia).
    assert (E2 : e1 - e = Z.neg k) by lia.
    rewrite E2.
    assert (Hdk : Z.pos (digits2_pos (Pos.iter xO p k)) = d + Z.pos k)
      by (apply digits2_pos_iter_xO).
    destruct (binary_round_aux_canonical (Pos.iter xO p k) e1) as [-> Hn].
    + rewrite Hdk. replace (d + Z.pos k + e1) with (d + e) by lia.
      reflexivity.
    + lia.
    + split; [exact Hn|]. cbn [Design.units].
      rewrite pos_iter_xO_value, Hk.
      replace (e + 149) with ((e - e1) + (e1 + 149)) in HK by lia.
      rewrite Z.pow_add_r in HK by lia. lia.
  - (* the mantissa moves right and is rounded *)
    assert (Hd24 : e1 = d + e - 24 /\ 24 < d) by lia.
    destruct Hd24 as [He1' Hd24].
    set (n := Z.to_pos (e1 - e)).
    assert (Hn : Z.pos n = e1 - e) by (unfold n; rewrite Z2Pos.id; lia).
    rewrite <- Hn. unfold binary_round_aux, shr_fexp.
    cbn [Zdigits2 shr_record_of_loc]. fold d. fold e1. rewrite <- Hn.
    cbn [shr]. rewrite iter_pos_nat.
    pose proof (shr_steps (Z.pos p) (Pos.to_nat n) ltac:(lia)) as Hsteps.
    cbv zeta in Hsteps. rewrite positive_nat_Z in Hsteps.
    destruct (Nat.iter (Pos.to_nat n) shr_1 _) as [q r s] eqn:Eq.
    cbn [shr_m shr_r shr_s] in Hsteps. destruct Hsteps as [Hq Hexact].
    pose proof (round_nearest_even_range (Build_shr_record q r s)) as Hround.
    cbv zeta in Hround. cbn [shr_m shr_r shr_s] in Hround.
    destruct Hround as [Hm1 Hsame].
    set (m1 := round_nearest_even q
                 (loc_of_shr_record (Build_shr_record q r s))) in *.
    cbn [shr_m].
    assert (H2n : 0 < 2 ^ Z.pos n) by (apply pow2_pos; lia).
    assert (Hsplit : 2 ^ d = 2 ^ 24 * 2 ^ Z.pos n)
      by (rewrite <- Z.pow_add_r by lia; f_equal; lia).
    assert (Hsplit1 : 2 ^ (d - 1) = 2 ^ 23 * 2 ^ Z.pos n)
      by (rewrite <- Z.pow_add_r by lia; f_equal; lia).
    assert (Hqlo : 2 ^ 23 <= q)
      by (rewrite Hq; apply Z.div_le_lower_bound; lia).
    assert (Hqhi : q < 2 ^ 24)
      by (rewrite Hq; apply Z.div_lt_upper_bound; lia).
    replace (e + Z.pos n) with e1 by lia.
    destruct (binary_round_aux_finish m1 e1) as [Hnn Hunits];
      [lia|lia|].
    cbv zeta in Hnn, Hunits. split; [exact Hnn|].
    eapply Z.le_trans; [apply Z.eq_le_incl; exact Hunits|].
    assert (Hg : 2 ^ (e1 + 149) = 2 ^ Z.pos n * 2 ^ (e + 149))
      by (rewrite <- Z.pow_add_r by lia; f_equal; lia).
    assert (Hge : 0 < 2 ^ (e + 149)) by (apply pow2_pos; lia).
    pose proof (Z.div_mod (Z.pos p) (2 ^ Z.pos n) ltac:(lia)) as Hdm.
    pose proof (Z.mod_pos_bound (Z.pos p) (2 ^ Z.pos n) H2n) as Hrem.
    rewrite <- Hq in Hdm.
    destruct Hm1 as [Hm1|Hm1].
    + rewrite Hm1, Hg. nia.
    + assert (Hrem0 : Z.pos p mod 2 ^ Z.pos n <> 0).
      { intros H0. destruct (Hexact H0) as [Hr Hs].
        specialize (Hsame Hr Hs). lia. }
      rewrite Hm1. rewrite Hgrid in *. fold d in HK. fold e1 in HK.
      fold d. fold e1. rewrite Hg in *.
      assert (q < c) by nia. nia.
Qed.

(** *** Every rounding gives a float *)

(** The mantissa after [k] steps, whatever was remembered before. *)
Lemma shr_steps_m (k : nat) : forall (m : Z) (r s : bool),
  0 <= m ->
  shr_m (Nat.iter k shr_1 (Build_shr_record m r s)) = m / 2 ^ Z.of_nat k.
Proof.
  induction k as [|k IH]; intros m r s Hm.
  - cbn. now rewrite Z.div_1_r.
  - rewrite Nat.iter_succ_r, shr_1_spec by exact Hm.
    rewrite IH by (apply Z.div_pos; lia).
    rewrite Nat2Z.inj_succ, Z.pow_succ_r, Z.div_div by lia.
    reflexivity.
Qed.

(** The digits of a non-negative number. *)
Lemma Zdigits2_bounds (m : Z) :
  0 < m -> 2 ^ (Zdigits2 m - 1) <= m < 2 ^ Zdigits2 m /\ 0 < Zdigits2 m.
Proof.
  destruct m as [|p|p]; try lia. intros _. cbn [Zdigits2].
  split; [apply digits2_pos_bounds|lia].
Qed.

Lemma Zdigits2_unique (m d : Z) :
  2 ^ (d - 1) <= m < 2 ^ d -> 0 < d -> Zdigits2 m = d.
Proof.
  intros H Hd. destruct m as [|p|p].
  - assert (0 < 2 ^ (d - 1)) by (apply pow2_pos; lia). lia.
  - cbn [Zdigits2]. now apply digits2_pos_unique.
  - assert (0 < 2 ^ (d - 1)) by (apply pow2_pos; lia). lia.
Qed.

(** After the first shift of a rounding the mantissa has at most 24 digits,
    and exactly 24 above the lowest exponent. *)
Lemma shr_fexp_digits (m e : Z) (l : location) :
  0 <= m -> e <= fexp F32.prec F32.emax (Zdigits2 m + e) ->
  let '(mrs, e1) := shr_fexp F32.prec F32.emax m e l in
  e1 = fexp F32.prec F32.emax (Zdigits2 m + e)
  /\ 0 <= shr_m mrs < 2 ^ 24
  /\ (-149 < e1 -> 2 ^ 23 <= shr_m mrs).
Proof.
  intros Hm He. unfold shr_fexp.
  set (d := Zdigits2 m) in *.
  set (e1 := fexp F32.prec F32.emax (d + e)) in *.
  assert (He1 : e1 = Z.max (d + e - 24) (-149)) by reflexivity.
  assert (Hd0 : 0 <= d) by (unfold d; destruct m; cbn; lia).
  assert (Hbnd : m < 2 ^ d).
  { destruct (Z.eq_dec m 0) as [->|Hm0].
    - apply pow2_pos. exact Hd0.
    - apply Zdigits2_bounds. lia. }
  destruct (Z.eq_dec e1 e) as [E|E].
  - rewrite E, Z.sub_diag. cbn [shr].
    assert (Hsm : shr_m (shr_record_of_loc m l) = m)
      by (destruct l as [|[]]; reflexivity).
    rewrite Hsm. split; [reflexivity|]. split.
    + split; [exact Hm|].
      assert (2 ^ d <= 2 ^ 24) by (apply Z.pow_le_mono_r; lia). lia.
    + intros Hlow. assert (Hd24 : d = 24) by lia.
      destruct (Z.eq_dec m 0) as [->|Hm0]; [cbn in Hd24; lia|].
      destruct (Zdigits2_bounds m ltac:(lia)) as [[Hlo _] _].
      fold d in Hlo. rewrite Hd24 in Hlo. exact Hlo.
  - set (n := Z.to_pos (e1 - e)).
    assert (Hn : Z.pos n = e1 - e) by (unfold n; rewrite Z2Pos.id; lia).
    rewrite <- Hn. cbn [shr]. rewrite iter_pos_nat.
    assert (Hsm : exists r s, shr_record_of_loc m l = Build_shr_record m r s)
      by (destruct l as [|[]]; eexists; eexists; reflexivity).
    destruct Hsm as (r & s & ->).
    rewrite shr_steps_m by exact Hm. rewrite positive_nat_Z.
    assert (H2n : 0 < 2 ^ Z.pos n) by (apply pow2_pos; lia).
    split; [lia|]. split.
    + split; [apply Z.div_pos; lia|].
      apply Z.div_lt_upper_bound; [lia|].
      rewrite <- Z.pow_add_r by lia.
      assert (2 ^ d <= 2 ^ (Z.pos n + 24)) by (apply Z.pow_le_mono_r; lia).
      lia.
    + intros Hlow. apply Z.div_le_lower_bound; [lia|].
      rewrite <- Z.pow_add_r by lia.
      assert (Hd24 : d = Z.pos n + 24) by lia.
      destruct (Z.eq_dec m 0) as [->|Hm0]; [cbn in Hd24; lia|].
      destruct (Zdigits2_bounds m ltac:(lia)) as [[Hlo _] _].
      fold d in Hlo. rewrite Hd24 in Hlo.
      replace (Z.pos n + 24 - 1) with (Z.pos n + 23) in Hlo by lia.
      exact Hlo.
Qed.

(** Every rounding of a non-negative mantissa that sits at or below its own
    exponent gives a [float]. *)
Lemma binary_round_aux_valid (sx : bool) (m e : Z) (l : location) :
  0 <= m -> e <= fexp F32.prec F32.emax (Zdigits2 m + e) ->
  F32.valid (binary_round_aux F32.prec F32.emax sx m e l) = true.
Proof.
  intros Hm He. unfold binary_round_aux.
  pose proof (shr_fexp_digits m e l Hm He) as H1.
  destruct (shr_fexp F32.prec F32.emax m e l) as [mrs e1].
  destruct H1 as (He1 & Hq & Hnorm).
  assert (Hlow : -149 <= e1)
    by (rewrite He1; unfold fexp, emin, F32.prec, F32.emax; lia).
  pose proof (round_nearest_even_range mrs) as [Hm1 _].
  set (m1 := round_nearest_even (shr_m mrs) (loc_of_shr_record mrs)) in *.
  change (2 ^ 24) with 16777216 in Hq. change (2 ^ 23) with 8388608 in Hnorm.
  destruct (Z.eq_dec m1 0) as [E0|E0].
  { rewrite E0. unfold shr_fexp. cbn [Zdigits2 shr_record_of_loc].
    assert (Hs : fexp F32.prec F32.emax (0 + e1) - e1 <= 0)
      by (unfold fexp, emin, F32.prec, F32.emax; lia).
    destruct (fexp F32.prec F32.emax (0 + e1) - e1); try lia; reflexivity. }
  destruct (Z.eq_dec m1 16777216) as [E|E].
  - rewrite E. unfold shr_fexp. cbn [Zdigits2 shr_record_of_loc].
    change (Z.pos (digits2_pos 16777216)) with 25.
    assert (E1 : fexp F32.prec F32.emax (25 + e1) - e1 = 1)
      by (unfold fexp, emin, F32.prec, F32.emax; lia).
    rewrite E1. cbn [shr iter_pos shr_1 shr_m].
    destruct (e1 + 1 <=? F32.emax - F32.prec) eqn:B; [|reflexivity].
    unfold F32.valid, valid_binary, bounded, canonical_mantissa.
    rewrite B. change (Z.pos (digits2_pos 8388608)) with 24.
    rewrite andb_true_r. apply Z.eqb_eq.
    unfold fexp, emin, F32.prec, F32.emax. lia.
  - destruct m1 as [|mp|mp]; try lia.
    assert (Hd : Z.pos (digits2_pos mp) <= 24
                 /\ (-149 < e1 -> Z.pos (digits2_pos mp) = 24)).
    { pose proof (digits2_pos_bounds mp) as [Plo Phi]. split.
      - destruct (Z_le_gt_dec (Z.pos (digits2_pos mp)) 24) as [Hle|Hgt];
          [exact Hle|].
        assert (2 ^ 24 <= 2 ^ (Z.pos (digits2_pos mp) - 1))
          by (apply Z.pow_le_mono_r; lia).
        change (2 ^ 24) with 16777216 in *. lia.
      - intros Hn. specialize (Hnorm Hn).
        apply digits2_pos_unique;
          [change (2 ^ (24 - 1)) with 8388608;
           change (2 ^ 24) with 16777216|]; lia. }
    destruct Hd as [Hd Hd24].
    assert (Hc : fexp F32.prec F32.emax (Z.pos (digits2_pos mp) + e1) = e1).
    { unfold fexp, emin, F32.prec, F32.emax.
      destruct (Z.eq_dec e1 (-149)) as [->|Hne]; [lia|].
      rewrite Hd24 by lia. lia. }
    rewrite (shr_fexp_canonical mp e1 Hc). cbn [shr_m].
    destruct (e1 <=? F32.emax - F32.prec) eqn:B; [|reflexivity].
    unfold F32.valid, valid_binary, bounded, canonical_mantissa.
    now rewrite Hc, Z.eqb_refl, B.
Qed.

Lemma fexp_mono (a b : Z) :
  a <= b -> fexp F32.prec F32.emax a <= fexp F32.prec F32.emax b.
Proof. unfold fexp, emin, F32.prec, F32.emax. lia. Qed.

(** The digits of a number that is at least a power of two. *)
Lemma Zdigits2_lower (m k : Z) : 0 <= k -> 2 ^ k <= m -> k + 1 <= Zdigits2 m.
Proof.
  intros Hk H. pose proof (pow2_pos k Hk) as Hp.
  destruct (Zdigits2_bounds m ltac:(lia)) as [[_ Hhi] Hd].
  destruct (Z_le_gt_dec (k + 1) (Zdigits2 m)) as [Hle|Hgt]; [exact Hle|].
  assert (2 ^ Zdigits2 m <= 2 ^ k) by (apply Z.pow_le_mono_r; lia).
  lia.
Qed.

(** Converting a [double] gives a [float], whatever the [double]. *)
Lemma binary_round_valid (sx : bool) (m : positive) (e : Z) :
  F32.valid (binary_round F32.prec F32.emax sx m e) = true.
Proof.
  unfold binary_round, shl_align.
  set (d := Z.pos (digits2_pos m)).
  set (e1 := fexp F32.prec F32.emax (d + e)).
  destruct (e1 - e) as [|k|k] eqn:E.
  - apply binary_round_aux_valid; [lia|]. cbn [Zdigits2]. fold d. fold e1. lia.
  - apply binary_round_aux_valid; [lia|]. cbn [Zdigits2]. fold d. fold e1. lia.
  - apply binary_round_aux_valid; [lia|]. cbn [Zdigits2].
    unfold shift_pos. rewrite digits2_pos_iter_xO. fold d.
    replace (d + Z.pos k + e1) with (d + e) by lia. fold e1. lia.
Qed.

Lemma double_to_float_valid (x : double) : F32.valid (double_to_float x) = true.
Proof.
  destruct x as [s|s| |s m e]; try reflexivity.
  unfold double_to_float, binary_normalize.
  destruct s; cbn [cond_Zopp Z.opp]; apply binary_round_valid.
Qed.

(** A quotient of two [float]s is a [float]. *)
Lemma div_valid (x y : float) : F32.valid (x / y)%f32 = true.
Proof.
  unfold F32.div.
  destruct x as [sx|sx| |sx mx ex], y as [sy|sy| |sy my ey]; try reflexivity.
  cbn [SFdiv]. unfold SFdiv_core_binary.
  set (d1 := Zdigits2 (Z.pos mx)). set (d2 := Zdigits2 (Z.pos my)).
  set (X := d1 + ex - (d2 + ey)).
  set (e' := Z.min (fexp F32.prec F32.emax X) (ex - ey)).
  set (s := ex - ey - e').
  assert (Hs : 0 <= s) by (unfold s, e'; lia).
  set (m' := match s with
             | 0 => Z.pos mx
             | Z.pos _ => Z.shiftl (Z.pos mx) s
             | Z.neg _ => 0
             end).
  assert (Hm' : m' = Z.pos mx * 2 ^ s).
  { unfold m'. destruct s as [|p|p] eqn:Es; try lia.
    apply Z.shiftl_mul_pow2. lia. }
  pose proof (Z_div_mod m' (Z.pos my) ltac:(lia)) as Hdiv.
  destruct (Z.div_eucl m' (Z.pos my)) as [q r]. destruct Hdiv as [Hqr Hr].
  pose proof (pow2_pos s Hs) as H2s.
  assert (Hq : 0 <= q) by nia.
  apply binary_round_aux_valid; [exact Hq|].
  destruct (Z_le_gt_dec e' (-149)) as [Hlow|Hhigh].
  { unfold fexp, emin, F32.prec, F32.emax. lia. }
  assert (HX : e' <= X - 24)
    by (unfold e' in *; unfold fexp, emin, F32.prec, F32.emax in *; lia).
  assert (Hk : 24 <= d1 - d2 + s) by (unfold X, s in *; lia).
  destruct (Zdigits2_bounds (Z.pos mx) ltac:(lia)) as [[L1 _] P1].
  destruct (Zdigits2_bounds (Z.pos my) ltac:(lia)) as [[_ U2] P2].
  fold d1 in L1, P1. fold d2 in U2, P2.
  assert (Hpow : 2 ^ (d1 - 1 + s) = 2 ^ (d1 - 1 + s - d2) * 2 ^ d2)
    by (rewrite <- Z.pow_add_r by lia; f_equal; lia).
  assert (Hsplit : 2 ^ (d1 - 1 + s) = 2 ^ (d1 - 1) * 2 ^ s)
    by (apply Z.pow_add_r; lia).
  assert (Hp : 0 < 2 ^ (d1 - 1 + s - d2)) by (apply pow2_pos; lia).
  assert (Hqlo : 2 ^ (d1 - 1 + s - d2) <= q).
  { destruct (Z_le_gt_dec (2 ^ (d1 - 1 + s - d2)) q) as [Hle|Hgt];
      [exact Hle|].
    assert (q + 1 <= 2 ^ (d1 - 1 + s - d2)) by lia.
    assert (m' < (q + 1) * Z.pos my) by lia.
    assert ((q + 1) * Z.pos my <= 2 ^ (d1 - 1 + s - d2) * Z.pos my) by nia.
    assert (2 ^ (d1 - 1 + s - d2) * Z.pos my < 2 ^ (d1 - 1 + s - d2) * 2 ^ d2)
      by nia.
    nia. }
  pose proof (Zdigits2_lower q (d1 - 1 + s - d2) ltac:(lia) Hqlo) as Hdq.
  eapply Z.le_trans; [|apply (fexp_mono (X - 24 + 24))].
  - unfold fexp, emin, F32.prec, F32.emax. lia.
  - unfold X, s in *. lia.
Qed.

(** *** Two numbers below 1 add up to a number below 2 *)

Lemma nonneg_one : Design.nonneg F32.one = true.
Proof. reflexivity. Qed.

Lemma nonneg_two : Design.nonneg f2 = true.
Proof. reflexivity. Qed.

Lemma ltb_units (x y : float) :
  Design.nonneg x = true -> Design.nonneg y = true ->
  (x <? y)%f32 = (Design.units x <? Design.units y).
Proof.
  intros Hx Hy. unfold F32.ltb, SFltb, Z.ltb.
  rewrite (SFcompare_units x y Hx Hy). reflexivity.
Qed.

(** Aligning a mantissa to a lower exponent keeps the value. *)
Lemma shl_align_units (m : positive) (e ez : Z) :
  -149 <= ez <= e ->
  Z.pos (fst (shl_align m e ez)) * 2 ^ (ez + 149) = Z.pos m * 2 ^ (e + 149).
Proof.
  intros H. unfold shl_align.
  destruct (Z.compare_spec ez e) as [E|E|E]; try lia.
  - subst ez. rewrite Z.sub_diag. reflexivity.
  - set (k := Z.to_pos (e - ez)).
    assert (Hk : Z.pos k = e - ez) by (unfold k; rewrite Z2Pos.id; lia).
    assert (E2 : ez - e = Z.neg k) by lia.
    rewrite E2. cbn [fst]. rewrite pos_iter_xO_value, Hk.
    replace (e + 149) with ((e - ez) + (ez + 149)) by lia.
    rewrite (Z.pow_add_r 2 (e - ez) (ez + 149)) by lia. ring.
Qed.

(** A non-negative valid [float] under 1 is at most the [float] before 1. *)
Lemma units_below_one (x : float) :
  Design.nonneg x = true -> (x <? F32.one)%f32 = true ->
  0 <= Design.units x <= 2 ^ 149 - 2 ^ 125.
Proof.
  intros Hx Hlt. rewrite (ltb_units x F32.one Hx nonneg_one) in Hlt.
  apply Z.ltb_lt in Hlt.
  change (Design.units F32.one) with (2 ^ 149) in Hlt.
  unfold Design.nonneg in Hx. apply andb_true_iff in Hx.
  destruct Hx as [Vx Sx].
  destruct x as [s|s| |s m e]; try discriminate; cbn [Design.units] in *;
    try (split; [lia|]; change (0 <= 2 ^ 149 - 2 ^ 125);
         vm_compute; discriminate).
  destruct (valid_finite s m e Vx) as (He & Hd & _).
  pose proof (units_bounds s m e Vx) as [Hlo Hhi].
  cbn [Design.units] in Hlo, Hhi.
  pose proof (pow2_pos (e + 149)).
  split; [lia|].
  destruct (Z_le_gt_dec (-24) e) as [E|E].
  - assert (Hs : 2 ^ (e + 149) = 2 ^ (e + 24) * 2 ^ 125)
      by (rewrite <- Z.pow_add_r by lia; f_equal; lia).
    rewrite Hs in *.
    assert (H149 : 2 ^ 149 = 2 ^ 24 * 2 ^ 125) by reflexivity.
    rewrite H149 in *.
    assert (H125 : 0 < 2 ^ 125) by (apply pow2_pos; lia).
    assert (Z.pos m * 2 ^ (e + 24) < 2 ^ 24) by nia. nia.
  - assert (2 ^ (Z.pos (digits2_pos m) + (e + 149)) <= 2 ^ 148)
      by (apply Z.pow_le_mono_r; lia).
    assert (2 ^ 148 <= 2 ^ 149 - 2 ^ 125) by (vm_compute; discriminate).
    lia.
Qed.

(** The sum of two non-negative valid floats under 1 is one under 2. *)
Lemma add_nonneg_below_two (a b : float) :
  Design.nonneg a = true -> (a <? F32.one)%f32 = true ->
  Design.nonneg b = true -> (b <? F32.one)%f32 = true ->
  Design.nonneg (a + b)%f32 = true /\ (a + b <? f2)%f32 = true.
Proof.
  intros Ha La Hb Lb.
  pose proof (units_below_one a Ha La) as Ua.
  pose proof (units_below_one b Hb Lb) as Ub.
  assert (Hsmall : forall x, Design.nonneg x = true ->
                     Design.units x <= 2 ^ 149 - 2 ^ 125 ->
                     (x <? f2)%f32 = true).
  { intros x Hx Ux. rewrite (ltb_units x f2 Hx nonneg_two).
    apply Z.ltb_lt. change (Design.units f2) with (2 ^ 150).
    assert (2 ^ 149 - 2 ^ 125 < 2 ^ 150) by (vm_compute; reflexivity).
    lia. }
  pose proof Ha as Ha'. pose proof Hb as Hb'.
  unfold Design.nonneg in Ha', Hb'.
  apply andb_true_iff in Ha'. destruct Ha' as [Va Sa].
  apply andb_true_iff in Hb'. destruct Hb' as [Vb Sb].
  destruct a as [sa|sa| |sa ma ea]; try discriminate;
    destruct b as [sb|sb| |sb mb eb]; try discriminate.
  - destruct sa, sb; split; reflexivity.
  - split; [exact Hb|]. apply Hsmall; [exact Hb|exact (proj2 Ub)].
  - split; [exact Ha|]. apply Hsmall; [exact Ha|exact (proj2 Ua)].
  - destruct sa, sb; try discriminate.
    destruct (valid_finite false ma ea Va) as (Hea & Hda & _).
    destruct (valid_finite false mb eb Vb) as (Heb & Hdb & _).
    unfold F32.add, SFadd. cbn [cond_Zopp Z.add binary_normalize].
    set (ez := Z.min ea eb).
    set (ma' := fst (shl_align ma ea ez)).
    set (mb' := fst (shl_align mb eb ez)).
    assert (Hez : -149 <= ez) by (unfold ez; lia).
    assert (Hsum : Z.pos (ma' + mb') * 2 ^ (ez + 149)
                   = Design.units (S754_finite false ma ea)
                     + Design.units (S754_finite false mb eb)).
    { rewrite Pos2Z.inj_add, Z.mul_add_distr_r. unfold ma', mb'.
      rewrite !shl_align_units by (unfold ez; lia). reflexivity. }
    set (p := (ma' + mb')%positive) in *.
    set (d := Z.pos (digits2_pos p)).
    pose proof (digits2_pos_bounds p) as [Plo Phi]. fold d in Plo, Phi.
    assert (HK : Z.pos p * 2 ^ (ez + 149) <= 2 ^ 150 - 2 ^ 126).
    { rewrite Hsum.
      change (2 ^ 150 - 2 ^ 126) with (2 * (2 ^ 149 - 2 ^ 125)). lia. }
    assert (Hd1 : 1 <= d) by (unfold d; lia).
    assert (Hde : d + ez <= 1).
    { destruct (Z_le_gt_dec (d + ez) 1) as [H|H]; [exact H|].
      assert (2 ^ 150 <= 2 ^ (d - 1 + (ez + 149)))
        by (apply Z.pow_le_mono_r; lia).
      rewrite Z.pow_add_r in H0 by lia.
      assert (0 < 2 ^ (ez + 149)) by (apply pow2_pos; lia).
      assert (2 ^ 150 - 2 ^ 126 < 2 ^ 150) by (vm_compute; reflexivity).
      nia. }
    set (e1 := fexp F32.prec F32.emax (d + ez)).
    assert (He1 : -149 <= e1 <= -23)
      by (unfold e1, fexp, emin, F32.prec, F32.emax; lia).
    destruct (binary_round_bound p ez (2 ^ 150 - 2 ^ 126)
                ((2 ^ 24 - 1) * 2 ^ (-23 - e1)))
      as [Hn Hu]; [lia|fold d; lia|exact HK| |].
    + fold d. fold e1. rewrite <- Z.mul_assoc, <- Z.pow_add_r by lia.
      replace (-23 - e1 + (e1 + 149)) with 126 by lia.
      vm_compute. reflexivity.
    + split; [exact Hn|].
      rewrite (ltb_units _ f2 Hn nonneg_two). apply Z.ltb_lt.
      change (Design.units f2) with (2 ^ 150).
      assert (2 ^ 150 - 2 ^ 126 < 2 ^ 150) by (vm_compute; reflexivity).
      lia.
Qed.

(** *** Phases stay from 0 up to but not 1 *)

Lemma add_nan_r (x : float) : (x + S754_nan)%f32 = S754_nan.
Proof. destruct x; reflexivity. Qed.

Lemma nonneg_not_nan (x : float) :
  Design.nonneg x = true -> F32.is_nan x = false.
Proof.
  unfold Design.nonneg. intros H. apply andb_true_iff in H.
  destruct x; try reflexivity. destruct H; discriminate.
Qed.

Lemma inUnit_cases (x : float) :
  Design.inUnit x = true ->
  x = S754_nan \/ (Design.nonneg x = true /\ (x <? F32.one)%f32 = true).
Proof.
  unfold Design.inUnit. intros H. apply orb_true_iff in H.
  destruct H as [H|H].
  - left. destruct x; try discriminate. reflexivity.
  - right. now apply andb_true_iff in H.
Qed.

Lemma underTwo_cases (x : float) :
  Design.underTwo x = true ->
  x = S754_nan \/ (Design.nonneg x = true /\ (x <? f2)%f32 = true).
Proof.
  unfold Design.underTwo. intros H. apply orb_true_iff in H.
  destruct H as [H|H].
  - left. destruct x; try discriminate. reflexivity.
  - right. now apply andb_true_iff in H.
Qed.

(** The sum of two phases is NaN or from 0 up to but not 2. *)
Lemma add_inUnit (a b : float) :
  Design.inUnit a = true -> Design.inUnit b = true ->
  Design.underTwo (a + b)%f32 = true.
Proof.
  intros Ha Hb.
  destruct (inUnit_cases a Ha) as [->|[Na La]]; [reflexivity|].
  destruct (inUnit_cases b Hb) as [->|[Nb Lb]];
    [now rewrite add_nan_r|].
  destruct (add_nonneg_below_two a b Na La Nb Lb) as [Hn Hl].
  unfold Design.underTwo. now rewrite Hn, Hl, orb_true_r.
Qed.

(** On numbers, [x >= y] failing means [x < y]. *)
Lemma geb_false_ltb (x y : float) :
  F32.is_nan x = false -> F32.is_nan y = false ->
  (x >=? y)%f32 = false -> (x <? y)%f32 = true.
Proof.
  intros Hx Hy. unfold F32.geb, F32.leb, F32.ltb, SFleb, SFltb.
  rewrite (SFcompare_antisym x y).
  destruct (SFcompare_some x y Hx Hy) as [c ->]. destruct c; simpl; congruence.
Qed.

(** One conditional subtraction of 1 brings such a sum back to a phase,
    and the result is not [>= 1]. *)
Lemma wrap_once_inUnit (x : float) :
  Design.underTwo x = true ->
  let wrapped := if (x >=? F32.one)%f32 then (x - F32.one)%f32 else x in
  Design.inUnit wrapped = true /\ (wrapped >=? F32.one)%f32 = false.
Proof.
  intros Hx. cbv zeta.
  destruct (underTwo_cases x Hx) as [->|[Nx Lx]]; [split; reflexivity|].
  destruct (x >=? F32.one)%f32 eqn:E.
  - assert (Vx : F32.valid x = true).
    { unfold Design.nonneg in Nx. now apply andb_true_iff in Nx. }
    destruct (sub_one_below_one x Vx E Lx) as (Hn & Hl & Hg).
    split; [|exact Hg]. unfold Design.inUnit. now rewrite Hn, Hl, orb_true_r.
  - split; [|exact E]. unfold Design.inUnit. rewrite Nx.
    rewrite (geb_false_ltb x F32.one (nonneg_not_nan x Nx) eq_refl E).
    apply orb_true_r.
Qed.

(** The phase loop ends after at most one subtraction on such a sum. *)
Lemma wrapShiftedPhase_underTwo (fuel : nat) (x : float) :
  Design.underTwo x = true -> (2 <= fuel)%nat ->
  Pulse.wrapShiftedPhase fuel x
  = Some (if (x >=? F32.one)%f32 then (x - F32.one)%f32 else x).
Proof.
  intros Hx Hfuel. destruct (wrap_once_inUnit x Hx) as [_ Hexit].
  cbv zeta in Hexit.
  destruct fuel as [|[|fuel]]; try lia. cbn [Pulse.wrapShiftedPhase].
  destruct (x >=? F32.one)%f32; [|reflexivity]. now rewrite Hexit.
Qed.

(** [jlimit] between two phases gives a phase when the value is NaN or a
    valid [float]. *)
Lemma jlimit_inUnit (lo hi x : float) :
  Design.nonneg lo = true -> Design.nonneg hi = true ->
  (hi <? F32.one)%f32 = true -> (lo <=? hi)%f32 = true ->
  F32.is_nan x || F32.valid x = true ->
  Design.inUnit (jlimit lo hi x) = true.
Proof.
  intros Nlo Nhi Hhi Hle Hx. apply orb_true_iff in Hx.
  destruct Hx as [Hx|Vx].
  { destruct x; try discriminate. now rewrite jlimit_nan. }
  destruct (F32.is_nan x) eqn:Nx.
  { destruct x; try discriminate. now rewrite jlimit_nan. }
  assert (Hlo1 : (lo <? F32.one)%f32 = true).
  { rewrite (ltb_units lo F32.one Nlo nonneg_one).
    rewrite (ltb_units hi F32.one Nhi nonneg_one) in Hhi.
    unfold F32.leb, SFleb in Hle.
    rewrite (SFcompare_units lo hi Nlo Nhi) in Hle.
    apply Z.ltb_lt in Hhi. apply Z.ltb_lt.
    destruct (Z.compare_spec (Design.units lo) (Design.units hi));
      try discriminate; lia. }
  unfold jlimit. destruct (x <? lo)%f32 eqn:E1.
  - unfold Design.inUnit. now rewrite Nlo, Hlo1, orb_true_r.
  - destruct (hi <? x)%f32 eqn:E2.
    + unfold Design.inUnit. now rewrite Nhi, Hhi, orb_true_r.
    + assert (Nnx : Design.nonneg x = true).
      { unfold Design.nonneg. rewrite Vx. cbn [andb].
        pose proof Nlo as Nlo'. pose proof Nhi as Nhi'.
        unfold Design.nonneg in Nlo', Nhi'.
        apply andb_true_iff in Nlo'. destruct Nlo' as [_ Slo].
        apply andb_true_iff in Nhi'. destruct Nhi' as [_ Shi].
        unfold F32.ltb, SFltb in E1, E2.
        destruct x as [s|s| |s m e]; try reflexivity; try discriminate.
        - destruct s.
          + destruct lo as [?|?| |[] ? ?]; try discriminate.
          + destruct hi as [?|?| |[] ? ?]; try discriminate.
        - destruct s; [|reflexivity].
          destruct lo as [?|?| |[] ? ?]; try discriminate. }
      unfold Design.inUnit. rewrite Nnx.
      rewrite (ltb_units x F32.one Nnx nonneg_one).
      rewrite (ltb_units hi F32.one Nhi nonneg_one) in Hhi.
      rewrite (ltb_units hi x Nhi Nnx) in E2.
      apply Z.ltb_lt in Hhi. apply Z.ltb_ge in E2.
      replace (Design.units x <? Design.units F32.one) with true
        by (symmetry; apply Z.ltb_lt; lia).
      apply orb_true_r.
Qed.

(** ** Arithmetic on the cutoff

    What the filter's cutoff needs of [float] arithmetic: a product or a
    quotient by 1 is the same [float], a sum or a difference whose value is
    a [float] is that [float], and any other is the nearest one. *)

(** The first shift of a rounding is a division. *)
Lemma shr_fexp_value (m e : Z) (l : location) :
  0 <= m -> e <= fexp F32.prec F32.emax (Zdigits2 m + e) ->
  let e1 := fexp F32.prec F32.emax (Zdigits2 m + e) in
  let '(mrs, e1') := shr_fexp F32.prec F32.emax m e l in
  e1' = e1 /\ shr_m mrs = m / 2 ^ (e1 - e)
  /\ (l = loc_Exact -> m mod 2 ^ (e1 - e) = 0 ->
      shr_r mrs = false /\ shr_s mrs = false).
Proof.
  intros Hm He. cbv zeta. unfold shr_fexp.
  set (e1 := fexp F32.prec F32.emax (Zdigits2 m + e)) in *.
  destruct (Z.eq_dec e1 e) as [E|E].
  - rewrite E, Z.sub_diag. cbn [shr]. split; [reflexivity|]. split.
    + change (2 ^ 0) with 1. rewrite Z.div_1_r.
      destruct l as [|[]]; reflexivity.
    + intros -> _. split; reflexivity.
  - set (n := Z.to_pos (e1 - e)).
    assert (Hn : Z.pos n = e1 - e) by (unfold n; rewrite Z2Pos.id; lia).
    rewrite <- Hn. cbn [shr]. rewrite iter_pos_nat.
    split; [lia|]. split.
    + assert (Hsm : exists r s,
                 shr_record_of_loc m l = Build_shr_record m r s)
        by (destruct l as [|[]]; eexists; eexists; reflexivity).
      destruct Hsm as (r & s & ->).
      rewrite shr_steps_m by exact Hm. now rewrite positive_nat_Z.
    + intros -> Hmod. cbn [shr_record_of_loc].
      pose proof (shr_steps m (Pos.to_nat n) Hm) as Hsteps.
      cbv zeta in Hsteps. rewrite positive_nat_Z in Hsteps.
      exact (proj2 Hsteps Hmod).
Qed.

(** *** Roundings that are exact *)

(** Shifting a mantissa left adds to its digits. *)
Lemma Zdigits2_shift (m : positive) (k : Z) :
  0 <= k -> Zdigits2 (Z.pos m * 2 ^ k) = Z.pos (digits2_pos m) + k.
Proof.
  intros Hk. pose proof (digits2_pos_bounds m) as [Hlo Hhi].
  pose proof (pow2_pos k Hk) as Hp.
  apply Zdigits2_unique; [|lia].
  replace (Z.pos (digits2_pos m) + k - 1)
    with (Z.pos (digits2_pos m) - 1 + k) by lia.
  rewrite !Z.pow_add_r by lia. nia.
Qed.

(** The exponent of a valid [float] is the one of its format. *)
Lemma valid_canonical (s : bool) (m : positive) (e : Z) :
  F32.valid (S754_finite s m e) = true ->
  fexp F32.prec F32.emax (Z.pos (digits2_pos m) + e) = e /\ e <= 104.
Proof.
  intros Hv. destruct (valid_finite s m e Hv) as (He & Hd & C).
  unfold fexp, emin, F32.prec, F32.emax. lia.
Qed.

(** A valid [float] whose mantissa was shifted left by [k] digits, at an
    exponent that is lower by [k], rounds to itself. *)
Lemma round_aux_exact (s : bool) (m : positive) (e k : Z) :
  F32.valid (S754_finite s m e) = true -> 0 <= k ->
  binary_round_aux F32.prec F32.emax s (Z.pos m * 2 ^ k) (e - k) loc_Exact
  = S754_finite s m e.
Proof.
  intros Hv Hk. destruct (valid_canonical s m e Hv) as [Hc Hb].
  pose proof (pow2_pos k Hk) as Hp.
  assert (HM : 0 <= Z.pos m * 2 ^ k) by nia.
  assert (Hf : fexp F32.prec F32.emax (Zdigits2 (Z.pos m * 2 ^ k) + (e - k))
               = e).
  { rewrite Zdigits2_shift by exact Hk.
    replace (Z.pos (digits2_pos m) + k + (e - k))
      with (Z.pos (digits2_pos m) + e) by lia.
    exact Hc. }
  pose proof (shr_fexp_value (Z.pos m * 2 ^ k) (e - k) loc_Exact HM
                ltac:(rewrite Hf; lia)) as H.
  cbv zeta in H. rewrite Hf in H. unfold binary_round_aux.
  destruct (shr_fexp F32.prec F32.emax (Z.pos m * 2 ^ k) (e - k) loc_Exact)
    as [mrs e1].
  destruct H as (He1 & Hm & Hex).
  replace (e - (e - k)) with k in * by lia.
  rewrite Z.div_mul in Hm by lia.
  destruct (Hex eq_refl (Z.mod_mul (Z.pos m) (2 ^ k) ltac:(lia)))
    as [Hr Hs].
  destruct mrs as [q r s0]. cbn [shr_m shr_r shr_s] in *. subst q r s0 e1.
  cbn [loc_of_shr_record round_nearest_even].
  rewrite (shr_fexp_canonical m e Hc). cbn [shr_m].
  unfold F32.emax, F32.prec.
  replace (e <=? 128 - 24) with true by (symmetry; apply Z.leb_le; lia).
  reflexivity.
Qed.

(** Times 1 is the same [float]. *)
Lemma mul_one (x : float) : F32.valid x = true -> (x * F32.one)%f32 = x.
Proof.
  intros Hv. destruct x as [s|s| |s m e]; try (destruct s; reflexivity);
    try reflexivity.
  unfold F32.mul, F32.one. cbn [SFmul]. rewrite xorb_false_r.
  rewrite Pos2Z.inj_mul. change (Z.pos 8388608) with (2 ^ 23).
  replace (e + -23) with (e - 23) by lia.
  apply round_aux_exact; [exact Hv|lia].
Qed.

(** Divided by 1 also. *)
Lemma div_one (x : float) : F32.valid x = true -> (x / F32.one)%f32 = x.
Proof.
  intros Hv. destruct x as [s|s| |s m e]; try (destruct s; reflexivity);
    try reflexivity.
  destruct (valid_canonical s m e Hv) as [Hc Hb].
  destruct (valid_finite s m e Hv) as (He & Hd & _).
  unfold F32.div, F32.one. cbn [SFdiv]. unfold SFdiv_core_binary.
  cbn [Zdigits2]. change (Z.pos (digits2_pos 8388608)) with 24.
  set (d := Z.pos (digits2_pos m)) in *.
  assert (Hmin : Z.min (fexp F32.prec F32.emax (d + e - (24 + -23)))
                   (e - -23)
                 = fexp F32.prec F32.emax (d + e - 1)).
  { replace (d + e - (24 + -23)) with (d + e - 1) by lia.
    unfold fexp, emin, F32.prec, F32.emax in *. lia. }
  rewrite Hmin.
  set (e' := fexp F32.prec F32.emax (d + e - 1)).
  assert (He' : e' <= e)
    by (unfold e', fexp, emin, F32.prec, F32.emax in *; lia).
  set (k := e - e').
  assert (Hs : e - -23 - e' = Z.pos (Z.to_pos (k + 23)))
    by (rewrite Z2Pos.id; unfold k; lia).
  rewrite Hs. rewrite Z.shiftl_mul_pow2 by lia.
  rewrite Z2Pos.id by (unfold k; lia).
  assert (Hdiv : Z.div_eucl (Z.pos m * 2 ^ (k + 23)) (Z.pos 8388608)
                 = (Z.pos m * 2 ^ k, 0)).
  { pose proof (Z_div_mod (Z.pos m * 2 ^ (k + 23)) (Z.pos 8388608)
                  ltac:(lia)) as H.
    destruct (Z.div_eucl _ _) as [q r]. destruct H as [Hq Hr].
    rewrite Z.pow_add_r in Hq by (unfold k; lia).
    change (2 ^ 23) with 8388608 in Hq.
    assert (r = 0 /\ q = Z.pos m * 2 ^ k) by nia.
    f_equal; tauto. }
  rewrite Hdiv. change (new_location (Z.pos 8388608) 0) with loc_Exact.
  rewrite xorb_false_r.
  replace e' with (e - k) by (unfold k; lia).
  apply round_aux_exact; [exact Hv|unfold k; lia].
Qed.

(** A valid [float] in place rounds to itself. *)
Lemma round_aux_valid_in_place (s : bool) (m : positive) (e : Z) :
  F32.valid (S754_finite s m e) = true ->
  binary_round_aux F32.prec F32.emax s (Z.pos m) e loc_Exact
  = S754_finite s m e.
Proof.
  intros Hv. pose proof (round_aux_exact s m e 0 Hv ltac:(lia)) as H.
  change (2 ^ 0) with 1 in H. now rewrite Z.mul_1_r, Z.sub_0_r in H.
Qed.

(** A mantissa [P] at exponent [E] that has the value of a valid [float]
    rounds to that [float]. *)
Lemma binary_round_exact (s : bool) (m P : positive) (e E : Z) :
  F32.valid (S754_finite s m e) = true ->
  (E <= e /\ Z.pos P = Z.pos m * 2 ^ (e - E))
  \/ (e <= E /\ Z.pos m = Z.pos P * 2 ^ (E - e)) ->
  binary_round F32.prec F32.emax s P E = S754_finite s m e.
Proof.
  intros Hv H. destruct (valid_canonical s m e Hv) as [Hc Hb].
  assert (Hd : Z.pos (digits2_pos P) + E = Z.pos (digits2_pos m) + e).
  { destruct H as [[HE HP]|[HE HP]].
    - change (Z.pos (digits2_pos P)) with (Zdigits2 (Z.pos P)).
      rewrite HP, Zdigits2_shift by lia. lia.
    - change (Z.pos (digits2_pos m)) with (Zdigits2 (Z.pos m)).
      rewrite HP, Zdigits2_shift by lia. lia. }
  unfold binary_round, shl_align. rewrite Hd, Hc.
  destruct H as [[HE HP]|[HE HP]].
  - assert (Hshl : match e - E with
                   | Z.neg d => (Pos.iter xO P d, e)
                   | _ => (P, E)
                   end = (P, E))
      by (destruct (e - E) eqn:Eq; try reflexivity; lia).
    rewrite Hshl, HP.
    replace E with (e - (e - E)) at 2 by lia.
    apply round_aux_exact; [exact Hv|lia].
  - destruct (e - E) as [|d|d] eqn:Eq; try lia.
    + assert (E = e) by lia. subst E. rewrite Z.sub_diag in HP.
      change (2 ^ 0) with 1 in HP. rewrite Z.mul_1_r in HP.
      injection HP as ->. now apply round_aux_valid_in_place.
    + assert (Hm : Pos.iter xO P d = m).
      { apply Pos2Z.inj. rewrite pos_iter_xO_value, HP. f_equal. f_equal.
        lia. }
      rewrite Hm. now apply round_aux_valid_in_place.
Qed.

(** A positive integer below [2^24], at an exponent of the format, is the
    value of a valid [float]. *)
Lemma representable (s : bool) (N : positive) (e : Z) :
  Z.pos N < 2 ^ 24 -> -149 <= e <= 104 ->
  exists (m : positive) (e' : Z),
    F32.valid (S754_finite s m e') = true /\ -149 <= e' <= e
    /\ Z.pos m = Z.pos N * 2 ^ (e - e').
Proof.
  intros HN He. pose proof (digits2_pos_bounds N) as [Hlo Hhi].
  set (d := Z.pos (digits2_pos N)) in *.
  assert (Hd : d <= 24).
  { destruct (Z_le_gt_dec d 24) as [H|H]; [exact H|].
    assert (2 ^ 24 <= 2 ^ (d - 1)) by (apply Z.pow_le_mono_r; lia). lia. }
  set (e' := fexp F32.prec F32.emax (d + e)).
  assert (He' : -149 <= e' <= e /\ e' = Z.max (d + e - 24) (-149))
    by (unfold e', fexp, emin, F32.prec, F32.emax; lia).
  pose proof (pow2_pos (e - e') ltac:(lia)) as Hp.
  exists (Z.to_pos (Z.pos N * 2 ^ (e - e'))), e'.
  assert (Hm : Z.pos (Z.to_pos (Z.pos N * 2 ^ (e - e')))
               = Z.pos N * 2 ^ (e - e')) by (apply Z2Pos.id; nia).
  split; [|split; [lia|exact Hm]].
  unfold F32.valid, valid_binary, bounded, canonical_mantissa.
  change (Z.pos (digits2_pos (Z.to_pos (Z.pos N * 2 ^ (e - e')))))
    with (Zdigits2 (Z.pos (Z.to_pos (Z.pos N * 2 ^ (e - e'))))).
  rewrite Hm, Zdigits2_shift by lia. fold d.
  replace (d + (e - e') + e') with (d + e) by lia. fold e'.
  rewrite Z.eqb_refl. unfold F32.emax, F32.prec.
  apply Z.leb_le. lia.
Qed.

(** An integer [M] at exponent [E] that has the value of a valid [float]
    normalises to that [float]. *)
Lemma normalize_exact (M E : Z) (sz s : bool) (m : positive) (e : Z) :
  F32.valid (S754_finite s m e) = true -> -149 <= E ->
  M * 2 ^ (E + 149) = cond_Zopp s (Z.pos m * 2 ^ (e + 149)) ->
  binary_normalize F32.prec F32.emax M E sz = S754_finite s m e.
Proof.
  intros Hv HE H. destruct (valid_finite s m e Hv) as (He & _ & _).
  pose proof (pow2_pos (E + 149) ltac:(lia)) as HpE.
  pose proof (pow2_pos (e + 149) ltac:(lia)) as Hpe.
  assert (Hcases : forall P : positive,
            Z.pos P * 2 ^ (E + 149) = Z.pos m * 2 ^ (e + 149) ->
            (E <= e /\ Z.pos P = Z.pos m * 2 ^ (e - E))
            \/ (e <= E /\ Z.pos m = Z.pos P * 2 ^ (E - e))).
  { intros P HP. destruct (Z_le_gt_dec E e) as [Hle|Hgt]; [left|right].
    - split; [exact Hle|].
      replace (e + 149) with ((e - E) + (E + 149)) in HP by lia.
      rewrite (Z.pow_add_r 2 (e - E) (E + 149)) in HP by lia.
      apply (Z.mul_reg_r _ _ (2 ^ (E + 149))); [lia|]. rewrite HP. ring.
    - split; [lia|].
      replace (E + 149) with ((E - e) + (e + 149)) in HP by lia.
      rewrite (Z.pow_add_r 2 (E - e) (e + 149)) in HP by lia.
      apply (Z.mul_reg_r _ _ (2 ^ (e + 149))); [lia|]. rewrite <- HP.
      ring. }
  destruct M as [|P|P]; cbn [binary_normalize].
  - destruct s; cbn [cond_Zopp] in H; nia.
  - destruct s; cbn [cond_Zopp] in H; [nia|].
    apply binary_round_exact; [exact Hv|]. apply Hcases. exact H.
  - destruct s; cbn [cond_Zopp] in H; [|nia].
    apply binary_round_exact; [exact Hv|]. apply Hcases.
    rewrite <- Pos2Z.opp_pos in H. lia.
Qed.

(** A sum whose value is that of a valid [float] is that [float]. *)
Lemma add_exact (sx sy s : bool) (mx my m : positive) (ex ey e : Z) :
  F32.valid (S754_finite sx mx ex) = true ->
  F32.valid (S754_finite sy my ey) = true ->
  F32.valid (S754_finite s m e) = true ->
  cond_Zopp sx (Z.pos mx * 2 ^ (ex + 149))
  + cond_Zopp sy (Z.pos my * 2 ^ (ey + 149))
  = cond_Zopp s (Z.pos m * 2 ^ (e + 149)) ->
  (S754_finite sx mx ex + S754_finite sy my ey)%f32 = S754_finite s m e.
Proof.
  intros Vx Vy Vz H.
  destruct (valid_finite sx mx ex Vx) as (Hex & _ & _).
  destruct (valid_finite sy my ey Vy) as (Hey & _ & _).
  unfold F32.add. cbn [SFadd]. cbv zeta.
  set (ez := Z.min ex ey).
  pose proof (shl_align_units mx ex ez ltac:(unfold ez; lia)) as Ax.
  pose proof (shl_align_units my ey ez ltac:(unfold ez; lia)) as Ay.
  apply normalize_exact; [exact Vz|unfold ez; lia|].
  rewrite <- H, <- Ax, <- Ay.
  destruct sx, sy; cbn [cond_Zopp]; ring.
Qed.

(** And a difference. *)
Lemma sub_exact (sx sy s : bool) (mx my m : positive) (ex ey e : Z) :
  F32.valid (S754_finite sx mx ex) = true ->
  F32.valid (S754_finite sy my ey) = true ->
  F32.valid (S754_finite s m e) = true ->
  cond_Zopp sx (Z.pos mx * 2 ^ (ex + 149))
  - cond_Zopp sy (Z.pos my * 2 ^ (ey + 149))
  = cond_Zopp s (Z.pos m * 2 ^ (e + 149)) ->
  (S754_finite sx mx ex - S754_finite sy my ey)%f32 = S754_finite s m e.
Proof.
  intros Vx Vy Vz H.
  destruct (valid_finite sx mx ex Vx) as (Hex & _ & _).
  destruct (valid_finite sy my ey Vy) as (Hey & _ & _).
  unfold F32.sub. cbn [SFsub]. cbv zeta.
  set (ez := Z.min ex ey).
  pose proof (shl_align_units mx ex ez ltac:(unfold ez; lia)) as Ax.
  pose proof (shl_align_units my ey ez ltac:(unfold ez; lia)) as Ay.
  apply normalize_exact; [exact Vz|unfold ez; lia|].
  rewrite <- H, <- Ax, <- Ay.
  destruct sx, sy; cbn [cond_Zopp]; ring.
Qed.

(** *** The nearest [float] *)

(** After [k + 1] steps the record holds the quotient by [2^(k+1)], the
    bit that fell off last and whether any bit fell off before it. *)
Lemma shr_steps_bits (m : Z) (k : nat) :
  0 <= m ->
  Nat.iter (S k) shr_1 (Build_shr_record m false false)
  = Build_shr_record (m / 2 ^ (Z.of_nat k + 1)) (Z.odd (m / 2 ^ Z.of_nat k))
      (negb (m mod 2 ^ Z.of_nat k =? 0)).
Proof.
  intros Hm. induction k as [|k IH].
  - cbn [Nat.iter Z.of_nat]. rewrite shr_1_spec by exact Hm.
    change (2 ^ (0 + 1)) with 2. change (2 ^ 0) with 1.
    rewrite Z.div_1_r, Z.mod_1_r. reflexivity.
  - rewrite Nat.iter_succ, IH.
    assert (Hp : 0 < 2 ^ Z.of_nat k) by (apply pow2_pos; lia).
    assert (Hp1 : 2 ^ (Z.of_nat k + 1) = 2 ^ Z.of_nat k * 2)
      by (rewrite Z.pow_add_r by lia; reflexivity).
    rewrite shr_1_spec by (apply Z.div_pos; lia).
    rewrite Nat2Z.inj_succ. unfold Z.succ.
    f_equal.
    + rewrite (Z.pow_add_r 2 (Z.of_nat k + 1) 1) by lia.
      change (2 ^ 1) with 2. rewrite Z.div_div by lia. reflexivity.
    + rewrite Hp1, (Z.rem_mul_r m (2 ^ Z.of_nat k) 2) by lia.
      rewrite Zmod_odd.
      pose proof (Z.mod_pos_bound m (2 ^ Z.of_nat k) Hp) as Hr.
      destruct (Z.odd (m / 2 ^ Z.of_nat k)); cbn [orb].
      * symmetry. apply negb_true_iff, Z.eqb_neq. lia.
      * rewrite Z.mul_0_r, Z.add_0_r. reflexivity.
Qed.

(** What the shift by [n >= 1] digits and the rounding of the record make
    of [P]: a multiple of [2^n] that is nearest to [P], the even one of
    two. *)
Lemma shr_nearest (P : Z) (n : positive) :
  0 <= P ->
  let mrs := iter_pos shr_1 n (Build_shr_record P false false) in
  let m1 := round_nearest_even (shr_m mrs) (loc_of_shr_record mrs) in
  2 * Z.abs (m1 * 2 ^ Z.pos n - P) <= 2 ^ Z.pos n
  /\ (2 * Z.abs (m1 * 2 ^ Z.pos n - P) = 2 ^ Z.pos n -> Z.even m1 = true).
Proof.
  intros HP. cbv zeta. rewrite iter_pos_nat.
  destruct (Pos2Nat.is_succ n) as [k Hk]. rewrite Hk.
  rewrite shr_steps_bits by exact HP.
  assert (Hn : Z.pos n = Z.of_nat k + 1) by lia.
  rewrite Hn.
  assert (Hp : 0 < 2 ^ Z.of_nat k) by (apply pow2_pos; lia).
  assert (Hp1 : 2 ^ (Z.of_nat k + 1) = 2 ^ Z.of_nat k * 2)
    by (rewrite Z.pow_add_r by lia; reflexivity).
  pose proof (Z.div_mod P (2 ^ (Z.of_nat k + 1)) ltac:(lia)) as Hdm.
  pose proof (Z.rem_mul_r P (2 ^ Z.of_nat k) 2 ltac:(lia) ltac:(lia)) as Hrem.
  rewrite <- Hp1 in Hrem. rewrite Zmod_odd in Hrem.
  pose proof (Z.mod_pos_bound P (2 ^ Z.of_nat k) Hp) as Hlow.
  set (q := P / 2 ^ (Z.of_nat k + 1)) in *.
  set (low := P mod 2 ^ Z.of_nat k) in *.
  set (H2 := 2 ^ Z.of_nat k) in *.
  rewrite Hrem in Hdm. rewrite Hp1. cbn [shr_m].
  destruct (Z.odd (P / H2)); destruct (Z.eqb_spec low 0) as [E|E];
    cbn [negb loc_of_shr_record round_nearest_even].
  - (* a tie *)
    destruct (Z.even q) eqn:Eq.
    + split; [lia|]. intros _. exact Eq.
    + split; [lia|]. intros _.
      change (q + 1) with (Z.succ q). rewrite Z.even_succ.
      now rewrite <- Z.negb_even, Eq.
  - split; [lia|lia].
  - split; [lia|lia].
  - split; [lia|lia].
Qed.

(** Two such multiples are the same. *)
Lemma nearest_unique (P a b H : Z) :
  0 < H ->
  2 * Z.abs (a * H - P) <= H ->
  (2 * Z.abs (a * H - P) = H -> Z.even a = true) ->
  2 * Z.abs (b * H - P) <= H ->
  (2 * Z.abs (b * H - P) = H -> Z.even b = true) ->
  a = b.
Proof.
  intros HH Ha Hae Hb Hbe.
  destruct (Z.lt_trichotomy a b) as [Hlt|[Heq|Hgt]]; [|exact Heq|]; exfalso.
  - assert (E : b = a + 1) by nia. subst b.
    assert (Ta : 2 * Z.abs (a * H - P) = H) by nia.
    assert (Tb : 2 * Z.abs ((a + 1) * H - P) = H) by nia.
    specialize (Hae Ta). specialize (Hbe Tb).
    change (a + 1) with (Z.succ a) in Hbe. rewrite Z.even_succ in Hbe.
    rewrite <- Z.negb_even, Hae in Hbe. discriminate.
  - assert (E : a = b + 1) by nia. subst a.
    assert (Tb : 2 * Z.abs (b * H - P) = H) by nia.
    assert (Ta : 2 * Z.abs ((b + 1) * H - P) = H) by nia.
    specialize (Hae Ta). specialize (Hbe Tb).
    change (b + 1) with (Z.succ b) in Hae. rewrite Z.even_succ in Hae.
    rewrite <- Z.negb_even, Hbe in Hae. discriminate.
Qed.

(** A mantissa [P] at exponent [E] rounds to the valid [float] of the same
    number of digits, [n] exponents up, that is nearest to it. *)
Lemma binary_round_nearest (s : bool) (P c : positive) (E n : Z) :
  F32.valid (S754_finite s c (E + n)) = true -> 0 <= n ->
  Z.pos (digits2_pos P) = Z.pos (digits2_pos c) + n ->
  2 * Z.abs (Z.pos c * 2 ^ n - Z.pos P) <= 2 ^ n ->
  (2 * Z.abs (Z.pos c * 2 ^ n - Z.pos P) = 2 ^ n ->
   Z.even (Z.pos c) = true) ->
  binary_round F32.prec F32.emax s P E = S754_finite s c (E + n).
Proof.
  intros Hv Hn Hd Hnear Htie.
  destruct (valid_canonical s c (E + n) Hv) as [Hc Hb].
  assert (Hf : fexp F32.prec F32.emax (Z.pos (digits2_pos P) + E) = E + n).
  { rewrite Hd.
    replace (Z.pos (digits2_pos c) + n + E)
      with (Z.pos (digits2_pos c) + (E + n)) by lia.
    exact Hc. }
  unfold binary_round, shl_align. rewrite Hf.
  replace (E + n - E) with n by lia.
  destruct n as [|p|p]; try lia.
  - (* nothing to shift *)
    change (2 ^ 0) with 1 in Hnear. rewrite Z.add_0_r in *.
    assert (Z.pos c = Z.pos P) by lia.
    assert (c = P) by (apply Pos2Z.inj; assumption). subst c.
    now apply round_aux_valid_in_place.
  - unfold binary_round_aux, shr_fexp. cbn [Zdigits2 shr_record_of_loc].
    rewrite Hf. replace (E + Z.pos p - E) with (Z.pos p) by lia.
    cbn [shr].
    pose proof (shr_nearest (Z.pos P) p ltac:(lia)) as H. cbv zeta in H.
    destruct H as [H1 H2].
    set (m1 := round_nearest_even _ _) in *.
    assert (Hm1 : m1 = Z.pos c).
    { apply (nearest_unique (Z.pos P) m1 (Z.pos c) (2 ^ Z.pos p));
        [apply pow2_pos; lia|assumption..]. }
    rewrite Hm1. cbn [Zdigits2 shr_record_of_loc].
    rewrite Hc, Z.sub_diag. cbn [shr shr_m].
    unfold F32.emax, F32.prec.
    replace (E + Z.pos p <=? 128 - 24) with true
      by (symmetry; apply Z.leb_le; lia).
    reflexivity.
Qed.

(** A mantissa of [24 + n] digits, [n >= 1], rounds to a [float] of 24
    digits, [n] exponents up, that is within half a unit of it and does not
    pass a bound [K] of 24 digits. *)
Lemma binary_round_near (s : bool) (P : positive) (E n K : Z) :
  1 <= n -> -149 <= E + n <= 104 ->
  2 ^ (23 + n) <= Z.pos P <= K * 2 ^ n -> K < 2 ^ 24 ->
  exists c : positive,
    2 ^ 23 <= Z.pos c <= K
    /\ 2 * Z.abs (Z.pos c * 2 ^ n - Z.pos P) <= 2 ^ n
    /\ binary_round F32.prec F32.emax s P E = S754_finite s c (E + n).
Proof.
  intros Hn He HP HK.
  pose proof (pow2_pos n ltac:(lia)) as Hp.
  assert (Hsplit : 2 ^ (23 + n) = 2 ^ 23 * 2 ^ n)
    by (apply Z.pow_add_r; lia).
  assert (Hsplit' : 2 ^ (24 + n) = 2 ^ 24 * 2 ^ n)
    by (apply Z.pow_add_r; lia).
  assert (Hd : Z.pos (digits2_pos P) = 24 + n).
  { apply digits2_pos_unique; [|lia].
    replace (24 + n - 1) with (23 + n) by lia. nia. }
  assert (Hf : fexp F32.prec F32.emax (Z.pos (digits2_pos P) + E) = E + n)
    by (rewrite Hd; unfold fexp, emin, F32.prec, F32.emax; lia).
  unfold binary_round, shl_align. rewrite Hf.
  replace (E + n - E) with n by lia.
  destruct n as [|p|p]; try lia.
  unfold binary_round_aux, shr_fexp. cbn [Zdigits2 shr_record_of_loc].
  rewrite Hf. replace (E + Z.pos p - E) with (Z.pos p) by lia.
  cbn [shr].
  pose proof (shr_nearest (Z.pos P) p ltac:(lia)) as H. cbv zeta in H.
  destruct H as [H1 _].
  set (m1 := round_nearest_even _ _) in *.
  change (2 ^ 23) with 8388608 in *. change (2 ^ 24) with 16777216 in *.
  assert (Hlo : 8388608 <= m1) by nia.
  assert (Hhi : m1 <= K) by nia.
  destruct m1 as [|c|c] eqn:Em; try lia.
  exists c. split; [lia|]. split; [exact H1|].
  assert (Hdc : Z.pos (digits2_pos c) = 24).
  { apply digits2_pos_unique; [|lia].
    change (2 ^ (24 - 1)) with 8388608. change (2 ^ 24) with 16777216.
    lia. }
  assert (Hc : fexp F32.prec F32.emax (Z.pos (digits2_pos c) + (E + Z.pos p))
               = E + Z.pos p)
    by (rewrite Hdc; unfold fexp, emin, F32.prec, F32.emax; lia).
  cbn [Zdigits2 shr_record_of_loc]. rewrite Hc, Z.sub_diag. cbn [shr shr_m].
  unfold F32.emax, F32.prec.
  replace (E + Z.pos p <=? 128 - 24) with true
    by (symmetry; apply Z.leb_le; lia).
  reflexivity.
Qed.

(** *** From [maxHz] to 200 and back *)

(** An exponent under a power of two. *)
Lemma pow2_lt_inv (a b : Z) : 0 <= b -> 2 ^ a < 2 ^ b -> a < b.
Proof.
  intros Hb H. destruct (Z_lt_le_dec a b) as [Hlt|Hge]; [exact Hlt|].
  assert (2 ^ b <= 2 ^ a) by (apply Z.pow_le_mono_r; lia). lia.
Qed.

(** For every [float] [x] from 0 up to but not [2^27], [x + (200 − x)] is
    200: the difference is exact from 72 on, and below that its rounding
    error is too small to move the sum off 200. *)
Lemma add_sub_200 (x : float) :
  F32.valid x = true -> (F32.zero <=? x)%f32 = true ->
  (x <? Design.f2p27)%f32 = true ->
  F32.valid (f200 - x)%f32 = true /\ (x + (f200 - x))%f32 = f200.
Proof.
  intros Hv H0 H27.
  destruct x as [s|s| |s m e]; try discriminate.
  { destruct s; split; reflexivity. }
  { destruct s; discriminate. }
  destruct s; [discriminate|].
  assert (Hn : Design.nonneg (S754_finite false m e) = true)
    by (unfold Design.nonneg; now rewrite Hv).
  rewrite (ltb_units _ Design.f2p27 Hn eq_refl) in H27. apply Z.ltb_lt in H27.
  cbn [Design.units Design.f2p27] in H27.
  destruct (valid_finite false m e Hv) as (He & Hd & C).
  pose proof (units_bounds false m e Hv) as [Ulo _].
  cbn [Design.units] in Ulo.
  pose proof (digits2_pos_bounds m) as [Mlo Mhi].
  assert (Hm24 : Z.pos m < 2 ^ 24).
  { assert (2 ^ Z.pos (digits2_pos m) <= 2 ^ 24)
      by (apply Z.pow_le_mono_r; lia). lia. }
  assert (He3 : e <= 3).
  { destruct C as [->|C]; [lia|]. rewrite C in Ulo.
    change (Z.pos 8388608 * 2 ^ (4 + 149)) with (2 ^ 176) in H27.
    assert (Hlt : 2 ^ (24 - 1 + (e + 149)) < 2 ^ 176) by lia.
    apply pow2_lt_inv in Hlt; lia. }
  pose proof (pow2_pos (e + 149) ltac:(lia)) as Hpe.
  pose proof (pow2_pos (3 - e) ltac:(lia)) as Hp3.
  set (T := 25 * 2 ^ (3 - e)).
  assert (HT : T * 2 ^ (e + 149) = Z.pos 13107200 * 2 ^ (-16 + 149)).
  { unfold T. rewrite <- Z.mul_assoc, <- Z.pow_add_r by lia.
    replace (3 - e + (e + 149)) with 152 by lia. reflexivity. }
  assert (V200 : F32.valid f200 = true) by reflexivity.
  destruct (Z_lt_le_dec (Z.abs (T - Z.pos m)) (2 ^ 24)) as [Hsmall|Hbig].
  - (* the difference is exact *)
    destruct (Z.eq_dec (T - Z.pos m) 0) as [E0|E0].
    + (* [x] is 200 *)
      assert (Hj : 3 - e = 19).
      { destruct (Z_lt_le_dec 19 (3 - e)) as [Hgt|Hle].
        - assert (2 ^ 20 <= 2 ^ (3 - e)) by (apply Z.pow_le_mono_r; lia).
          change (2 ^ 20) with 1048576 in *.
          change (2 ^ 24) with 16777216 in *. unfold T in *. lia.
        - destruct (Z.eq_dec (3 - e) 19) as [E|E]; [exact E|].
          assert (2 ^ (3 - e) <= 2 ^ 18) by (apply Z.pow_le_mono_r; lia).
          change (2 ^ 18) with 262144 in *.
          destruct C as [->|C]; [lia|]. rewrite C in Mlo.
          change (2 ^ (24 - 1)) with 8388608 in Mlo. unfold T in *. lia. }
      assert (E16 : e = -16) by lia. subst e.
      assert (Em : m = 13107200%positive).
      { apply Pos2Z.inj. unfold T in E0. change (2 ^ (3 - -16)) with 524288
          in E0. lia. }
      subst m. split; reflexivity.
    + set (sN := T - Z.pos m <? 0).
      destruct (representable sN (Z.to_pos (Z.abs (T - Z.pos m))) e)
        as (md & ed & Vd & Hed & Hmd).
      { rewrite Z2Pos.id by lia. exact Hsmall. }
      { lia. }
      rewrite Z2Pos.id in Hmd by lia.
      assert (Hval : cond_Zopp sN (Z.pos md * 2 ^ (ed + 149))
                     = (T - Z.pos m) * 2 ^ (e + 149)).
      { rewrite Hmd, <- Z.mul_assoc, <- Z.pow_add_r by lia.
        replace (e - ed + (ed + 149)) with (e + 149) by lia.
        unfold sN. destruct (Z.ltb_spec (T - Z.pos m) 0);
          cbn [cond_Zopp]; lia. }
      assert (Hsub : (f200 - S754_finite false m e)%f32
                     = S754_finite sN md ed).
      { apply sub_exact; [exact V200|exact Hv|exact Vd|].
        cbn [cond_Zopp]. rewrite Hval, <- HT. ring. }
      rewrite Hsub. split; [exact Vd|].
      apply add_exact; [exact Hv|exact Vd|exact V200|].
      cbn [cond_Zopp]. rewrite Hval, <- HT. ring.
  - (* the difference is rounded to 24 digits at exponent -16 *)
    assert (He17 : e <= -17).
    { destruct (Z_le_gt_dec e (-17)) as [H|H]; [exact H|exfalso].
      assert (2 ^ (3 - e) <= 2 ^ 19) by (apply Z.pow_le_mono_r; lia).
      change (2 ^ 19) with 524288 in *. change (2 ^ 24) with 16777216 in *.
      unfold T in *. lia. }
    set (n := -16 - e).
    pose proof (pow2_pos n ltac:(unfold n; lia)) as Hpn.
    assert (HTn : T = 13107200 * 2 ^ n).
    { unfold T, n. replace (3 - e) with (19 + (-16 - e)) by lia.
      rewrite Z.pow_add_r by lia. change (2 ^ 19) with 524288. lia. }
    assert (Hpos : 2 ^ 24 <= T - Z.pos m) by lia.
    assert (Hn2 : n = 1 \/ 4 <= 2 ^ n).
    { destruct (Z.eq_dec n 1) as [E|E]; [left; exact E|right].
      change 4 with (2 ^ 2). apply Z.pow_le_mono_r; unfold n in *; lia. }
    (* the difference *)
    unfold F32.sub, f200. cbn [SFsub]. cbv zeta.
    rewrite (Z.min_r (-16) e) by lia.
    pose proof (shl_align_units 13107200 (-16) e ltac:(lia)) as A200.
    pose proof (shl_align_units m e e ltac:(lia)) as Am.
    rewrite <- HT in A200.
    apply Z.mul_reg_r in A200; [|lia]. apply Z.mul_reg_r in Am; [|lia].
    cbn [cond_Zopp]. rewrite A200, Am.
    destruct (T - Z.pos m) as [|P1|P1] eqn:EP; try lia.
    cbn [binary_normalize].
    destruct (binary_round_near false P1 e n 13107200)
      as (c1 & Hc1 & Hnear & Hround).
    { unfold n; lia. }
    { unfold n; lia. }
    { split; [|lia]. rewrite Z.pow_add_r by (unfold n; lia).
      change (2 ^ 23) with 8388608. change (2 ^ 24) with 16777216 in *.
      destruct Hn2 as [->|Hn2]; [change (2 ^ 1) with 2; lia|lia]. }
    { reflexivity. }
    rewrite Hround.
    assert (Vd : F32.valid (S754_finite false c1 (e + n)) = true)
      by (rewrite <- Hround; apply binary_round_valid).
    split; [exact Vd|].
    (* the sum *)
    unfold F32.add. cbn [SFadd]. cbv zeta.
    rewrite (Z.min_l e (e + n)) by (unfold n; lia).
    pose proof (shl_align_units c1 (e + n) e ltac:(unfold n; lia)) as Ac.
    replace (e + n + 149) with (n + (e + 149)) in Ac by lia.
    rewrite (Z.pow_add_r 2 n (e + 149)) in Ac by (unfold n; lia).
    rewrite Z.mul_assoc in Ac. apply Z.mul_reg_r in Ac; [|lia].
    pose proof (shl_align_units m e e ltac:(lia)) as Am'.
    apply Z.mul_reg_r in Am'; [|lia].
    cbn [cond_Zopp]. rewrite Am', Ac.
    destruct (Z.pos m + Z.pos c1 * 2 ^ n) as [|P2|P2] eqn:EP2; try lia.
    cbn [binary_normalize].
    replace (S754_finite false 13107200 (-16))
      with (S754_finite false 13107200 (e + n))
      by (f_equal; unfold n; lia).
    change (2 ^ 23) with 8388608 in *. change (2 ^ 24) with 16777216 in *.
    apply binary_round_nearest.
    + replace (e + n) with (-16) by (unfold n; lia). reflexivity.
    + unfold n; lia.
    + change (Z.pos (digits2_pos 13107200)) with 24.
      apply digits2_pos_unique; [|unfold n; lia].
      replace (24 + n - 1) with (23 + n) by lia.
      rewrite !Z.pow_add_r by (unfold n; lia).
      change (2 ^ 23) with 8388608. change (2 ^ 24) with 16777216.
      rewrite <- EP2. nia.
    + rewrite <- EP2. lia.
    + intros _. reflexivity.
Qed.

(** So the filter control at 1 gives 200 Hz whenever [maxHz] is from 0 up
    to but not [2^27]. *)
Lemma cutoff_at_one (sampleRate : double) :
  let maxHz := double_to_float (F64.mul sampleRate d0_45) in
  (F32.zero <=? maxHz)%f32 = true -> (maxHz <? Design.f2p27)%f32 = true ->
  Design.cutoffOf sampleRate F32.one = f200.
Proof.
  cbv zeta. intros H0 H27. unfold Design.cutoffOf, jmap.
  change (F32.one - F32.zero)%f32 with F32.one.
  destruct (add_sub_200 _ (double_to_float_valid _) H0 H27) as [Vd Hsum].
  rewrite (mul_one _ Vd), (div_one _ Vd). exact Hsum.
Qed.

(** ** The saw oscillator *)

(** The compensator's second tap, [hfCompA1 = -1.5f], added: the same as
    [1.5f] times the tap subtracted. *)
Lemma hfCompA1_tap a p : (a + hfCompA1 * p)%f32 = (a - f1_5 * p)%f32.
Proof.
  change hfCompA1 with (SFopp f1_5). unfold F32.add, F32.sub, F32.mul.
  now rewrite SFmul_opp_l, SFadd_opp_r.
Qed.

(** The step of the core is the design's step taken from the stored phase. *)
Lemma saw_getNextSample_design {L : Library} (s : Saw.t) :
  Saw.getNextSample s
  = (Design.sawSample (Saw.phase s) s, Design.sawNext (Saw.phase s) s).
Proof.
  unfold Saw.getNextSample, Design.sawSample, Design.sawNext,
    Design.sawPhase, Design.sawOsc.
  cbn [Saw.phase Saw.osc Saw.previousInput Saw.w Saw.beta Saw.set_osc
       Saw.set_previousInput Saw.set_phase].
  rewrite hfCompA1_tap.
  destruct (Saw.phase s + Saw.w s >=? F32.one)%f32; reflexivity.
Qed.

(** C1. One call of [getNextSample] on any core, with any sine: the sample
    returned is [(2.5·osc' − 1.5·previousInput − (0.376 − 0.752·w)) /
    max(0.001, 1 − 2·w)] for
    [osc' = 0.5·(osc + sin(2π·(phase + osc·beta)))];
    [osc] and [previousInput] both become [osc']; the phase advances by [w]
    and loses 1 once when the sum reaches 1; [w] and [beta] stay. *)
Theorem saw_getNextSample_steps {L : Library} (s : Saw.t) :
  let feedbackPhase := (Saw.phase s + Saw.osc s * Saw.beta s)%f32 in
  let input := sinf (twoPi * feedbackPhase)%f32 in
  let osc' := (f0_5 * (Saw.osc s + input))%f32 in
  let filtered := (hfCompA0 * osc' - f1_5 * Saw.previousInput s)%f32 in
  let dc := (f0_376 - f0_752 * Saw.w s)%f32 in
  let norm := jmax minNorm (F32.one - f2 * Saw.w s)%f32 in
  let advanced := (Saw.phase s + Saw.w s)%f32 in
  let phase' :=
    if (advanced >=? F32.one)%f32 then (advanced - F32.one)%f32
    else advanced in
  Saw.getNextSample s
  = (((filtered - dc) / norm)%f32,
     Saw.mk phase' osc' osc' (Saw.w s) (Saw.beta s)).
Proof.
  cbv zeta. rewrite saw_getNextSample_design. reflexivity.
Qed.

(** The literals of the saw step are the decimal numbers they stand for,
    rounded to [float]. *)
Example saw_literals :
  hfCompA0 = F32.of_decimal 25 10 /\ f1_5 = F32.of_decimal 15 10
  /\ hfCompA1 = SFopp f1_5 /\ minNorm = F32.of_decimal 1 1000
  /\ f0_376 = F32.of_decimal 376 1000 /\ f0_752 = F32.of_decimal 752 1000
  /\ f0_5 = F32.of_decimal 5 10.
Proof. repeat split; vm_compute; reflexivity. Qed.

(** The first sample of a fresh core tuned to 440 Hz at 44.1 kHz, with the
    polynomial sine. *)
Example saw_first_sample :
  fst (Saw.getNextSample (L := Example.library)
         (Saw.setFrequency Example.f440 d44100 Saw.init))
  = SFopp f0_376.
Proof. vm_compute. reflexivity. Qed.

(** What [setFrequency] does when the sample rate is not [<= 0]. *)
Lemma saw_setFrequency_set f sr s :
  F64.leb sr F64.zero = false ->
  Saw.setFrequency f sr s
  = let w' := jlimit F32.zero f0_49 (f / double_to_float sr)%f32 in
    Saw.mk (Saw.phase s) (Saw.osc s) (Saw.previousInput s) w'
           (Design.betaOf w').
Proof. intros H. unfold Saw.setFrequency. rewrite H. reflexivity. Qed.

Lemma ltb_leb_false x y : SFltb x y = true -> SFleb y x = false.
Proof.
  unfold SFltb, SFleb. rewrite (SFcompare_antisym x y).
  destruct (SFcompare x y) as [[]|]; simpl; congruence.
Qed.

(** C2, as amended.  With [sr <= 0] the core is left as it is.  With
    [sr > 0] the call stores [w = jlimit(0, 0.49, f/(float)sr)] and
    [beta = 13·(0.5 − w)⁴] and nothing else; [w] then lies in [0, 0.49]
    whenever the quotient [f/(float)sr] is a number, and is NaN when the
    quotient is NaN. *)
Theorem saw_setFrequency_spec (f : float) (sr : double) (s : Saw.t) :
  (F64.leb sr F64.zero = true -> Saw.setFrequency f sr s = s)
  /\ (F64.ltb F64.zero sr = true ->
      let quotient := (f / double_to_float sr)%f32 in
      let w' := jlimit F32.zero f0_49 quotient in
      Saw.setFrequency f sr s
      = Saw.mk (Saw.phase s) (Saw.osc s) (Saw.previousInput s) w'
               (f13 * (f0_5 - w') * (f0_5 - w') * (f0_5 - w')
                * (f0_5 - w'))%f32
      /\ (F32.is_nan quotient = false ->
          Design.within F32.zero f0_49 w' = true)
      /\ (F32.is_nan quotient = true -> w' = S754_nan)).
Proof.
  split.
  - intros H. unfold Saw.setFrequency. now rewrite H.
  - intros H. cbv zeta. split; [|split].
    + rewrite saw_setFrequency_set by (now apply ltb_leb_false).
      reflexivity.
    + intros Hq. now apply jlimit_within.
    + intros Hq. destruct (f / double_to_float sr)%f32; try discriminate.
      apply jlimit_nan.
Qed.

(** C2's theorem at work: a zero sample rate changes nothing, and 440 Hz at
    44.1 kHz gives a [w] inside the limits. *)
Lemma saw_setFrequency_spec_witness :
  Saw.setFrequency Example.f440 F64.zero Saw.init = Saw.init
  /\ Design.within F32.zero f0_49
       (jlimit F32.zero f0_49 (Example.f440 / double_to_float d44100)%f32)
     = true.
Proof.
  split.
  - apply (proj1 (saw_setFrequency_spec Example.f440 F64.zero Saw.init)).
    reflexivity.
  - apply (proj2 (saw_setFrequency_spec Example.f440 d44100 Saw.init)).
    + reflexivity.
    + vm_compute. reflexivity.
Defined.

(** C2 as first stated fails: the sample rate [2^-200] is positive, its
    conversion to [float] is 0, and at frequency 0 the quotient [0/0] is NaN,
    which [jlimit] hands through: [w] is not in [0, 0.49]. *)
Lemma saw_setFrequency_w_outside :
  F64.valid Example.dTiny = true
  /\ F64.ltb F64.zero Example.dTiny = true
  /\ Saw.w (Saw.setFrequency F32.zero Example.dTiny Saw.init) = S754_nan
  /\ Design.within F32.zero f0_49
       (Saw.w (Saw.setFrequency F32.zero Example.dTiny Saw.init)) = false.
Proof. repeat split; vm_compute; reflexivity. Qed.

(** [reset] writes the three running variables only. *)
Lemma saw_reset_fields (s : Saw.t) :
  Saw.reset s = Saw.mk F32.zero F32.zero F32.zero (Saw.w s) (Saw.beta s).
Proof. reflexivity. Qed.

(** C5, as amended.  After [reset] the core's [phase], [osc] and
    [previousInput] are 0, and [w] and [beta] are what they were. *)
Theorem saw_reset_spec (s : Saw.t) :
  Saw.phase (Saw.reset s) = F32.zero
  /\ Saw.osc (Saw.reset s) = F32.zero
  /\ Saw.previousInput (Saw.reset s) = F32.zero
  /\ Saw.w (Saw.reset s) = Saw.w s
  /\ Saw.beta (Saw.reset s) = Saw.beta s.
Proof. repeat split. Qed.

(** C5 as first stated fails: a core tuned to 440 Hz at 44.1 kHz keeps its
    [w] and [beta] through [reset], and neither is 0. *)
Lemma saw_reset_keeps_frequency :
  let s := Saw.reset (Saw.setFrequency Example.f440 d44100 Saw.init) in
  Saw.w s = S754_finite false 10713070 (-30)
  /\ SFeqb (Saw.w s) F32.zero = false
  /\ SFeqb (Saw.beta s) F32.zero = false.
Proof. repeat split; vm_compute; reflexivity. Qed.

(** ** The pulse oscillator *)

(** The phase loop leaves with [x] less [k] ones as soon as that is not
    [>= 1], given fuel for [k] subtractions and the exit test. *)
Lemma wrapShiftedPhase_exit (k : nat) : forall (fuel : nat) (x : float),
  (forall j, (j < k)%nat -> (Design.lessOnes j x >=? F32.one)%f32 = true) ->
  (Design.lessOnes k x >=? F32.one)%f32 = false ->
  (k < fuel)%nat ->
  Pulse.wrapShiftedPhase fuel x = Some (Design.lessOnes k x).
Proof.
  induction k as [|k IH]; intros fuel x Hbelow Hexit Hfuel;
    (destruct fuel as [|fuel]; [lia|]);
    cbn [Pulse.wrapShiftedPhase Design.lessOnes] in *.
  - now rewrite Hexit.
  - assert (H0 : (x >=? F32.one)%f32 = true) by (apply (Hbelow O); lia).
    rewrite H0. apply IH; [|assumption|lia].
    intros j Hj. apply (Hbelow (S j)). lia.
Qed.

(** Conversely a result of the loop is [x] less some ones, the first such
    value that is not [>= 1]. *)
Lemma wrapShiftedPhase_result (fuel : nat) : forall (x y : float),
  Pulse.wrapShiftedPhase fuel x = Some y ->
  exists k, (k < fuel)%nat /\ y = Design.lessOnes k x
    /\ (y >=? F32.one)%f32 = false
    /\ forall j, (j < k)%nat ->
         (Design.lessOnes j x >=? F32.one)%f32 = true.
Proof.
  induction fuel as [|fuel IH]; intros x y H;
    cbn [Pulse.wrapShiftedPhase] in H; [discriminate|].
  destruct (x >=? F32.one)%f32 eqn:E.
  - destruct (IH _ _ H) as (k & Hk & Hy & Hexit & Hbelow).
    exists (S k). repeat split; [lia|assumption|assumption|].
    intros [|j] Hj; [exact E|]. apply Hbelow. lia.
  - injection H as <-. exists O. repeat split; [lia|assumption|].
    intros j Hj. lia.
Qed.

(** More fuel does not change a result. *)
Lemma wrapShiftedPhase_more_fuel (fuel fuel' : nat) (x y : float) :
  Pulse.wrapShiftedPhase fuel x = Some y -> (fuel <= fuel')%nat ->
  Pulse.wrapShiftedPhase fuel' x = Some y.
Proof.
  intros H Hle. destruct (wrapShiftedPhase_result _ _ _ H)
    as (k & Hk & -> & Hexit & Hbelow).
  apply wrapShiftedPhase_exit; [assumption|assumption|lia].
Qed.

(** The trailing edge's inlined body is the core's step taken from the
    shifted phase. *)
Lemma pulse_getNextSample_design {L : Library} (fuel : nat) (p : Pulse.t) :
  Pulse.getNextSample fuel p
  = let le := Saw.getNextSample (Pulse.leadingEdge p) in
    match
      Pulse.wrapShiftedPhase fuel
        (Saw.phase (snd le) + Pulse.pulseWidth p)%f32
    with
    | None => None
    | Some shiftedPhase =>
        let te :=
          Saw.getNextSample
            (Saw.set_phase shiftedPhase (Pulse.trailingEdge p)) in
        Some (jlimit fm1 F32.one (fst le - fst te)%f32,
              Pulse.mk (snd le) (snd te) (Pulse.pulseWidth p))
    end.
Proof.
  unfold Pulse.getNextSample. cbv zeta.
  destruct (Saw.getNextSample (Pulse.leadingEdge p)) as [leading le] eqn:E.
  cbn [fst snd Pulse.set_leadingEdge Pulse.leadingEdge Pulse.pulseWidth
       Pulse.trailingEdge].
  destruct (Pulse.wrapShiftedPhase fuel _) as [shiftedPhase|]; [|reflexivity].
  rewrite (saw_getNextSample_design (Saw.set_phase shiftedPhase _)).
  unfold Design.sawSample, Design.sawNext, Design.sawPhase, Design.sawOsc.
  cbn [fst snd Saw.phase Saw.osc Saw.previousInput Saw.w Saw.beta
       Saw.set_osc Saw.set_previousInput Saw.set_phase
       Pulse.set_trailingEdge Pulse.leadingEdge Pulse.pulseWidth
       Pulse.trailingEdge].
  rewrite hfCompA1_tap.
  destruct (shiftedPhase + Saw.w (Pulse.trailingEdge p) >=? F32.one)%f32;
    reflexivity.
Qed.

Lemma saw_getNextSample_tuning {L : Library} (s : Saw.t) :
  Saw.w (snd (Saw.getNextSample s)) = Saw.w s
  /\ Saw.beta (snd (Saw.getNextSample s)) = Saw.beta s.
Proof. rewrite saw_getNextSample_design. split; reflexivity. Qed.

(** *** The phase loop ends on phases *)

Lemma saw_getNextSample_inUnit {L : Library} (s : Saw.t) :
  Design.inUnit (Saw.phase s) = true -> Design.inUnit (Saw.w s) = true ->
  Design.inUnit (Saw.phase (snd (Saw.getNextSample s))) = true.
Proof.
  intros Hp Hw. rewrite saw_getNextSample_design.
  cbn [snd Design.sawNext Saw.phase]. unfold Design.sawPhase.
  exact (proj1 (wrap_once_inUnit _ (add_inUnit _ _ Hp Hw))).
Qed.

(** On a pulse oscillator in range, [getNextSample] returns with fuel for
    two rounds of the phase loop; the effective trailing phase is the
    shifted phase less 1 once if it is [>= 1], a phase again; and the
    oscillator stays in range. *)
Lemma pulse_getNextSample_returns {L : Library} (fuel : nat) (p : Pulse.t) :
  Design.pulseInRange p = true -> (2 <= fuel)%nat ->
  let le := Saw.getNextSample (Pulse.leadingEdge p) in
  let shifted := (Saw.phase (snd le) + Pulse.pulseWidth p)%f32 in
  let effective :=
    if (shifted >=? F32.one)%f32 then (shifted - F32.one)%f32 else shifted in
  let te :=
    Saw.getNextSample (Saw.set_phase effective (Pulse.trailingEdge p)) in
  Pulse.getNextSample fuel p
  = Some (jlimit fm1 F32.one (fst le - fst te)%f32,
          Pulse.mk (snd le) (snd te) (Pulse.pulseWidth p))
  /\ Design.inUnit effective = true
  /\ Design.pulseInRange (Pulse.mk (snd le) (snd te) (Pulse.pulseWidth p))
     = true.
Proof.
  unfold Design.pulseInRange. intros H Hfuel. cbv zeta.
  apply andb_true_iff in H. destruct H as [H Hpw].
  apply andb_true_iff in H. destruct H as [Hph Hw].
  pose proof (saw_getNextSample_inUnit _ Hph Hw) as Hph'.
  pose proof (add_inUnit _ _ Hph' Hpw) as Hshifted.
  split; [|split].
  - rewrite pulse_getNextSample_design. cbv zeta.
    now rewrite (wrapShiftedPhase_underTwo fuel _ Hshifted Hfuel).
  - exact (proj1 (wrap_once_inUnit _ Hshifted)).
  - cbn [Pulse.leadingEdge Pulse.pulseWidth].
    rewrite Hph', Hpw.
    destruct (saw_getNextSample_tuning (Pulse.leadingEdge p)) as [-> _].
    now rewrite Hw.
Qed.

(** C3, as amended.  When the phase loop ends after [k] subtractions and
    there is fuel for them, [getNextSample] takes the leading core's full
    step for [L]; the effective trailing phase is the leading core's new
    phase plus the pulse width, less 1 as often as the sum is [>= 1]; the
    trailing core's step is taken from that phase in place of its stored one
    for [T], so that its new phase is the effective phase plus [w], less 1
    once if that reaches 1; the result is [jlimit(-1, 1, L − T)], within
    [-1, 1] whenever [L − T] is a number.  On an oscillator whose leading
    phase, [w] and pulse width are from 0 up to but not 1 (or NaN) the loop
    does end, after one subtraction at most, the effective phase is again
    from 0 up to but not 1 (or NaN), and the oscillator stays so.
    [setPulseWidth] stores [jlimit(0.01, 0.99, pw)]. *)
Theorem pulse_getNextSample_spec {L : Library} (fuel k : nat) (p : Pulse.t)
    (pw : float) :
  let le := Saw.getNextSample (Pulse.leadingEdge p) in
  let shifted := (Saw.phase (snd le) + Pulse.pulseWidth p)%f32 in
  let effective := Design.lessOnes k shifted in
  let te :=
    Saw.getNextSample (Saw.set_phase effective (Pulse.trailingEdge p)) in
  let pulse := jlimit fm1 F32.one (fst le - fst te)%f32 in
  ((forall j, (j < k)%nat ->
      (Design.lessOnes j shifted >=? F32.one)%f32 = true) ->
   (effective >=? F32.one)%f32 = false ->
   (k < fuel)%nat ->
   Pulse.getNextSample fuel p
   = Some (pulse, Pulse.mk (snd le) (snd te) (Pulse.pulseWidth p))
   /\ Saw.phase (snd te)
      = (let advanced := (effective + Saw.w (Pulse.trailingEdge p))%f32 in
         if (advanced >=? F32.one)%f32 then (advanced - F32.one)%f32
         else advanced)
   /\ (F32.is_nan (fst le - fst te)%f32 = false ->
       Design.within fm1 F32.one pulse = true))
  /\ (Design.pulseInRange p = true -> (2 <= fuel)%nat ->
      let wrapped :=
        if (shifted >=? F32.one)%f32 then (shifted - F32.one)%f32
        else shifted in
      Pulse.wrapShiftedPhase fuel shifted = Some wrapped
      /\ Design.inUnit wrapped = true
      /\ exists pulse' p',
           Pulse.getNextSample fuel p = Some (pulse', p')
           /\ Design.pulseInRange p' = true)
  /\ Pulse.setPulseWidth pw p
     = Pulse.mk (Pulse.leadingEdge p) (Pulse.trailingEdge p)
         (jlimit f0_01 f0_99 pw).
Proof.
  cbv zeta. split; [|split; [|reflexivity]].
  - intros Hbelow Hexit Hfuel. split; [|split].
    + rewrite pulse_getNextSample_design. cbv zeta.
      now rewrite (wrapShiftedPhase_exit k fuel _ Hbelow Hexit Hfuel).
    + rewrite saw_getNextSample_design. reflexivity.
    + intros Hnan. now apply jlimit_within.
  - intros Hrange Hfuel.
    destruct (pulse_getNextSample_returns fuel p Hrange Hfuel)
      as (Hget & Hin & Hnext).
    split; [|split; [exact Hin|]].
    + unfold Design.pulseInRange in Hrange.
      apply andb_true_iff in Hrange. destruct Hrange as [Hrange Hpw].
      apply andb_true_iff in Hrange. destruct Hrange as [Hph Hw].
      apply wrapShiftedPhase_underTwo; [|exact Hfuel].
      apply add_inUnit; [|exact Hpw].
      now apply saw_getNextSample_inUnit.
    + eexists. eexists. split; [exact Hget|exact Hnext].
Qed.

(** C3's theorem at work: a leading core halfway through its period and a
    pulse width of 0.99, where the phase loop subtracts once. *)
Lemma pulse_getNextSample_spec_witness :
  exists pulse p',
    Pulse.getNextSample (L := Example.library) 2 Example.pulseHalfway
    = Some (pulse, p')
    /\ Design.within fm1 F32.one pulse = true.
Proof.
  destruct (pulse_getNextSample_spec (L := Example.library) 2 1
              Example.pulseHalfway f0_5) as [H _].
  cbv zeta in H. destruct H as (Hget & _ & Hrange).
  - intros [|j] Hj; [vm_compute; reflexivity | lia].
  - vm_compute. reflexivity.
  - lia.
  - eexists. eexists. split; [exact Hget|].
    apply Hrange. vm_compute. reflexivity.
Defined.

(** C3 as first stated fails: [setPulseWidth] hands a NaN through, and the
    next sample is then NaN, which is not in [-1, 1]. *)
Lemma pulse_output_outside :
  option_map fst
    (Pulse.getNextSample (L := Example.library) 1
       (Pulse.setPulseWidth S754_nan Pulse.init))
  = Some S754_nan
  /\ Design.within fm1 F32.one S754_nan = false.
Proof. split; vm_compute; reflexivity. Qed.

(** Nor does every state have a next sample: from a leading phase of [2^25]
    a subtraction of 1 changes nothing and the phase loop has no exit,
    whatever the fuel. *)
Lemma wrapShiftedPhase_no_exit (fuel : nat) :
  Pulse.wrapShiftedPhase fuel Example.twoTo25 = None.
Proof.
  induction fuel as [|fuel IH]; [reflexivity|].
  cbn [Pulse.wrapShiftedPhase].
  change (Example.twoTo25 >=? F32.one)%f32 with true.
  change (Example.twoTo25 - F32.one)%f32 with Example.twoTo25.
  exact IH.
Qed.

Lemma pulse_getNextSample_no_exit {L : Library} (fuel : nat) :
  Pulse.getNextSample fuel
    (Pulse.mk (Saw.set_phase Example.twoTo25 Saw.init) Saw.init f0_5)
  = None.
Proof.
  rewrite pulse_getNextSample_design, saw_getNextSample_design. cbv zeta.
  change (Saw.phase (snd _) + _)%f32 with Example.twoTo25.
  now rewrite wrapShiftedPhase_no_exit.
Qed.

(** *** Both cores share their tuning *)

(** The tuning that [setFrequency] leaves depends on the core only when the
    call is refused. *)
Lemma saw_setFrequency_tuning f sr (a b : Saw.t) :
  Saw.w a = Saw.w b -> Saw.beta a = Saw.beta b ->
  Saw.w (Saw.setFrequency f sr a) = Saw.w (Saw.setFrequency f sr b)
  /\ Saw.beta (Saw.setFrequency f sr a) = Saw.beta (Saw.setFrequency f sr b).
Proof.
  intros Hw Hb. unfold Saw.setFrequency.
  destruct (F64.leb sr F64.zero); split; auto.
Qed.

Lemma pulse_init_sameTuning : Design.sameTuning Pulse.init.
Proof. split; reflexivity. Qed.

Lemma pulse_getNextSample_sameTuning {L : Library} fuel p x p' :
  Design.sameTuning p -> Pulse.getNextSample fuel p = Some (x, p') ->
  Design.sameTuning p'.
Proof.
  intros [Hw Hb] H. rewrite pulse_getNextSample_design in H. cbv zeta in H.
  destruct (Pulse.wrapShiftedPhase fuel _) as [ph|]; [|discriminate].
  assert (Hp' : p' = Pulse.mk (snd (Saw.getNextSample (Pulse.leadingEdge p)))
                       (snd (Saw.getNextSample
                               (Saw.set_phase ph (Pulse.trailingEdge p))))
                       (Pulse.pulseWidth p)) by congruence.
  rewrite Hp'. unfold Design.sameTuning.
  cbn [Pulse.leadingEdge Pulse.trailingEdge].
  destruct (saw_getNextSample_tuning (Pulse.leadingEdge p)) as [-> ->].
  destruct (saw_getNextSample_tuning
              (Saw.set_phase ph (Pulse.trailingEdge p))) as [-> ->].
  split; assumption.
Qed.

Lemma applyCall_sameTuning {L : Library} fuel c p p' :
  Design.sameTuning p -> Design.applyCall fuel c p = Some p' ->
  Design.sameTuning p'.
Proof.
  intros Hp H. destruct c as [f sr|pw| |]; cbn [Design.applyCall] in H.
  - assert (Hp' : p' = Pulse.setFrequency f sr p) by congruence.
    rewrite Hp'. destruct Hp as [Hw Hb].
    exact (saw_setFrequency_tuning f sr _ _ Hw Hb).
  - assert (Hp' : p' = Pulse.setPulseWidth pw p) by congruence.
    rewrite Hp'. exact Hp.
  - assert (Hp' : p' = Pulse.reset p) by congruence.
    rewrite Hp'. exact Hp.
  - destruct (Pulse.getNextSample fuel p) as [[x q]|] eqn:E; [|discriminate].
    assert (Hp' : p' = q) by congruence. rewrite Hp'.
    exact (pulse_getNextSample_sameTuning fuel p x q Hp E).
Qed.

Lemma applyCalls_sameTuning {L : Library} fuel cs : forall p p',
  Design.sameTuning p -> Design.applyCalls fuel cs p = Some p' ->
  Design.sameTuning p'.
Proof.
  induction cs as [|c cs IH]; intros p p' Hp H; cbn [Design.applyCalls] in H.
  - assert (Hp' : p' = p) by congruence. now rewrite Hp'.
  - destruct (Design.applyCall fuel c p) as [q|] eqn:E; [|discriminate].
    exact (IH q p' (applyCall_sameTuning fuel c p q Hp E) H).
Qed.

(** Calls that return keep returning, with the same state, on more fuel. *)
Lemma pulse_getNextSample_more_fuel {L : Library} fuel fuel' p r :
  Pulse.getNextSample fuel p = Some r -> (fuel <= fuel')%nat ->
  Pulse.getNextSample fuel' p = Some r.
Proof.
  rewrite !pulse_getNextSample_design. cbv zeta. intros H Hle.
  destruct (Pulse.wrapShiftedPhase fuel _) as [ph|] eqn:E; [|discriminate].
  now rewrite (wrapShiftedPhase_more_fuel _ _ _ _ E Hle).
Qed.

(** C9.  Whatever calls of [setFrequency], [setPulseWidth], [reset] and
    [getNextSample] a pulse oscillator has answered since its construction,
    its leading and trailing cores hold the same [w] and the same [beta]. *)
Theorem pulse_cores_same_tuning {L : Library} (fuel : nat)
    (calls : list Design.PulseCall) (p : Pulse.t) :
  Design.applyCalls fuel calls Pulse.init = Some p ->
  Saw.w (Pulse.leadingEdge p) = Saw.w (Pulse.trailingEdge p)
  /\ Saw.beta (Pulse.leadingEdge p) = Saw.beta (Pulse.trailingEdge p).
Proof.
  exact (applyCalls_sameTuning fuel calls Pulse.init p pulse_init_sameTuning).
Qed.

(** C9's theorem at work on a run that tunes, samples, resets, retunes and
    samples again. *)
Lemma pulse_cores_same_tuning_witness :
  exists p,
    Design.applyCalls (L := Example.library) 2 Example.calls Pulse.init
    = Some p
    /\ Saw.w (Pulse.leadingEdge p) = Saw.w (Pulse.trailingEdge p)
    /\ Saw.beta (Pulse.leadingEdge p) = Saw.beta (Pulse.trailingEdge p).
Proof.
  eexists. split.
  - vm_compute. reflexivity.
  - eapply (pulse_cores_same_tuning (L := Example.library) 2 Example.calls).
    vm_compute. reflexivity.
Defined.

(** ** The voice *)

Lemma saw_reset_zeroed (s : Saw.t) : Design.sawZeroed (Saw.reset s).
Proof. repeat split. Qed.

(** C8.  [stopNote], whatever its velocity and [allowTailOff], leaves the
    voice inactive (its flag down and no note playing), its pulse
    oscillator reset (both cores with zero [phase], [osc] and
    [previousInput]) and its level 0.  [releaseResources], which is
    [allNotesOff (0, true)], does so to every voice of the synthesiser, of
    which the constructor makes 8 and which it neither adds nor removes. *)
Theorem stopNote_silences {L : Library} :
  (forall (velocity : float) (allowTailOff : bool) (v : Voice.t),
     let v' := Voice.stopNote velocity allowTailOff v in
     Voice.isActive v' = false
     /\ SynthesiserVoice.isVoiceActive (Voice.base v') = false
     /\ Voice.rendering v' = false
     /\ Voice.pulseOsc v' = Pulse.reset (Voice.pulseOsc v)
     /\ Design.sawZeroed (Pulse.leadingEdge (Voice.pulseOsc v'))
     /\ Design.sawZeroed (Pulse.trailingEdge (Voice.pulseOsc v'))
     /\ Voice.currentLevel v' = F32.zero
     /\ (forall (velocity2 : float) (allowTailOff2 : bool),
           Voice.stopNote velocity2 allowTailOff2 v = v'))
  /\ (forall (K : Type) (keyboard : K),
        length (Processor.synth (Processor.init keyboard)) = 8%nat)
  /\ (forall (K : Type) (p : Processor.t K),
        let p' := Processor.releaseResources p in
        length (Processor.synth p') = length (Processor.synth p)
        /\ Forall
             (fun v =>
                Voice.isActive v = false
                /\ Voice.rendering v = false
                /\ Design.sawZeroed (Pulse.leadingEdge (Voice.pulseOsc v))
                /\ Design.sawZeroed (Pulse.trailingEdge (Voice.pulseOsc v)))
             (Processor.synth p')).
Proof.
  split; [|split].
  - intros velocity allowTailOff v. cbv zeta. repeat split.
  - reflexivity.
  - intros K p. cbv zeta.
    unfold Processor.releaseResources, Processor.allNotesOff.
    cbn [Processor.synth]. split; [apply length_map|].
    apply Forall_forall. intros v Hv. apply in_map_iff in Hv.
    destruct Hv as (u & <- & _). cbn [Z.leb Z.compare orb].
    repeat split.
Qed.

(** ** The block callback *)

Lemma clear_zero (buffer : AudioBuffer) (channel : list float) (x : float) :
  In channel (clear buffer) -> In x channel -> x = F32.zero.
Proof.
  unfold clear. intros Hc Hx. apply in_map_iff in Hc.
  destruct Hc as (c & <- & _). apply in_map_iff in Hx.
  destruct Hx as (y & <- & _). reflexivity.
Qed.

Lemma clear_shape (buffer : AudioBuffer) :
  map (@length float) (clear buffer) = map (@length float) buffer.
Proof.
  unfold clear. rewrite map_map. apply map_ext. intros c. apply length_map.
Qed.

(** C6.  With a cached sample rate [<= 0], [processBlock] returns at once:
    the buffer keeps its shape and every sample of every channel is zero,
    the MIDI buffer is empty, and the processor, with its voices and its
    keyboard state, is as it was. *)
Theorem processBlock_without_rate {L : Library} (MidiEvent K : Type)
    (processNextMidiBuffer :
       K -> list MidiEvent -> Z -> Z -> bool -> list MidiEvent * K)
    (Synthesiser_renderNextBlock :
       Parameters -> list Voice.t -> AudioBuffer -> list MidiEvent -> Z -> Z ->
       option (AudioBuffer * list Voice.t))
    (buffer : AudioBuffer) (midiMessages : list MidiEvent)
    (p : Processor.t K) :
  F64.leb (Processor.lastSampleRate p) F64.zero = true ->
  Processor.processBlock processNextMidiBuffer Synthesiser_renderNextBlock
    buffer midiMessages p
  = Some (clear buffer, [], p)
  /\ map (@length float) (clear buffer) = map (@length float) buffer
  /\ (forall channel x,
        In channel (clear buffer) -> In x channel -> x = F32.zero).
Proof.
  intros H. unfold Processor.processBlock. rewrite H.
  split; [reflexivity|]. split; [apply clear_shape|apply clear_zero].
Qed.

(** C6's theorem at work on a processor whose sample rate is 0. *)
Lemma processBlock_without_rate_witness :
  Processor.processBlock (L := Example.library) Example.keyboardPass
    Example.synthIdle Example.buffer [tt; tt] Example.stoppedProcessor
  = Some ([ [F32.zero; F32.zero; F32.zero];
            [F32.zero; F32.zero; F32.zero] ], [], Example.stoppedProcessor).
Proof.
  apply (processBlock_without_rate (L := Example.library) unit unit
           Example.keyboardPass Example.synthIdle Example.buffer [tt; tt]
           Example.stoppedProcessor).
  reflexivity.
Defined.

(** ** Starting a note *)

(** With a sample rate that is not [<= 0], what [startNote] leaves. *)
Lemma startNote_started {L : Library} ps midiNoteNumber velocity v :
  let sampleRate := SynthesiserVoice.getSampleRate (Voice.base v) in
  F64.leb sampleRate F64.zero = false ->
  let frequency := double_to_float (getMidiNoteInHertz midiNoteNumber) in
  Voice.startNote ps midiNoteNumber velocity v
  = Voice.mk (Voice.base v)
      (Pulse.setFrequency frequency sampleRate
         (Pulse.setPulseWidth (pulseWidthParam ps)
            (Pulse.reset (Voice.pulseOsc v))))
      velocity frequency true
      (IIRFilter_reset
         (setCoefficients
            (makeLowPass sampleRate
               (float_to_double
                  (Design.cutoffOf sampleRate (filterCutoffParam ps))))
            (Voice.lowPassFilter v)))
      sampleRate (Voice.lastFilterCutoff v).
Proof.
  cbv zeta. intros H. unfold Voice.startNote. rewrite H.
  unfold Voice.updateFilterCoefficients.
  cbn [Voice.currentSampleRate Voice.set_currentSampleRate Voice.base
       Voice.pulseOsc Voice.currentLevel Voice.currentFrequency
       Voice.isActive Voice.lowPassFilter Voice.lastFilterCutoff
       Voice.set_currentLevel Voice.set_currentFrequency Voice.set_pulseOsc
       Voice.set_lowPassFilter Voice.set_isActive].
  rewrite H. reflexivity.
Qed.

(** C4.  [startNote] on any voice.  With a sample rate [<= 0] the voice is
    inactive afterwards: no note is playing and a render call does nothing.
    With a sample rate [> 0] the level is the velocity, the frequency is
    [(float)(440·2^((midiNote − 69)/12))], the pulse oscillator is reset,
    given the pulse-width parameter and tuned to that frequency, the filter
    holds coefficients made for the cutoff of the filter parameter and is
    reset, and the voice's active flag is up, so that it renders as soon as
    the synthesiser has assigned it the note. *)
Theorem startNote_spec {L : Library} (ps : Parameters) (midiNoteNumber : Z)
    (velocity : float) (v : Voice.t) :
  let sampleRate := SynthesiserVoice.getSampleRate (Voice.base v) in
  let v' := Voice.startNote ps midiNoteNumber velocity v in
  (F64.leb sampleRate F64.zero = true ->
   SynthesiserVoice.isVoiceActive (Voice.base v') = false
   /\ Voice.rendering v' = false)
  /\ (F64.ltb F64.zero sampleRate = true ->
      let frequency :=
        double_to_float
          (F64.mul d440
             (pow d2 (F64.div (F64.of_Z (midiNoteNumber - 69)) d12))) in
      let w' :=
        jlimit F32.zero f0_49 (frequency / double_to_float sampleRate)%f32 in
      let core := Saw.mk F32.zero F32.zero F32.zero w' (Design.betaOf w') in
      Voice.currentLevel v' = velocity
      /\ Voice.currentFrequency v' = frequency
      /\ Voice.pulseOsc v'
         = Pulse.setFrequency frequency sampleRate
             (Pulse.setPulseWidth (pulseWidthParam ps)
                (Pulse.reset (Voice.pulseOsc v)))
      /\ Voice.pulseOsc v'
         = Pulse.mk core core (jlimit f0_01 f0_99 (pulseWidthParam ps))
      /\ Voice.lowPassFilter v'
         = IIRFilter_reset
             (setCoefficients
                (makeLowPass sampleRate
                   (float_to_double
                      (jmap (filterCutoffParam ps) F32.zero F32.one
                         (double_to_float (F64.mul sampleRate d0_45)) f200)))
                (Voice.lowPassFilter v))
      /\ Voice.isActive v' = true
      /\ Voice.rendering v' = SynthesiserVoice.isVoiceActive (Voice.base v)).
Proof.
  cbv zeta. split.
  - intros H. unfold Voice.startNote. rewrite H. split; reflexivity.
  - intros H. apply ltb_leb_false in H.
    rewrite (startNote_started ps midiNoteNumber velocity v H).
    cbn [Voice.currentLevel Voice.currentFrequency Voice.pulseOsc
         Voice.lowPassFilter Voice.isActive Voice.base].
    repeat split.
    + unfold Pulse.setFrequency, Pulse.setPulseWidth, Pulse.reset.
      cbn [Pulse.leadingEdge Pulse.trailingEdge Pulse.pulseWidth
           Pulse.set_leadingEdge Pulse.set_trailingEdge Pulse.set_pulseWidth].
      rewrite !saw_setFrequency_set by exact H. reflexivity.
    + unfold Voice.rendering. cbn [Voice.base Voice.isActive].
      apply andb_true_r.
Qed.

(** C4's theorem at work: a voice without a sample rate stays silent, and
    note 69 at 44.1 kHz starts at 440 Hz with velocity 0.8. *)
Lemma startNote_spec_witness :
  Voice.rendering
    (Voice.startNote (L := Example.library) defaultParameters 69
       (F32.of_decimal 8 10) Example.voiceWithoutRate) = false
  /\ Voice.currentFrequency Example.playingVoice = Example.f440
  /\ Voice.isActive Example.playingVoice = true.
Proof.
  split; [|split].
  - apply (proj1 (startNote_spec (L := Example.library) defaultParameters 69
                    (F32.of_decimal 8 10) Example.voiceWithoutRate)).
    reflexivity.
  - transitivity
      (double_to_float
         (F64.mul d440
            (@pow Example.library d2
               (F64.div (F64.of_Z (69 - 69)) d12)))).
    + apply (proj2 (startNote_spec (L := Example.library) defaultParameters
                      69 (F32.of_decimal 8 10) Example.assignedVoice)).
      reflexivity.
    + vm_compute. reflexivity.
  - apply (proj2 (startNote_spec (L := Example.library) defaultParameters 69
                    (F32.of_decimal 8 10) Example.assignedVoice)).
    reflexivity.
Defined.

(** ** The filter's coefficients *)

(** With a sample rate that is not [<= 0], [updateFilterCoefficients] sets
    coefficients made for the cutoff of the filter parameter, and only
    them. *)
Lemma updateFilterCoefficients_set {L : Library} (ps : Parameters)
    (v : Voice.t) :
  F64.leb (Voice.currentSampleRate v) F64.zero = false ->
  Voice.updateFilterCoefficients ps v
  = Voice.set_lowPassFilter
      (setCoefficients
         (makeLowPass (Voice.currentSampleRate v)
            (float_to_double
               (Design.cutoffOf (Voice.currentSampleRate v)
                  (filterCutoffParam ps))))
         (Voice.lowPassFilter v)) v.
Proof. intros H. unfold Voice.updateFilterCoefficients. now rewrite H. Qed.

(** A render call that gets past its guards is the sample loop run on the
    refreshed voice. *)
Lemma renderNextBlockLoads_renders {L : Library} fuel ps reloaded
    outputBuffer startSample numSamples v :
  Design.renders v = true ->
  Voice.renderNextBlockLoads fuel ps reloaded outputBuffer startSample
    numSamples v
  = Voice.sampleLoop fuel (decibelsToGain (gainParam ps)) startSample
      (Z.to_nat numSamples) 0 (Design.refreshedLoads ps reloaded v)
      outputBuffer.
Proof.
  unfold Design.renders, Voice.rendering. intros H.
  apply andb_true_iff in H. destruct H as [H Hsr].
  apply andb_true_iff in H. destruct H as [Hnote Hflag].
  apply negb_true_iff in Hsr.
  unfold Voice.renderNextBlockLoads. rewrite Hnote, Hflag, Hsr.
  cbn [negb orb]. reflexivity.
Qed.

Lemma renderNextBlock_renders {L : Library} fuel ps outputBuffer startSample
    numSamples v :
  Design.renders v = true ->
  Voice.renderNextBlock fuel ps outputBuffer startSample numSamples v
  = Voice.sampleLoop fuel (decibelsToGain (gainParam ps)) startSample
      (Z.to_nat numSamples) 0 (Design.refreshed ps v) outputBuffer.
Proof. apply renderNextBlockLoads_renders. Qed.

(** A render call that does not is no call at all. *)
Lemma renderNextBlock_idle {L : Library} fuel ps outputBuffer startSample
    numSamples v :
  Design.renders v = false ->
  Voice.renderNextBlock fuel ps outputBuffer startSample numSamples v
  = Some (outputBuffer, v).
Proof.
  unfold Design.renders, Voice.rendering, Voice.renderNextBlock,
    Voice.renderNextBlockLoads. intros H.
  destruct (SynthesiserVoice.isVoiceActive (Voice.base v));
    destruct (Voice.isActive v); cbn [negb orb andb] in *; try reflexivity.
  apply negb_false_iff in H. now rewrite H.
Qed.

(** The refresh moves the filter and the recorded control together: the
    record takes the control as the render call loaded it, the filter the
    cutoff of the control as [updateFilterCoefficients] loaded it. *)
Lemma refreshedLoads_filter {L : Library} (ps reloaded : Parameters)
    (v : Voice.t) :
  let sampleRate := SynthesiserVoice.getSampleRate (Voice.base v) in
  let c := filterCutoffParam ps in
  F64.leb sampleRate F64.zero = false ->
  Voice.lastFilterCutoff (Design.refreshedLoads ps reloaded v)
  = (if (F32.abs (c - Voice.lastFilterCutoff v) >? f1em3)%f32
     then c else Voice.lastFilterCutoff v)
  /\ Voice.lowPassFilter (Design.refreshedLoads ps reloaded v)
     = (if (F32.abs (c - Voice.lastFilterCutoff v) >? f1em3)%f32
        then
          setCoefficients
            (makeLowPass sampleRate
               (float_to_double
                  (Design.cutoffOf sampleRate (filterCutoffParam reloaded))))
            (Voice.lowPassFilter v)
        else Voice.lowPassFilter v).
Proof.
  cbv zeta. intros H. unfold Design.refreshedLoads.
  cbn [Voice.lastFilterCutoff Voice.set_currentSampleRate Voice.set_pulseOsc
       Voice.lowPassFilter].
  destruct (F32.abs (filterCutoffParam ps - Voice.lastFilterCutoff v)
            >? f1em3)%f32.
  - rewrite updateFilterCoefficients_set by exact H. split; reflexivity.
  - split; reflexivity.
Qed.

(** The sample loop leaves the recorded control alone. *)
Lemma sampleLoop_lastFilterCutoff {L : Library} fuel gain startSample todo :
  forall sample v outputBuffer out v',
  Voice.sampleLoop fuel gain startSample todo sample v outputBuffer
  = Some (out, v') ->
  Voice.lastFilterCutoff v' = Voice.lastFilterCutoff v.
Proof.
  induction todo as [|todo IH]; intros sample v outputBuffer out v' H;
    cbn [Voice.sampleLoop] in H.
  - assert (Hv : v' = v) by congruence. now rewrite Hv.
  - destruct (Pulse.getNextSample fuel (Voice.pulseOsc v)) as [[x p]|];
      [|discriminate].
    destruct (processSingleSampleRaw _ _) as [value f].
    apply IH in H. exact H.
Qed.

(** At the control's lower end the cutoff is [maxHz] itself, as long as
    [maxHz] and its distance to 200 are finite. *)
Lemma cutoff_at_zero (sampleRate : double) :
  let maxHz := double_to_float (F64.mul sampleRate d0_45) in
  F32.is_finite maxHz = true -> F32.is_finite (f200 - maxHz)%f32 = true ->
  maxHz <> S754_zero true ->
  Design.cutoffOf sampleRate F32.zero = maxHz.
Proof.
  cbv zeta. unfold Design.cutoffOf, jmap.
  change (F32.zero - F32.zero)%f32 with F32.zero.
  change (F32.one - F32.zero)%f32 with F32.one.
  generalize (double_to_float (F64.mul sampleRate d0_45)).
  intros maxHz Hmax Hdiff Hzero.
  destruct (f200 - maxHz)%f32 as [s|s| |s m e]; try discriminate;
    destruct maxHz as [[|]|?| |? ? ?]; try discriminate; try reflexivity;
    try (destruct s; reflexivity).
  all: contradiction Hzero; reflexivity.
Qed.

(** C7, as amended.  A render call of an active voice whose sample rate is
    not [<= 0] is the sample loop run after a refresh in which the
    coefficients are set anew if and only if the filter control [c], as the
    call loads it, is more than 0.001 away from the recorded value, which
    then becomes [c], and the call ends with that record.  Coefficients
    that are set, there or by [updateFilterCoefficients] on a voice start,
    are [makeLowPass]'s for the cutoff
    [maxHz + ((200 − maxHz)·(c' − 0))/(1 − 0)] with
    [maxHz = (float)(sampleRate·0.45)], where [c'] is the control as
    [updateFilterCoefficients] loads it, which is [c] again unless another
    thread has stored to it since.  For a control of 0 that cutoff is
    [maxHz], if this and its distance to 200 are finite; for a control of 1
    it is 200 Hz whenever [maxHz] is from 0 up to but not [2^27], which is
    0.45 times some 298 MHz. *)
Theorem renderNextBlock_filter {L : Library} (fuel : nat)
    (ps reloaded : Parameters) (outputBuffer : AudioBuffer)
    (startSample numSamples : Z) (v : Voice.t) :
  let sampleRate := SynthesiserVoice.getSampleRate (Voice.base v) in
  let c := filterCutoffParam ps in
  let c' := filterCutoffParam reloaded in
  let maxHz := double_to_float (F64.mul sampleRate d0_45) in
  let cutoff :=
    (maxHz + ((f200 - maxHz) * (c' - F32.zero)) / (F32.one - F32.zero))%f32 in
  let moved := (F32.abs (c - Voice.lastFilterCutoff v) >? f1em3)%f32 in
  (Voice.rendering v = true -> F64.leb sampleRate F64.zero = false ->
   Voice.renderNextBlockLoads fuel ps reloaded outputBuffer startSample
     numSamples v
   = Voice.sampleLoop fuel (decibelsToGain (gainParam ps)) startSample
       (Z.to_nat numSamples) 0 (Design.refreshedLoads ps reloaded v)
       outputBuffer
   /\ Voice.lastFilterCutoff (Design.refreshedLoads ps reloaded v)
      = (if moved then c else Voice.lastFilterCutoff v)
   /\ Voice.lowPassFilter (Design.refreshedLoads ps reloaded v)
      = (if moved
         then
           setCoefficients (makeLowPass sampleRate (float_to_double cutoff))
             (Voice.lowPassFilter v)
         else Voice.lowPassFilter v)
   /\ (forall out v',
         Voice.renderNextBlockLoads fuel ps reloaded outputBuffer
           startSample numSamples v
         = Some (out, v') ->
         Voice.lastFilterCutoff v'
         = (if moved then c else Voice.lastFilterCutoff v)))
  /\ Voice.renderNextBlock fuel ps outputBuffer startSample numSamples v
     = Voice.renderNextBlockLoads fuel ps ps outputBuffer startSample
         numSamples v
  /\ (forall u : Voice.t,
        F64.leb (Voice.currentSampleRate u) F64.zero = false ->
        Voice.lowPassFilter (Voice.updateFilterCoefficients ps u)
        = setCoefficients
            (makeLowPass (Voice.currentSampleRate u)
               (float_to_double
                  (jmap c F32.zero F32.one
                     (double_to_float
                        (F64.mul (Voice.currentSampleRate u) d0_45))
                     f200)))
            (Voice.lowPassFilter u))
  /\ (forall sr : double,
        let top := double_to_float (F64.mul sr d0_45) in
        F32.is_finite top = true -> F32.is_finite (f200 - top)%f32 = true ->
        top <> S754_zero true ->
        Design.cutoffOf sr F32.zero = top)
  /\ (forall sr : double,
        let top := double_to_float (F64.mul sr d0_45) in
        (F32.zero <=? top)%f32 = true ->
        (top <? Design.f2p27)%f32 = true ->
        Design.cutoffOf sr F32.one = f200).
Proof.
  cbv zeta. split; [|split; [|split; [|split]]].
  - intros Hactive Hsr.
    assert (Hr : Design.renders v = true).
    { unfold Design.renders. rewrite Hactive, Hsr. reflexivity. }
    destruct (refreshedLoads_filter ps reloaded v Hsr) as [Hlast Hfilter].
    split; [exact (renderNextBlockLoads_renders _ _ _ _ _ _ _ Hr)|].
    split; [exact Hlast|]. split; [exact Hfilter|].
    intros out v' H. rewrite renderNextBlockLoads_renders in H by exact Hr.
    apply sampleLoop_lastFilterCutoff in H. now rewrite H.
  - reflexivity.
  - intros u Hu. now rewrite updateFilterCoefficients_set.
  - exact cutoff_at_zero.
  - exact cutoff_at_one.
Qed.

(** C7's theorem at work.  On the playing voice the record of -1 is more
    than 0.001 away from the control at 0.5, which is recorded; and the
    control at 1 gives 200 Hz at 8, 44.1, 48, 96 and 384 kHz. *)
Lemma renderNextBlock_filter_witness :
  Voice.lastFilterCutoff
    (Design.refreshedLoads (L := Example.library) defaultParameters
       defaultParameters Example.playingVoice)
  = f0_5
  /\ Design.cutoffOf Example.d8000 F32.one = f200
  /\ Design.cutoffOf d44100 F32.one = f200
  /\ Design.cutoffOf Example.d48000 F32.one = f200
  /\ Design.cutoffOf Example.d96000 F32.one = f200
  /\ Design.cutoffOf Example.d384000 F32.one = f200.
Proof.
  destruct (renderNextBlock_filter (L := Example.library) 2
              defaultParameters defaultParameters Example.buffer 0 3
              Example.playingVoice)
    as (H & _ & _ & _ & Hone).
  cbv zeta in H, Hone.
  split; [|split; [|split; [|split; [|split]]]].
  - destruct H as (_ & Hlast & _).
    + reflexivity.
    + reflexivity.
    + rewrite Hlast. vm_compute. reflexivity.
  - apply Hone; vm_compute; reflexivity.
  - apply Hone; vm_compute; reflexivity.
  - apply Hone; vm_compute; reflexivity.
  - apply Hone; vm_compute; reflexivity.
  - apply Hone; vm_compute; reflexivity.
Defined.

(** C7 as first stated fails on an active voice whose sample rate is 0: the
    control at 0.5 is 1.5 away from the record of -1, yet the render call
    returns at its second guard with the voice, its filter and its record
    as they were. *)
Lemma renderNextBlock_no_refresh :
  Voice.rendering Example.activeVoiceWithoutRate = true
  /\ (F32.abs
        (filterCutoffParam defaultParameters
         - Voice.lastFilterCutoff Example.activeVoiceWithoutRate)
      >? f1em3)%f32 = true
  /\ Voice.renderNextBlock (L := Example.library) 2 defaultParameters
       Example.buffer 0 3 Example.activeVoiceWithoutRate
     = Some (Example.buffer, Example.activeVoiceWithoutRate)
  /\ Voice.lastFilterCutoff Example.activeVoiceWithoutRate = fm1.
Proof. repeat split; vm_compute; reflexivity. Qed.

(** The end points of the cutoff are not exact at every sample rate: at
    1 GHz, whose [maxHz] is above [2^27], the control at 1 gives 192 Hz,
    and at a rate of [2^132], whose [maxHz] is infinite, the control at 0
    gives NaN. *)
Example cutoff_end_points_inexact :
  Design.cutoffOf (F64.of_Z 1000000000) F32.one = F32.of_Z 192
  /\ Design.cutoffOf (S754_finite false 4503599627370496 80) F32.zero
     = S754_nan.
Proof. split; vm_compute; reflexivity. Qed.

(** ** Rendering into the buffer *)

Lemma update_nth_error {A : Type} (f : A -> A) (l : list A) : forall n i,
  nth_error (update n f l) i
  = if Nat.eqb i n then option_map f (nth_error l i) else nth_error l i.
Proof.
  induction l as [|x l IH]; intros [|n] [|i]; cbn [update nth_error Nat.eqb];
    try reflexivity.
  - destruct (Nat.eqb _ _); reflexivity.
  - apply IH.
Qed.

(** What a write does to the shape of the buffer: nothing. *)
Lemma update_length {A : Type} (f : A -> A) (l : list A) : forall n,
  length (update n f l) = length l.
Proof.
  induction l as [|x l IH]; intros [|n]; cbn [update length]; auto.
Qed.

Lemma addAtOffset_shape (value : float) (b : AudioBuffer) : forall offset,
  map (@length float) (addAtOffset offset value b) = map (@length float) b.
Proof.
  induction b as [|c b IH]; intros offset; cbn [addAtOffset map];
    [reflexivity|].
  destruct (offset <? length c)%nat; cbn [map].
  - now rewrite update_length.
  - now rewrite IH.
Qed.

Lemma addSample_shape (destChannel : nat) (destSample : Z) (value : float)
    (b : AudioBuffer) :
  map (@length float) (addSample destChannel destSample value b)
  = map (@length float) b.
Proof.
  unfold addSample. cbv zeta. destruct (_ || _); [reflexivity|].
  apply addAtOffset_shape.
Qed.

Lemma addToChannels_shape (destSample : Z) (value : float) (todo : nat) :
  forall (channel : nat) (b : AudioBuffer),
  map (@length float) (Voice.addToChannels todo channel destSample value b)
  = map (@length float) b.
Proof.
  induction todo as [|todo IH]; intros channel b;
    cbn [Voice.addToChannels]; [reflexivity|].
  now rewrite IH, addSample_shape.
Qed.

Lemma mixIn_shape (values : list float) : forall (s : Z) (b : AudioBuffer),
  map (@length float) (Design.mixIn s values b) = map (@length float) b.
Proof.
  induction values as [|value values IH]; intros s b; cbn [Design.mixIn];
    [reflexivity|].
  now rewrite IH, addToChannels_shape.
Qed.

(** A write inside a channel is a write to that channel. *)
Lemma addAtOffset_app (value : float) (c : list float)
    (post : list (list float)) (i : nat) : forall pre : list (list float),
  (i < length c)%nat ->
  addAtOffset (length (concat pre) + i) value (pre ++ c :: post)
  = pre ++ update i (fun x => (x + value)%f32) c :: post.
Proof.
  intros pre Hi. induction pre as [|p pre IH];
    cbn [concat length app addAtOffset Nat.add].
  - apply Nat.ltb_lt in Hi. now rewrite Hi.
  - rewrite length_app.
    replace (length p + length (concat pre) + i <? length p)%nat with false
      by (symmetry; apply Nat.ltb_ge; lia).
    replace (length p + length (concat pre) + i - length p)%nat
      with (length (concat pre) + i)%nat by lia.
    now rewrite IH.
Qed.

Lemma addSample_app (destSample : Z) (value : float)
    (pre : list (list float)) (c : list float) (post : list (list float)) :
  0 <= destSample < Z.of_nat (length c) ->
  addSample (length pre) destSample value (pre ++ c :: post)
  = pre ++ Design.addAt destSample value c :: post.
Proof.
  intros Hin. unfold addSample, channelStart, getNumChannels, Design.addAt.
  cbv zeta.
  rewrite firstn_app, Nat.sub_diag, firstn_all, firstn_O, app_nil_r.
  replace (Z.of_nat (length (concat pre)) + destSample <? 0) with false
    by (symmetry; apply Z.ltb_ge; lia).
  replace (length pre <? length (pre ++ c :: post))%nat with true
    by (symmetry; apply Nat.ltb_lt; rewrite length_app; cbn [length]; lia).
  replace (destSample <? 0) with false by (symmetry; apply Z.ltb_ge; lia).
  cbn [orb negb].
  replace (Z.to_nat (Z.of_nat (length (concat pre)) + destSample))
    with (length (concat pre) + Z.to_nat destSample)%nat by lia.
  apply addAtOffset_app. lia.
Qed.

Lemma addAt_length (destSample : Z) (value : float) (c : list float) :
  length (Design.addAt destSample value c) = length c.
Proof.
  unfold Design.addAt. destruct (destSample <? 0); [reflexivity|].
  apply update_length.
Qed.

(** The channel loop adds to the [todo] channels from [channel] on, when
    the index lies inside them. *)
Lemma addToChannels_app (destSample : Z) (value : float) (todo : nat) :
  forall (pre post : list (list float)),
  (todo <= length post)%nat ->
  Forall (fun c => 0 <= destSample < Z.of_nat (length c)) post ->
  Voice.addToChannels todo (length pre) destSample value (pre ++ post)
  = pre ++ map (Design.addAt destSample value) (firstn todo post)
        ++ skipn todo post.
Proof.
  induction todo as [|todo IH]; intros pre post Hlen Hin;
    cbn [Voice.addToChannels]; [reflexivity|].
  destruct post as [|c post]; cbn [length] in Hlen; [lia|].
  inversion Hin as [|? ? Hc Hpost]; subst.
  rewrite addSample_app by exact Hc.
  change (pre ++ Design.addAt destSample value c :: post)
    with (pre ++ [Design.addAt destSample value c] ++ post).
  rewrite app_assoc.
  replace (S (length pre))
    with (length (pre ++ [Design.addAt destSample value c]))
    by (rewrite length_app; cbn [length]; lia).
  rewrite IH by (try exact Hpost; lia). rewrite <- app_assoc. reflexivity.
Qed.

(** Over all channels it is an addition to each. *)
Lemma addToChannels_all (destSample : Z) (value : float) (b : AudioBuffer) :
  Forall (fun c => 0 <= destSample < Z.of_nat (length c)) b ->
  Voice.addToChannels (getNumChannels b) 0 destSample value b
  = map (Design.addAt destSample value) b.
Proof.
  intros Hin. unfold getNumChannels.
  pose proof (addToChannels_app destSample value (length b) [] b (le_n _)
                Hin) as H.
  cbn [app length] in H. rewrite H.
  now rewrite firstn_all, skipn_all, app_nil_r.
Qed.

(** A block inside the buffer is mixed into every channel. *)
Lemma mixIn_inside (values : list float) : forall (s : Z) (b : AudioBuffer),
  0 <= s ->
  Forall (fun c => s + Z.of_nat (length values) <= Z.of_nat (length c)) b ->
  Design.mixIn s values b = map (Design.mixChannel s values) b.
Proof.
  induction values as [|value values IH]; intros s b Hs Hin;
    cbn [Design.mixIn Design.mixChannel].
  - now rewrite map_id.
  - cbn [length] in Hin. rewrite addToChannels_all.
    + rewrite IH; [now rewrite map_map|lia|].
      apply Forall_map. revert Hin. apply Forall_impl.
      intros c Hc. rewrite addAt_length. lia.
    + revert Hin. apply Forall_impl. intros c Hc. lia.
Qed.

(** The sample loop adds the values of the block, one after the other. *)
Lemma sampleLoop_values {L : Library} fuel gain startSample todo :
  forall sample v outputBuffer values v',
  Design.sampleValues fuel gain todo v = Some (values, v') ->
  Voice.sampleLoop fuel gain startSample todo sample v outputBuffer
  = Some (Design.mixIn (startSample + sample) values outputBuffer, v').
Proof.
  induction todo as [|todo IH]; intros sample v outputBuffer values v' H;
    cbn [Design.sampleValues Voice.sampleLoop] in *.
  - assert (Hv : values = [] /\ v' = v) by (split; congruence).
    destruct Hv as [-> ->]. reflexivity.
  - destruct (Pulse.getNextSample fuel (Voice.pulseOsc v)) as [[x p]|];
      [|discriminate].
    cbn [Voice.currentLevel Voice.lowPassFilter Voice.set_pulseOsc].
    destruct (processSingleSampleRaw _ _) as [value f].
    destruct (Design.sampleValues fuel gain todo _) as [[values0 v0]|] eqn:E;
      [|discriminate].
    assert (Hv : values = value :: values0 /\ v' = v0) by (split; congruence).
    destruct Hv as [-> ->].
    rewrite (IH (sample + 1) _ _ values0 v0 E).
    cbn [Design.mixIn]. now rewrite Z.add_assoc.
Qed.

Lemma sampleValues_length {L : Library} fuel gain todo : forall v values v',
  Design.sampleValues fuel gain todo v = Some (values, v') ->
  length values = todo.
Proof.
  induction todo as [|todo IH]; intros v values v' H;
    cbn [Design.sampleValues] in H.
  - assert (Hv : values = []) by congruence. now rewrite Hv.
  - destruct (Pulse.getNextSample fuel (Voice.pulseOsc v)) as [[x p]|];
      [|discriminate].
    destruct (processSingleSampleRaw _ _) as [value f].
    destruct (Design.sampleValues fuel gain todo _) as [[values0 v0]|] eqn:E;
      [|discriminate].
    assert (Hv : values = value :: values0) by congruence.
    rewrite Hv. cbn [length]. f_equal. exact (IH _ _ _ E).
Qed.

Lemma addAt_nth_error (s : Z) (value : float) (c : list float) (i : nat) :
  nth_error (Design.addAt s value c) i
  = option_map
      (fun old => if Z.of_nat i =? s then (old + value)%f32 else old)
      (nth_error c i).
Proof.
  unfold Design.addAt. destruct (s <? 0) eqn:Hs.
  - apply Z.ltb_lt in Hs.
    replace (Z.of_nat i =? s) with false by (symmetry; apply Z.eqb_neq; lia).
    now destruct (nth_error c i).
  - apply Z.ltb_ge in Hs. rewrite update_nth_error.
    destruct (Nat.eqb i (Z.to_nat s)) eqn:E.
    + apply Nat.eqb_eq in E.
      replace (Z.of_nat i =? s) with true by (symmetry; apply Z.eqb_eq; lia).
      reflexivity.
    + apply Nat.eqb_neq in E.
      replace (Z.of_nat i =? s) with false
        by (symmetry; apply Z.eqb_neq; lia).
      now destruct (nth_error c i).
Qed.

Lemma inside_block_spec (s n i : Z) :
  reflect (s <= i < s + n) ((s <=? i) && (i <? s + n)).
Proof.
  destruct (Z.leb_spec0 s i), (Z.ltb_spec0 i (s + n)); constructor; lia.
Qed.

(** Sample by sample: inside the block the old sample plus the block's
    value for that index, outside it the old sample. *)
Lemma mixChannel_nth_error (values : list float) :
  forall (s : Z) (c : list float) (i : nat),
  nth_error (Design.mixChannel s values c) i
  = option_map (Design.mixedAt s values i) (nth_error c i).
Proof.
  induction values as [|value values IH]; intros s c i;
    cbn [Design.mixChannel].
  - unfold Design.mixedAt. cbn [length].
    destruct (inside_block_spec s (Z.of_nat 0) (Z.of_nat i)); [lia|].
    now destruct (nth_error c i).
  - rewrite IH, addAt_nth_error.
    destruct (nth_error c i) as [old|]; [|reflexivity].
    cbn [option_map]. f_equal. unfold Design.mixedAt. cbn [length].
    destruct (inside_block_spec (s + 1) (Z.of_nat (length values))
                (Z.of_nat i)) as [R1|R1];
      destruct (inside_block_spec s (Z.of_nat (S (length values)))
                  (Z.of_nat i)) as [R2|R2];
      destruct (Z.eqb_spec (Z.of_nat i) s) as [E|E]; try lia;
      try reflexivity.
    + replace (Z.to_nat (Z.of_nat i - s))
        with (S (Z.to_nat (Z.of_nat i - (s + 1)))) by lia.
      reflexivity.
    + replace (Z.to_nat (Z.of_nat i - s)) with O by lia. reflexivity.
Qed.

Lemma mixed_sampleAt (startSample : Z) (values : list float)
    (b : AudioBuffer) (channel i : nat) :
  Design.sampleAt (map (Design.mixChannel startSample values) b) channel i
  = option_map (Design.mixedAt startSample values i)
      (Design.sampleAt b channel i).
Proof.
  unfold Design.sampleAt. rewrite nth_error_map.
  destruct (nth_error b channel) as [c|]; [|reflexivity].
  cbn [option_map]. apply mixChannel_nth_error.
Qed.

(** So the samples of a block are there, whatever their number. *)
Lemma sampleValues_returns {L : Library} (fuel : nat) (gain : float)
    (todo : nat) : forall v : Voice.t,
  Design.pulseInRange (Voice.pulseOsc v) = true -> (2 <= fuel)%nat ->
  exists values v', Design.sampleValues fuel gain todo v = Some (values, v').
Proof.
  induction todo as [|todo IH]; intros v Hv Hfuel;
    cbn [Design.sampleValues].
  - eexists. eexists. reflexivity.
  - destruct (pulse_getNextSample_returns fuel _ Hv Hfuel)
      as (-> & _ & Hnext).
    destruct (processSingleSampleRaw _ _) as [value f].
    destruct (IH (Voice.set_lowPassFilter f
                    (Voice.set_pulseOsc _ v)) Hnext Hfuel)
      as (values & v' & ->).
    eexists. eexists. reflexivity.
Qed.

(** The refresh of a render call brings a voice in range to an oscillator
    in range. *)
Lemma refreshed_inRange {L : Library} (ps : Parameters) (v : Voice.t) :
  Design.voiceInRange ps v = true ->
  F64.leb (SynthesiserVoice.getSampleRate (Voice.base v)) F64.zero = false ->
  Design.pulseInRange (Voice.pulseOsc (Design.refreshed ps v)) = true.
Proof.
  unfold Design.voiceInRange. intros H Hsr.
  apply andb_true_iff in H. destruct H as [Hph Hpw].
  assert (E : Voice.pulseOsc (Design.refreshed ps v)
              = Pulse.setPulseWidth (pulseWidthParam ps)
                  (Pulse.setFrequency (Voice.currentFrequency v)
                     (SynthesiserVoice.getSampleRate (Voice.base v))
                     (Voice.pulseOsc v))).
  { unfold Design.refreshed. cbv zeta.
    destruct (_ >? _)%f32; [|reflexivity].
    unfold Voice.updateFilterCoefficients.
    destruct (F64.leb _ _); reflexivity. }
  rewrite E. unfold Design.pulseInRange, Pulse.setPulseWidth,
    Pulse.setFrequency.
  cbn [Pulse.leadingEdge Pulse.pulseWidth Pulse.set_pulseWidth
       Pulse.set_leadingEdge Pulse.set_trailingEdge].
  rewrite saw_setFrequency_set by exact Hsr.
  cbn [Saw.phase Saw.w]. rewrite Hph. cbn [andb].
  apply andb_true_iff. split.
  - apply jlimit_inUnit; try reflexivity.
    rewrite div_valid. apply orb_true_r.
  - apply jlimit_inUnit; try reflexivity. exact Hpw.
Qed.

(** A voice in range has the samples of its block. *)
Lemma blockValues_returns {L : Library} (fuel : nat) (ps : Parameters)
    (numSamples : Z) (v : Voice.t) :
  Design.voiceInRange ps v = true -> (2 <= fuel)%nat ->
  exists values v',
    Design.blockValues fuel ps numSamples v = Some (values, v').
Proof.
  intros Hv Hfuel. unfold Design.blockValues.
  destruct (Design.renders v) eqn:Hr.
  - apply sampleValues_returns; [|exact Hfuel].
    apply refreshed_inRange; [exact Hv|].
    unfold Design.renders in Hr. apply andb_true_iff in Hr.
    destruct Hr as [_ Hr]. now apply negb_true_iff in Hr.
  - eexists. eexists. reflexivity.
Qed.

(** What [blockInside] says of a channel. *)
Lemma blockInside_spec (startSample numSamples : Z) (b : AudioBuffer) :
  Design.blockInside startSample numSamples b = true ->
  0 <= startSample
  /\ Forall (fun c => startSample + numSamples <= Z.of_nat (length c)) b.
Proof.
  unfold Design.blockInside. intros H. apply andb_true_iff in H.
  destruct H as [Hs Hall]. apply Z.leb_le in Hs. split; [exact Hs|].
  apply Forall_forall. intros c Hc.
  rewrite forallb_forall in Hall. apply Z.leb_le. now apply Hall.
Qed.

(** C10, as amended.  Let [values] be the samples that the voice computes
    for the block (none when it is inactive or its sample rate is [<= 0],
    else one per sample of the block).  Then [renderNextBlock] returns a
    buffer of the same shape.  If the block lies inside the buffer, then on
    every channel the sample at an index [i] with
    [startSample <= i < startSample + numSamples] is the old sample plus
    the value computed for [i], and every other sample is the old one.  A
    voice that is inactive or has a sample rate [<= 0] returns the buffer
    and itself untouched, wherever the block lies.  The samples are there,
    with fuel for two rounds of the phase loop, for every voice whose
    leading phase is from 0 up to but not 1 (or NaN), given a pulse-width
    parameter that is a float. *)
Theorem renderNextBlock_frame {L : Library} (fuel : nat) (ps : Parameters)
    (outputBuffer : AudioBuffer) (startSample numSamples : Z) (v : Voice.t) :
  (forall (values : list float) (v' : Voice.t),
     Design.blockValues fuel ps numSamples v = Some (values, v') ->
     exists out : AudioBuffer,
       Voice.renderNextBlock fuel ps outputBuffer startSample numSamples v
       = Some (out, v')
       /\ map (@length float) out = map (@length float) outputBuffer
       /\ (Design.blockInside startSample numSamples outputBuffer = true ->
           forall (channel i : nat) (old : float),
             Design.sampleAt outputBuffer channel i = Some old ->
             Design.sampleAt out channel i
             = Some
                 (if (startSample <=? Z.of_nat i)
                     && (Z.of_nat i
                         <? startSample + Z.of_nat (length values))
                  then
                    (old + nth (Z.to_nat (Z.of_nat i - startSample)) values
                             F32.zero)%f32
                  else old))
       /\ (Voice.rendering v = true ->
           F64.leb (SynthesiserVoice.getSampleRate (Voice.base v)) F64.zero
           = false ->
           Z.of_nat (length values) = Z.max 0 numSamples)
       /\ (Voice.rendering v = false
           \/ F64.leb (SynthesiserVoice.getSampleRate (Voice.base v))
                F64.zero
              = true ->
           out = outputBuffer /\ v' = v))
  /\ (Design.voiceInRange ps v = true -> (2 <= fuel)%nat ->
      exists (values : list float) (v' : Voice.t),
        Design.blockValues fuel ps numSamples v = Some (values, v')).
Proof.
  split; [|apply blockValues_returns].
  intros values v' H. unfold Design.blockValues in H.
  destruct (Design.renders v) eqn:Hr.
  - exists (Design.mixIn startSample values outputBuffer).
    rewrite renderNextBlock_renders by exact Hr.
    rewrite (sampleLoop_values _ _ startSample _ 0 _ outputBuffer _ _ H).
    rewrite Z.add_0_r. split; [reflexivity|].
    pose proof (sampleValues_length _ _ _ _ _ _ H) as Hlen.
    split; [|split; [|split]].
    + apply mixIn_shape.
    + intros Hin channel i old Hold.
      destruct (blockInside_spec _ _ _ Hin) as [Hs Hall].
      destruct values as [|value values].
      * cbn [Design.mixIn length]. rewrite Hold.
        destruct (inside_block_spec startSample (Z.of_nat 0) (Z.of_nat i));
          [lia|reflexivity].
      * rewrite mixIn_inside.
        -- rewrite mixed_sampleAt, Hold. reflexivity.
        -- exact Hs.
        -- revert Hall. apply Forall_impl. intros c Hc.
           cbn [length] in *. lia.
    + intros _ _. lia.
    + unfold Design.renders in Hr. apply andb_true_iff in Hr.
      destruct Hr as [Hr1 Hr2]. apply negb_true_iff in Hr2.
      intros [Hidle|Hidle]; congruence.
  - assert (Hv : values = [] /\ v' = v) by (split; congruence).
    destruct Hv as [-> ->]. exists outputBuffer.
    split; [exact (renderNextBlock_idle _ _ _ _ _ _ Hr)|].
    split; [reflexivity|]. split; [|split].
    + intros _ channel i old Hold. rewrite Hold. cbn [length].
      destruct (inside_block_spec startSample (Z.of_nat 0) (Z.of_nat i));
        [lia|reflexivity].
    + unfold Design.renders in Hr. intros H1 H2. rewrite H1, H2 in Hr.
      discriminate.
    + intros _. split; reflexivity.
Qed.

(** C10's theorem at work: the playing voice rendered into samples 1 and 2
    of a stereo buffer of three leaves sample 0 of both channels as it
    was. *)
Lemma renderNextBlock_frame_witness :
  exists out v',
    Voice.renderNextBlock (L := Example.library) 2 defaultParameters
      Example.buffer 1 2 Example.playingVoice
    = Some (out, v')
    /\ Design.sampleAt out 0 0 = Some (F32.of_Z 1)
    /\ Design.sampleAt out 1 0 = Some (F32.of_Z 4).
Proof.
  destruct (renderNextBlock_frame (L := Example.library) 2
              defaultParameters Example.buffer 1 2 Example.playingVoice)
    as [Hframe Hreturns].
  destruct Hreturns as (values & v' & Hvalues); [reflexivity|lia|].
  destruct (Hframe values v' Hvalues) as (out & Hrender & _ & Hat & _).
  exists out, v'. split; [exact Hrender|]. split.
  - rewrite (Hat eq_refl 0%nat 0%nat (F32.of_Z 1) eq_refl).
    destruct (inside_block_spec 1 (Z.of_nat (length values)) (Z.of_nat 0));
      [lia|reflexivity].
  - rewrite (Hat eq_refl 1%nat 0%nat (F32.of_Z 4) eq_refl).
    destruct (inside_block_spec 1 (Z.of_nat (length values)) (Z.of_nat 0));
      [lia|reflexivity].
Defined.

(** C10 as first stated fails on a block that overruns the buffer.  Two
    samples rendered from index 2 on into the stereo buffer of three: the
    second one is written to index 3 of channel 0, which is the sample at
    index 0 of channel 1.  That sample is not in the block; it was 4 and is
    3.2 afterwards. *)
Lemma renderNextBlock_overrun :
  Design.blockInside 2 2 Example.buffer = false
  /\ Design.sampleAt Example.buffer 1 0 = Some (F32.of_Z 4)
  /\ match
       Voice.renderNextBlock (L := Example.library) 2 defaultParameters
         Example.buffer 2 2 Example.playingVoice
     with
     | Some (out, _) => Design.sampleAt out 1 0
     | None => None
     end
     = Some (F32.of_decimal 32 10).
Proof. repeat split; vm_compute; reflexivity. Qed.

(** More fuel does not change the samples of a block. *)
Lemma sampleValues_more_fuel {L : Library} fuel fuel' gain todo :
  forall v r,
  Design.sampleValues fuel gain todo v = Some r -> (fuel <= fuel')%nat ->
  Design.sampleValues fuel' gain todo v = Some r.
Proof.
  induction todo as [|todo IH]; intros v r H Hle;
    cbn [Design.sampleValues] in *; [exact H|].
  destruct (Pulse.getNextSample fuel (Voice.pulseOsc v)) as [[x p]|] eqn:E;
    [|discriminate].
  rewrite (pulse_getNextSample_more_fuel _ _ _ _ E Hle).
  destruct (processSingleSampleRaw _ _) as [value f].
  destruct (Design.sampleValues fuel gain todo _) as [[values0 v0]|] eqn:E0;
    [|discriminate].
  now rewrite (IH _ _ E0 Hle).
Qed.

(** * Further properties

    What the code shows beyond the design document's statements: how render
    calls compose, that no call through the interfaces hangs, bounds on the
    samples and on the filter's cutoff, the guards of the block callback,
    the editor's layout and the parameters' ranges. *)

(** ** Splitting a block *)

(** The sample loop uses its two counters only through their sum. *)
Lemma sampleLoop_shift {L : Library} fuel gain todo :
  forall startSample sample startSample' sample' v outputBuffer,
  startSample + sample = startSample' + sample' ->
  Voice.sampleLoop fuel gain startSample todo sample v outputBuffer
  = Voice.sampleLoop fuel gain startSample' todo sample' v outputBuffer.
Proof.
  induction todo as [|todo IH];
    intros startSample sample startSample' sample' v outputBuffer H;
    cbn [Voice.sampleLoop]; [reflexivity|].
  destruct (Pulse.getNextSample fuel (Voice.pulseOsc v)) as [[x p]|];
    [|reflexivity].
  destruct (processSingleSampleRaw _ _) as [value f].
  rewrite H. apply IH. lia.
Qed.

(** A loop over [a + b] samples is a loop over [a] samples and then one
    over [b]. *)
Lemma sampleLoop_add {L : Library} fuel gain startSample (a b : nat) :
  forall sample v outputBuffer,
  Voice.sampleLoop fuel gain startSample (a + b) sample v outputBuffer
  = match Voice.sampleLoop fuel gain startSample a sample v outputBuffer with
    | None => None
    | Some (out, v') =>
        Voice.sampleLoop fuel gain startSample b (sample + Z.of_nat a) v' out
    end.
Proof.
  induction a as [|a IH]; intros sample v outputBuffer.
  - cbn [Nat.add Voice.sampleLoop Z.of_nat]. now rewrite Z.add_0_r.
  - cbn [Nat.add Voice.sampleLoop].
    destruct (Pulse.getNextSample fuel (Voice.pulseOsc v)) as [[x p]|];
      [|reflexivity].
    destruct (processSingleSampleRaw _ _) as [value f].
    rewrite IH.
    destruct (Voice.sampleLoop fuel gain startSample a (sample + 1) _ _)
      as [[out v']|]; [|reflexivity].
    f_equal. lia.
Qed.

(** A control is never more than 0.001 away from itself. *)
Lemma sub_self_not_moved (c : float) : (F32.abs (c - c) >? f1em3)%f32 = false.
Proof.
  destruct c as [s|s| |s m e]; try reflexivity.
  - destruct s; reflexivity.
  - destruct s; reflexivity.
  - unfold F32.sub, SFsub. rewrite Z.sub_diag. reflexivity.
Qed.

(** The refresh of a render call that passes the guards leaves the voice
    refreshed. *)
Lemma refreshed_refreshedFor {L : Library} (ps : Parameters) (v : Voice.t) :
  F64.leb (SynthesiserVoice.getSampleRate (Voice.base v)) F64.zero = false ->
  Design.refreshedFor ps (Design.refreshed ps v)
  /\ Voice.base (Design.refreshed ps v) = Voice.base v
  /\ Voice.isActive (Design.refreshed ps v) = Voice.isActive v
  /\ Voice.currentFrequency (Design.refreshed ps v) = Voice.currentFrequency v.
Proof.
  intros Hsr.
  assert (E : Design.refreshed ps v
              = let v0 :=
                  Voice.set_currentSampleRate
                    (SynthesiserVoice.getSampleRate (Voice.base v))
                    (Voice.set_pulseOsc
                       (Pulse.setPulseWidth (pulseWidthParam ps)
                          (Pulse.setFrequency (Voice.currentFrequency v)
                             (SynthesiserVoice.getSampleRate (Voice.base v))
                             (Voice.pulseOsc v))) v) in
                if (F32.abs (filterCutoffParam ps - Voice.lastFilterCutoff v)
                    >? f1em3)%f32
                then
                  Voice.updateFilterCoefficients ps
                    (Voice.set_lastFilterCutoff (filterCutoffParam ps) v0)
                else v0) by reflexivity.
  rewrite E. clear E. cbv zeta. unfold Design.refreshedFor.
  destruct (F32.abs (filterCutoffParam ps - Voice.lastFilterCutoff v)
            >? f1em3)%f32 eqn:Hmoved.
  - rewrite updateFilterCoefficients_set by exact Hsr.
    cbn [Voice.lastFilterCutoff Voice.set_currentSampleRate
         Voice.set_pulseOsc Voice.set_lastFilterCutoff Voice.pulseOsc
         Voice.base Voice.currentFrequency Voice.currentSampleRate
         Voice.isActive Voice.set_lowPassFilter].
    unfold Pulse.setPulseWidth, Pulse.setFrequency.
    cbn [Pulse.leadingEdge Pulse.trailingEdge Pulse.pulseWidth
         Pulse.set_leadingEdge Pulse.set_trailingEdge Pulse.set_pulseWidth].
    rewrite !saw_setFrequency_set by exact Hsr. cbn [Saw.w Saw.beta].
    rewrite sub_self_not_moved. repeat split.
  - cbn [Voice.lastFilterCutoff Voice.set_currentSampleRate
         Voice.set_pulseOsc Voice.set_lastFilterCutoff Voice.pulseOsc
         Voice.base Voice.currentFrequency Voice.currentSampleRate
         Voice.isActive Voice.set_lowPassFilter].
    unfold Pulse.setPulseWidth, Pulse.setFrequency.
    cbn [Pulse.leadingEdge Pulse.trailingEdge Pulse.pulseWidth
         Pulse.set_leadingEdge Pulse.set_trailingEdge Pulse.set_pulseWidth].
    rewrite !saw_setFrequency_set by exact Hsr. cbn [Saw.w Saw.beta].
    rewrite Hmoved. repeat split.
Qed.

(** A sample changes neither the tuning of the two cores nor the pulse
    width. *)
Lemma pulse_getNextSample_keeps {L : Library} fuel p x p' :
  Pulse.getNextSample fuel p = Some (x, p') ->
  Saw.w (Pulse.leadingEdge p') = Saw.w (Pulse.leadingEdge p)
  /\ Saw.beta (Pulse.leadingEdge p') = Saw.beta (Pulse.leadingEdge p)
  /\ Saw.w (Pulse.trailingEdge p') = Saw.w (Pulse.trailingEdge p)
  /\ Saw.beta (Pulse.trailingEdge p') = Saw.beta (Pulse.trailingEdge p)
  /\ Pulse.pulseWidth p' = Pulse.pulseWidth p.
Proof.
  rewrite pulse_getNextSample_design. cbv zeta.
  destruct (Pulse.wrapShiftedPhase fuel _) as [shiftedPhase|];
    [|discriminate].
  intros H.
  assert (Hp : p' = Pulse.mk (snd (Saw.getNextSample (Pulse.leadingEdge p)))
                      (snd (Saw.getNextSample
                              (Saw.set_phase shiftedPhase
                                 (Pulse.trailingEdge p))))
                      (Pulse.pulseWidth p)) by congruence.
  rewrite Hp. cbn [Pulse.leadingEdge Pulse.trailingEdge Pulse.pulseWidth].
  destruct (saw_getNextSample_tuning (Pulse.leadingEdge p)) as [-> ->].
  destruct (saw_getNextSample_tuning
              (Saw.set_phase shiftedPhase (Pulse.trailingEdge p)))
    as [-> ->].
  repeat split.
Qed.

(** The sample loop keeps a refreshed voice refreshed, and leaves alone
    what the guards of a render call read. *)
Lemma sampleLoop_refreshedFor {L : Library} ps fuel gain startSample todo :
  forall sample v outputBuffer out v',
  Voice.sampleLoop fuel gain startSample todo sample v outputBuffer
  = Some (out, v') ->
  Design.refreshedFor ps v ->
  Design.refreshedFor ps v' /\ Voice.base v' = Voice.base v
  /\ Voice.isActive v' = Voice.isActive v.
Proof.
  induction todo as [|todo IH]; intros sample v outputBuffer out v' H Hv;
    cbn [Voice.sampleLoop] in H.
  - assert (E : v' = v) by congruence. rewrite E. auto.
  - destruct (Pulse.getNextSample fuel (Voice.pulseOsc v)) as [[x p]|] eqn:Ep;
      [|discriminate].
    destruct (processSingleSampleRaw _ _) as [value f].
    apply IH in H.
    + cbn [Voice.base Voice.isActive Voice.set_lowPassFilter
           Voice.set_pulseOsc] in H. exact H.
    + destruct (pulse_getNextSample_keeps _ _ _ _ Ep)
        as (E1 & E2 & E3 & E4 & E5).
      unfold Design.refreshedFor in *.
      cbn [Voice.base Voice.isActive Voice.set_lowPassFilter
           Voice.set_pulseOsc Voice.pulseOsc Voice.currentFrequency
           Voice.currentSampleRate Voice.lastFilterCutoff].
      rewrite E1, E2, E3, E4, E5. exact Hv.
Qed.

(** On a refreshed voice the refresh of a render call changes nothing. *)
Lemma refreshed_again {L : Library} (ps : Parameters) (v : Voice.t) :
  F64.leb (SynthesiserVoice.getSampleRate (Voice.base v)) F64.zero = false ->
  Design.refreshedFor ps v -> Design.refreshed ps v = v.
Proof.
  intros Hsr (E1 & E2 & E3 & E4 & E5 & E6 & E7).
  unfold Design.refreshed. cbv zeta.
  cbn [Voice.lastFilterCutoff Voice.set_currentSampleRate Voice.set_pulseOsc].
  rewrite E7.
  unfold Pulse.setPulseWidth, Pulse.setFrequency.
  cbn [Pulse.leadingEdge Pulse.trailingEdge Pulse.pulseWidth
       Pulse.set_leadingEdge Pulse.set_trailingEdge Pulse.set_pulseWidth].
  rewrite !saw_setFrequency_set by exact Hsr. cbv zeta.
  destruct v as [b [[p1 o1 q1 w1 b1] [p2 o2 q2 w2 b2] pw] lv fr ac lp sr lc].
  cbn [Voice.base Voice.pulseOsc Voice.currentLevel Voice.currentFrequency
       Voice.isActive Voice.lowPassFilter Voice.currentSampleRate
       Voice.lastFilterCutoff Voice.set_currentSampleRate Voice.set_pulseOsc
       Pulse.leadingEdge Pulse.trailingEdge Pulse.pulseWidth
       Saw.phase Saw.osc Saw.previousInput Saw.w Saw.beta] in *.
  subst w1 b1 w2 b2 pw sr. reflexivity.
Qed.

(** X1.  A block rendered in one call is the block rendered in two: for
    [n1, n2 >= 0], [renderNextBlock] over [n1 + n2] samples from
    [startSample] leaves the buffer and the voice that [renderNextBlock]
    over [n1] samples from [startSample] followed by [renderNextBlock]
    over [n2] samples from [startSample + n1] leaves, the parameters being
    the same; with too little fuel for the one there is too little for the
    other. *)
Theorem renderNextBlock_split {L : Library} (fuel : nat) (ps : Parameters)
    (outputBuffer : AudioBuffer) (startSample n1 n2 : Z) (v : Voice.t) :
  0 <= n1 -> 0 <= n2 ->
  Voice.renderNextBlock fuel ps outputBuffer startSample (n1 + n2) v
  = match Voice.renderNextBlock fuel ps outputBuffer startSample n1 v with
    | None => None
    | Some (out, v') =>
        Voice.renderNextBlock fuel ps out (startSample + n1) n2 v'
    end.
Proof.
  intros H1 H2. destruct (Design.renders v) eqn:Hr.
  - rewrite !(renderNextBlock_renders _ _ _ _ _ v) by exact Hr.
    rewrite Z2Nat.inj_add by lia. rewrite sampleLoop_add.
    destruct (Voice.sampleLoop fuel _ startSample (Z.to_nat n1) 0 _ _)
      as [[out v']|] eqn:E; [|reflexivity].
    pose proof Hr as Hg. unfold Design.renders in Hg.
    apply andb_true_iff in Hg. destruct Hg as [Hact Hsr].
    apply negb_true_iff in Hsr.
    destruct (refreshed_refreshedFor ps v Hsr) as (Hf & Hb & Ha & _).
    destruct (sampleLoop_refreshedFor ps _ _ _ _ _ _ _ _ _ E Hf)
      as (Hf' & Hb' & Ha').
    assert (Hr' : Design.renders v' = true).
    { unfold Design.renders, Voice.rendering in *.
      rewrite Hb', Ha', Hb, Ha. rewrite Hact, Hsr. reflexivity. }
    rewrite (renderNextBlock_renders _ _ _ _ _ v') by exact Hr'.
    rewrite refreshed_again; [|rewrite Hb', Hb; exact Hsr|exact Hf'].
    apply sampleLoop_shift. rewrite Z2Nat.id by lia. lia.
  - rewrite (renderNextBlock_idle fuel ps outputBuffer startSample n1 v)
      by exact Hr.
    rewrite (renderNextBlock_idle fuel ps outputBuffer startSample (n1 + n2) v)
      by exact Hr.
    symmetry. apply renderNextBlock_idle. exact Hr.
Qed.

(** X1's theorem at work: three samples of the playing voice, as one block
    and as a block of one sample followed by a block of two. *)
Lemma renderNextBlock_split_witness :
  Voice.renderNextBlock (L := Example.library) 2 defaultParameters
    Example.buffer 0 (1 + 2) Example.playingVoice
  = match
      Voice.renderNextBlock (L := Example.library) 2 defaultParameters
        Example.buffer 0 1 Example.playingVoice
    with
    | None => None
    | Some (out, v') =>
        Voice.renderNextBlock 2 defaultParameters out (0 + 1) 2 v'
    end.
Proof.
  apply (renderNextBlock_split (L := Example.library) 2 defaultParameters
           Example.buffer 0 1 2 Example.playingVoice); lia.
Defined.

(** X2.  After a render call that got past its guards the filter control is
    on record: it is not more than 0.001 away from the recorded value, and
    the refresh of a next call with the same parameters changes nothing in
    the voice, neither the tuning nor the filter's coefficients. *)
Theorem renderNextBlock_settled {L : Library} (fuel : nat) (ps : Parameters)
    (outputBuffer : AudioBuffer) (startSample numSamples : Z)
    (v v' : Voice.t) (out : AudioBuffer) :
  Voice.rendering v = true ->
  F64.leb (SynthesiserVoice.getSampleRate (Voice.base v)) F64.zero = false ->
  Voice.renderNextBlock fuel ps outputBuffer startSample numSamples v
  = Some (out, v') ->
  (F32.abs (filterCutoffParam ps - Voice.lastFilterCutoff v') >? f1em3)%f32
  = false
  /\ Design.refreshed ps v' = v'
  /\ forall (outputBuffer' : AudioBuffer) (startSample' numSamples' : Z),
       Voice.renderNextBlock fuel ps outputBuffer' startSample' numSamples' v'
       = Voice.sampleLoop fuel (decibelsToGain (gainParam ps)) startSample'
           (Z.to_nat numSamples') 0 v' outputBuffer'.
Proof.
  intros Hact Hsr H.
  assert (Hr : Design.renders v = true).
  { unfold Design.renders. now rewrite Hact, Hsr. }
  rewrite (renderNextBlock_renders _ _ _ _ _ v) in H by exact Hr.
  destruct (refreshed_refreshedFor ps v Hsr) as (Hf & Hb & Ha & _).
  destruct (sampleLoop_refreshedFor ps _ _ _ _ _ _ _ _ _ H Hf)
    as (Hf' & Hb' & Ha').
  assert (Hsr' : F64.leb (SynthesiserVoice.getSampleRate (Voice.base v'))
                   F64.zero = false) by (rewrite Hb', Hb; exact Hsr).
  assert (Hr' : Design.renders v' = true).
  { unfold Design.renders, Voice.rendering in *.
    rewrite Hsr'. rewrite Hb', Ha', Hb, Ha. now rewrite Hact. }
  split; [exact (proj2 (proj2 (proj2 (proj2 (proj2 (proj2 Hf'))))))|].
  split; [exact (refreshed_again ps v' Hsr' Hf')|].
  intros outputBuffer' startSample' numSamples'.
  rewrite (renderNextBlock_renders _ _ _ _ _ v') by exact Hr'.
  now rewrite (refreshed_again ps v' Hsr' Hf').
Qed.

(** A render call that gets past its guards adds the block's values. *)
Lemma renderNextBlock_values {L : Library} fuel ps outputBuffer startSample
    numSamples v values v' :
  Design.renders v = true ->
  Design.blockValues fuel ps numSamples v = Some (values, v') ->
  Voice.renderNextBlock fuel ps outputBuffer startSample numSamples v
  = Some (Design.mixIn startSample values outputBuffer, v').
Proof.
  intros Hr H. unfold Design.blockValues in H. rewrite Hr in H.
  rewrite (renderNextBlock_renders _ _ _ _ _ v) by exact Hr.
  rewrite (sampleLoop_values _ _ startSample _ 0 _ outputBuffer _ _ H).
  now rewrite Z.add_0_r.
Qed.

Lemma playingVoice_renders :
  Design.renders (L := Example.library) Example.playingVoice = true.
Proof. vm_compute. reflexivity. Qed.

Lemma playingVoice_rendering :
  Voice.rendering (L := Example.library) Example.playingVoice = true.
Proof. vm_compute. reflexivity. Qed.

Lemma playingVoice_rate :
  F64.leb
    (SynthesiserVoice.getSampleRate (Voice.base Example.playingVoice))
    F64.zero
  = false.
Proof. vm_compute. reflexivity. Qed.

Lemma playingVoice_inRange :
  Design.voiceInRange (L := Example.library) defaultParameters
    Example.playingVoice = true.
Proof. vm_compute. reflexivity. Qed.

(** X2's theorem at work on the playing voice, whose first block records
    the control at 0.5. *)
Lemma renderNextBlock_settled_witness :
  exists out v',
    Voice.renderNextBlock (L := Example.library) 2 defaultParameters
      Example.buffer 0 3 Example.playingVoice
    = Some (out, v')
    /\ Design.refreshed defaultParameters v' = v'.
Proof.
  destruct (blockValues_returns (L := Example.library) 2 defaultParameters 3
              Example.playingVoice playingVoice_inRange (le_n 2))
    as (values & v' & Hvalues).
  pose proof (renderNextBlock_values (L := Example.library) 2
                defaultParameters Example.buffer 0 3 Example.playingVoice
                values v' playingVoice_renders Hvalues) as H.
  exists (Design.mixIn 0 values Example.buffer), v'.
  split; [exact H|].
  exact (proj1 (proj2
    (renderNextBlock_settled (L := Example.library) 2 defaultParameters
       Example.buffer 0 3 Example.playingVoice v' _
       playingVoice_rendering playingVoice_rate H))).
Defined.

(** ** No call hangs

    The phase loop of the pulse oscillator is the one loop of the sources
    without a bound.  Through the interfaces of the oscillator and of the
    voice it is only ever entered with a phase below 2. *)

Lemma pulse_init_inRange : Design.pulseInRange Pulse.init = true.
Proof. reflexivity. Qed.

Lemma pulse_setFrequency_inRange f sr p :
  Design.pulseInRange p = true ->
  Design.pulseInRange (Pulse.setFrequency f sr p) = true.
Proof.
  unfold Design.pulseInRange, Pulse.setFrequency, Saw.setFrequency.
  cbn [Pulse.leadingEdge Pulse.trailingEdge Pulse.pulseWidth
       Pulse.set_leadingEdge Pulse.set_trailingEdge].
  intros H. destruct (F64.leb sr F64.zero); [exact H|].
  cbv zeta. cbn [Saw.phase Saw.w Saw.set_w Saw.set_beta].
  apply andb_true_iff in H. destruct H as [H Hpw].
  apply andb_true_iff in H. destruct H as [Hph _].
  rewrite Hph, Hpw, andb_true_r. cbn [andb].
  apply jlimit_inUnit; try reflexivity.
  rewrite div_valid. apply orb_true_r.
Qed.

Lemma pulse_setPulseWidth_inRange pw p :
  Design.isFloat pw = true -> Design.pulseInRange p = true ->
  Design.pulseInRange (Pulse.setPulseWidth pw p) = true.
Proof.
  unfold Design.pulseInRange, Pulse.setPulseWidth.
  cbn [Pulse.leadingEdge Pulse.trailingEdge Pulse.pulseWidth
       Pulse.set_pulseWidth].
  intros Hpw H.
  apply andb_true_iff in H. destruct H as [H _]. rewrite H. cbn [andb].
  apply jlimit_inUnit; try reflexivity. exact Hpw.
Qed.

Lemma pulse_reset_inRange p :
  Design.pulseInRange p = true -> Design.pulseInRange (Pulse.reset p) = true.
Proof.
  unfold Design.pulseInRange, Pulse.reset, Saw.reset.
  cbn [Pulse.leadingEdge Pulse.trailingEdge Pulse.pulseWidth
       Pulse.set_leadingEdge Pulse.set_trailingEdge Saw.phase Saw.w
       Saw.set_phase Saw.set_osc Saw.set_previousInput].
  intros H.
  apply andb_true_iff in H. destruct H as [H Hpw].
  apply andb_true_iff in H. destruct H as [_ Hw].
  now rewrite Hw, Hpw.
Qed.

(** X3.  From the constructed state, every sequence of [setFrequency],
    [setPulseWidth], [reset] and [getNextSample] calls on the pulse
    oscillator returns, whatever the frequencies and sample rates and for
    every pulse width that is a [float]: no [getNextSample] needs more than
    one subtraction in its phase loop, and the leading phase, [w] and the
    pulse width stay from 0 up to but not 1 (or NaN). *)
Theorem pulse_calls_return {L : Library} (fuel : nat)
    (cs : list Design.PulseCall) :
  (2 <= fuel)%nat -> forallb Design.pulseCallOfFloats cs = true ->
  exists p : Pulse.t,
    Design.applyCalls fuel cs Pulse.init = Some p
    /\ Design.pulseInRange p = true.
Proof.
  intros Hfuel. generalize Pulse.init pulse_init_inRange.
  induction cs as [|c cs IH]; intros p Hp Hcs.
  - exists p. split; [reflexivity|exact Hp].
  - cbn [forallb] in Hcs. apply andb_true_iff in Hcs.
    destruct Hcs as [Hc Hcs]. cbn [Design.applyCalls].
    destruct c as [f sr|pw| |]; cbn [Design.applyCall].
    + apply IH; [|exact Hcs]. now apply pulse_setFrequency_inRange.
    + apply IH; [|exact Hcs]. now apply pulse_setPulseWidth_inRange.
    + apply IH; [|exact Hcs]. now apply pulse_reset_inRange.
    + destruct (pulse_getNextSample_returns fuel p Hp Hfuel)
        as (-> & _ & Hnext).
      apply IH; [exact Hnext|exact Hcs].
Qed.

(** X3's theorem at work on a run of the interface. *)
Lemma pulse_calls_return_witness :
  exists p : Pulse.t,
    Design.applyCalls (L := Example.library) 2 Example.calls Pulse.init
    = Some p
    /\ Design.pulseInRange p = true.
Proof.
  apply (pulse_calls_return (L := Example.library) 2 Example.calls).
  - lia.
  - reflexivity.
Defined.

(** The samples of a block are there for an oscillator in range, which
    stays in range. *)
Lemma sampleValues_inRange {L : Library} (fuel : nat) (gain : float)
    (todo : nat) : forall v : Voice.t,
  Design.pulseInRange (Voice.pulseOsc v) = true -> (2 <= fuel)%nat ->
  exists values v',
    Design.sampleValues fuel gain todo v = Some (values, v')
    /\ Design.pulseInRange (Voice.pulseOsc v') = true.
Proof.
  induction todo as [|todo IH]; intros v Hv Hfuel;
    cbn [Design.sampleValues].
  - exists [], v. split; [reflexivity|exact Hv].
  - destruct (pulse_getNextSample_returns fuel _ Hv Hfuel)
      as (-> & _ & Hnext).
    destruct (processSingleSampleRaw _ _) as [value f].
    destruct (IH (Voice.set_lowPassFilter f
                    (Voice.set_pulseOsc _ v)) Hnext Hfuel)
      as (values & v' & -> & Hv').
    eexists. eexists. split; [reflexivity|exact Hv'].
Qed.

(** A render call returns on a voice whose leading phase is a phase, and
    leaves such a voice. *)
Lemma renderNextBlock_inRange {L : Library} (fuel : nat) (ps : Parameters)
    (outputBuffer : AudioBuffer) (startSample numSamples : Z) (v : Voice.t) :
  Design.voiceInRange ps v = true -> (2 <= fuel)%nat ->
  exists out v',
    Voice.renderNextBlock fuel ps outputBuffer startSample numSamples v
    = Some (out, v')
    /\ Design.inUnit (Saw.phase (Pulse.leadingEdge (Voice.pulseOsc v')))
       = true.
Proof.
  intros Hv Hfuel. destruct (Design.renders v) eqn:Hr.
  - assert (Hsr : F64.leb (SynthesiserVoice.getSampleRate (Voice.base v))
                    F64.zero = false).
    { unfold Design.renders in Hr. apply andb_true_iff in Hr.
      destruct Hr as [_ Hr]. now apply negb_true_iff in Hr. }
    destruct (sampleValues_inRange fuel (decibelsToGain (gainParam ps))
                (Z.to_nat numSamples) (Design.refreshed ps v)
                (refreshed_inRange ps v Hv Hsr) Hfuel)
      as (values & v' & Hvalues & Hv').
    exists (Design.mixIn startSample values outputBuffer), v'.
    split.
    + apply renderNextBlock_values; [exact Hr|].
      unfold Design.blockValues. now rewrite Hr.
    + unfold Design.pulseInRange in Hv'.
      apply andb_true_iff in Hv'. destruct Hv' as [Hv' _].
      apply andb_true_iff in Hv'. exact (proj1 Hv').
  - exists outputBuffer, v. split.
    + now apply renderNextBlock_idle.
    + unfold Design.voiceInRange in Hv. apply andb_true_iff in Hv.
      exact (proj1 Hv).
Qed.

(** [startNote] leaves the leading phase a phase. *)
Lemma startNote_inRange {L : Library} ps midiNoteNumber velocity v :
  Design.inUnit (Saw.phase (Pulse.leadingEdge (Voice.pulseOsc v))) = true ->
  Design.inUnit
    (Saw.phase
       (Pulse.leadingEdge
          (Voice.pulseOsc (Voice.startNote ps midiNoteNumber velocity v))))
  = true.
Proof.
  intros Hv.
  destruct (F64.leb (SynthesiserVoice.getSampleRate (Voice.base v)) F64.zero)
    eqn:Hsr.
  - unfold Voice.startNote. rewrite Hsr. exact Hv.
  - rewrite (startNote_started ps midiNoteNumber velocity v Hsr).
    cbn [Voice.pulseOsc].
    unfold Pulse.setFrequency, Pulse.setPulseWidth, Pulse.reset.
    cbn [Pulse.leadingEdge Pulse.trailingEdge Pulse.pulseWidth
         Pulse.set_leadingEdge Pulse.set_trailingEdge Pulse.set_pulseWidth].
    rewrite saw_setFrequency_set by exact Hsr. reflexivity.
Qed.

(** X4.  From a constructed voice, every sequence of [startNote],
    [stopNote] and [renderNextBlock] calls, with any writes of the
    synthesiser to the base-class members in between, returns, for every
    note, velocity, buffer and block and for all parameter values of which
    the pulse width is a [float]: no render call needs more than one
    subtraction per sample in the oscillator's phase loop. *)
Theorem voice_calls_return {L : Library} (fuel : nat)
    (cs : list Design.VoiceCall) :
  (2 <= fuel)%nat -> forallb Design.voiceCallOfFloats cs = true ->
  exists v : Voice.t,
    Design.applyVoiceCalls fuel cs Voice.init = Some v
    /\ Design.inUnit (Saw.phase (Pulse.leadingEdge (Voice.pulseOsc v)))
       = true.
Proof.
  intros Hfuel.
  assert (Hinit : Design.inUnit
                    (Saw.phase
                       (Pulse.leadingEdge (Voice.pulseOsc Voice.init)))
                  = true) by reflexivity.
  revert Hinit. generalize Voice.init.
  induction cs as [|c cs IH]; intros v Hv Hcs.
  - exists v. split; [reflexivity|exact Hv].
  - cbn [forallb] in Hcs. apply andb_true_iff in Hcs.
    destruct Hcs as [Hc Hcs]. cbn [Design.applyVoiceCalls].
    destruct c as [ps note velocity|velocity tail|ps buffer start n|b];
      cbn [Design.applyVoiceCall Design.voiceCallOfFloats] in *.
    + apply IH; [|exact Hcs]. now apply startNote_inRange.
    + apply IH; [|exact Hcs]. reflexivity.
    + destruct (renderNextBlock_inRange fuel ps buffer start n v)
        as (out & v' & -> & Hv'); [|exact Hfuel|].
      * unfold Design.voiceInRange. now rewrite Hv, Hc.
      * apply IH; [exact Hv'|exact Hcs].
    + apply IH; [exact Hv|exact Hcs].
Qed.

(** X4's theorem at work on a run of a voice. *)
Lemma voice_calls_return_witness :
  exists v : Voice.t,
    Design.applyVoiceCalls (L := Example.library) 2 Example.voiceCalls
      Voice.init
    = Some v
    /\ Design.inUnit (Saw.phase (Pulse.leadingEdge (Voice.pulseOsc v)))
       = true.
Proof.
  apply (voice_calls_return (L := Example.library) 2 Example.voiceCalls).
  - lia.
  - reflexivity.
Defined.

(** ** The normaliser of the saw *)

(** A [float] above [minNorm] is above 0. *)
Lemma above_minNorm_positive (b : float) :
  (minNorm <? b)%f32 = true -> (F32.zero <? b)%f32 = true.
Proof.
  unfold F32.ltb, SFltb, minNorm.
  destruct b as [s|s| |s m e]; cbn [SFcompare]; try discriminate.
  - destruct s; [discriminate|reflexivity].
  - destruct s; [discriminate|reflexivity].
Qed.

Lemma ltb_leb (x y : float) : (x <? y)%f32 = true -> (x <=? y)%f32 = true.
Proof.
  unfold F32.ltb, F32.leb, SFltb, SFleb.
  destruct (SFcompare x y) as [[]|]; congruence.
Qed.

(** X5.  The saw's sample is a quotient whose divisor
    [jmax (minNorm, 1 − 2·w)] is, for every [w], NaN and the infinities
    included, a number that is at least [minNorm = 0.001] and above 0; the
    pulse's sample is the clamped difference of two such samples, the
    trailing one taken with the trailing core's [w].  No sample of either
    core is a division by zero or by NaN. *)
Theorem saw_norm_guard {L : Library} (s : Saw.t) :
  let n := Design.normOf (Saw.w s) in
  fst (Saw.getNextSample s)
  = ((hfCompA0 * Design.sawOsc (Saw.phase s) s
      + hfCompA1 * Saw.previousInput s
      - (f0_376 - f0_752 * Saw.w s)) / n)%f32
  /\ F32.is_nan n = false
  /\ (minNorm <=? n)%f32 = true
  /\ (F32.zero <? n)%f32 = true
  /\ forall (fuel : nat) (p p' : Pulse.t) (x : float),
       Pulse.getNextSample fuel p = Some (x, p') ->
       exists shiftedPhase : float,
         let t := Saw.set_phase shiftedPhase (Pulse.trailingEdge p) in
         x = jlimit fm1 F32.one
               (fst (Saw.getNextSample (Pulse.leadingEdge p))
                - fst (Saw.getNextSample t))%f32
         /\ Saw.w t = Saw.w (Pulse.trailingEdge p).
Proof.
  cbv zeta. split; [reflexivity|].
  assert (Hn : F32.is_nan (Design.normOf (Saw.w s)) = false
               /\ (minNorm <=? Design.normOf (Saw.w s))%f32 = true
               /\ (F32.zero <? Design.normOf (Saw.w s))%f32 = true).
  { unfold Design.normOf, jmax.
    destruct (minNorm <? F32.one - f2 * Saw.w s)%f32 eqn:E.
    - split; [|split].
      + destruct (F32.one - f2 * Saw.w s)%f32; try reflexivity; discriminate.
      + now apply ltb_leb.
      + now apply above_minNorm_positive.
    - repeat split. }
  destruct Hn as (H1 & H2 & H3). repeat (split; [assumption|]).
  intros fuel p p' x H. rewrite pulse_getNextSample_design in H.
  cbv zeta in H.
  destruct (Pulse.wrapShiftedPhase fuel _) as [shiftedPhase|];
    [|discriminate].
  exists shiftedPhase. split; [congruence|reflexivity].
Qed.

(** ** The block callback and the host *)

Lemma clear_same_shape (b b' : AudioBuffer) :
  map (@length float) b = map (@length float) b' -> clear b = clear b'.
Proof.
  revert b'. induction b as [|c b IH]; intros [|c' b'] H;
    try discriminate; [reflexivity|].
  cbn [map] in H. injection H as Hc Hb. unfold clear in *. cbn [map].
  f_equal; [|now apply IH].
  clear - Hc. revert c' Hc.
  induction c as [|x c IH]; intros [|x' c'] H; try discriminate;
    [reflexivity|].
  cbn [length] in H. cbn [map]. f_equal. apply IH. congruence.
Qed.

Lemma getNumSamples_same_shape (b b' : AudioBuffer) :
  map (@length float) b = map (@length float) b' ->
  getNumSamples b = getNumSamples b'.
Proof.
  destruct b as [|c b], b' as [|c' b']; try discriminate; [reflexivity|].
  cbn [map getNumSamples]. intros H. injection H as Hc _. now rewrite Hc.
Qed.

(** X6.  [processBlock] reads the incoming buffer only for its shape: two
    buffers with the same channels of the same lengths give the same
    output, whatever samples they hold, for any keyboard and synthesiser;
    and whenever the call returns, the MIDI buffer is left empty. *)
Theorem processBlock_ignores_input {L : Library} (MidiEvent K : Type)
    (processNextMidiBuffer :
       K -> list MidiEvent -> Z -> Z -> bool -> list MidiEvent * K)
    (Synthesiser_renderNextBlock :
       Parameters -> list Voice.t -> AudioBuffer -> list MidiEvent -> Z -> Z ->
       option (AudioBuffer * list Voice.t))
    (buffer buffer' : AudioBuffer) (midiMessages : list MidiEvent)
    (p : Processor.t K) :
  map (@length float) buffer = map (@length float) buffer' ->
  Processor.processBlock processNextMidiBuffer Synthesiser_renderNextBlock
    buffer midiMessages p
  = Processor.processBlock processNextMidiBuffer Synthesiser_renderNextBlock
      buffer' midiMessages p
  /\ forall out midi p',
       Processor.processBlock processNextMidiBuffer
         Synthesiser_renderNextBlock buffer midiMessages p
       = Some (out, midi, p') ->
       midi = [].
Proof.
  intros Hshape. unfold Processor.processBlock.
  rewrite (clear_same_shape _ _ Hshape).
  rewrite (getNumSamples_same_shape _ _ Hshape).
  split; [reflexivity|].
  intros out midi p'.
  destruct (F64.leb (Processor.lastSampleRate p) F64.zero);
    [intros H; congruence|].
  destruct (processNextMidiBuffer _ _ _ _ _) as [midi' keyboard].
  destruct (Synthesiser_renderNextBlock _ _ _ _ _ _) as [[out' voices]|];
    [intros H; congruence|discriminate].
Qed.

(** X6's theorem at work: the buffer of the examples and a silent buffer of
    the same shape. *)
Lemma processBlock_ignores_input_witness :
  Processor.processBlock (L := Example.library) Example.keyboardPass
    Example.synthIdle Example.buffer [tt] Example.stoppedProcessor
  = Processor.processBlock (L := Example.library) Example.keyboardPass
      Example.synthIdle (clear Example.buffer) [tt] Example.stoppedProcessor.
Proof.
  apply (processBlock_ignores_input (L := Example.library) unit unit
           Example.keyboardPass Example.synthIdle Example.buffer
           (clear Example.buffer) [tt] Example.stoppedProcessor).
  reflexivity.
Defined.

(** X7.  [prepareToPlay] caches the host's sample rate, whatever was cached
    before and whatever the block size, and hands it to the synthesiser;
    parameters and keyboard state are left alone.  After a
    [prepareToPlay] with a rate [<= 0], [processBlock] clears the buffer
    and the MIDI buffer and touches neither voices nor keyboard. *)
Theorem prepareToPlay_guards {L : Library} (MidiEvent K : Type)
    (processNextMidiBuffer :
       K -> list MidiEvent -> Z -> Z -> bool -> list MidiEvent * K)
    (Synthesiser_renderNextBlock :
       Parameters -> list Voice.t -> AudioBuffer -> list MidiEvent -> Z -> Z ->
       option (AudioBuffer * list Voice.t))
    (setRate : double -> list Voice.t -> list Voice.t)
    (sampleRate : double) (samplesPerBlock : Z) (p : Processor.t K) :
  let p' := Processor.prepareToPlay setRate sampleRate samplesPerBlock p in
  Processor.lastSampleRate p' = sampleRate
  /\ Processor.synth p' = setRate sampleRate (Processor.synth p)
  /\ Processor.parameters p' = Processor.parameters p
  /\ Processor.keyboardState p' = Processor.keyboardState p
  /\ (forall n : Z, Processor.prepareToPlay setRate sampleRate n p = p')
  /\ (F64.leb sampleRate F64.zero = true ->
      forall (buffer : AudioBuffer) (midiMessages : list MidiEvent),
        Processor.processBlock processNextMidiBuffer
          Synthesiser_renderNextBlock buffer midiMessages p'
        = Some (clear buffer, [], p')).
Proof.
  cbv zeta. do 5 (split; [reflexivity|]).
  intros H buffer midiMessages.
  unfold Processor.processBlock, Processor.prepareToPlay.
  cbn [Processor.lastSampleRate]. now rewrite H.
Qed.

(** X7's theorem at work: a host that prepares the constructed processor
    with a rate of 0 gets silence. *)
Lemma prepareToPlay_guards_witness :
  Processor.processBlock (L := Example.library) Example.keyboardPass
    Example.synthIdle Example.buffer [tt]
    (Processor.prepareToPlay (fun _ voices => voices) F64.zero 512
       (Processor.init tt))
  = Some (clear Example.buffer, [],
          Processor.prepareToPlay (fun _ voices => voices) F64.zero 512
            (Processor.init tt)).
Proof.
  apply (prepareToPlay_guards (L := Example.library) unit unit
           Example.keyboardPass Example.synthIdle (fun _ voices => voices)
           F64.zero 512 (Processor.init tt)).
  reflexivity.
Defined.

(** ** After a note-off *)

(** X8.  A stopped voice stays silent until its next [startNote]: after
    [stopNote], whatever the synthesiser writes to the base-class members
    (a new note, a channel, a sample rate), every render call, even one
    without fuel, returns the buffer and the voice as they were; so does
    every render call of any voice of the synthesiser after
    [releaseResources]. *)
Theorem stopped_voice_silent {L : Library} (fuel : nat) (ps : Parameters)
    (outputBuffer : AudioBuffer) (startSample numSamples : Z) :
  (forall (velocity : float) (allowTailOff : bool) (v : Voice.t),
     let v' := Voice.stopNote velocity allowTailOff v in
     Voice.renderNextBlock fuel ps outputBuffer startSample numSamples v'
     = Some (outputBuffer, v')
     /\ forall b : SynthesiserVoice.t,
          Voice.renderNextBlock fuel ps outputBuffer startSample numSamples
            (Voice.set_base b v')
          = Some (outputBuffer, Voice.set_base b v'))
  /\ (forall (K : Type) (p : Processor.t K) (v : Voice.t),
        In v (Processor.synth (Processor.releaseResources p)) ->
        Voice.renderNextBlock fuel ps outputBuffer startSample numSamples v
        = Some (outputBuffer, v)).
Proof.
  split.
  - intros velocity allowTailOff v. cbv zeta. split; [reflexivity|].
    intros b. unfold Voice.renderNextBlock, Voice.renderNextBlockLoads.
    cbn [Voice.isActive Voice.set_base Voice.stopNote Voice.set_currentLevel
         Voice.set_isActive negb].
    now rewrite orb_true_r.
  - intros K p v Hv. unfold Processor.releaseResources in Hv.
    cbn [Processor.synth] in Hv. unfold Processor.allNotesOff in Hv.
    apply in_map_iff in Hv. destruct Hv as (u & <- & _).
    cbn [Z.leb Z.compare orb]. reflexivity.
Qed.

(** X8's theorem at work on the first voice of the constructed processor
    after [releaseResources]. *)
Lemma stopped_voice_silent_witness :
  Voice.renderNextBlock (L := Example.library) 0 defaultParameters
    Example.buffer 0 3 (Voice.stopNote F32.one true Example.addedVoice)
  = Some (Example.buffer, Voice.stopNote F32.one true Example.addedVoice).
Proof.
  apply (proj2 (stopped_voice_silent (L := Example.library) 0
                  defaultParameters Example.buffer 0 3)
           unit (Processor.init tt)).
  left. reflexivity.
Defined.

(** ** Magnitudes

    Rounding to nearest never passes a power of two, so that bounds by
    powers of two go through sums, products and quotients. *)

Lemma pow2_le_inv (a b : Z) : 0 <= a -> 2 ^ a <= 2 ^ b -> a <= b.
Proof.
  intros Ha H. destruct (Z_le_gt_dec a b) as [Hle|Hgt]; [exact Hle|].
  destruct (Z_lt_le_dec b 0) as [Hb|Hb].
  - rewrite (Z.pow_neg_r 2 b Hb) in H. pose proof (pow2_pos a Ha). lia.
  - assert (2 ^ b < 2 ^ a) by (apply Z.pow_lt_mono_r; lia). lia.
Qed.

(** The last step of a rounding: the mantissa is brought back to 24 digits
    and the result is a number unless it is too large. *)
Lemma round_finish (sx : bool) (m1 e1 : Z) :
  0 <= m1 <= 2 ^ 24 -> -149 <= e1 -> (-149 < e1 -> 2 ^ 23 <= m1) ->
  let r :=
    let '(mrs, e2) := shr_fexp F32.prec F32.emax m1 e1 loc_Exact in
    match shr_m mrs with
    | Z0 => S754_zero sx
    | Z.pos m =>
        if e2 <=? F32.emax - F32.prec then S754_finite sx m e2
        else S754_infinity sx
    | Z.neg _ => S754_nan
    end in
  F32.valid r = true
  /\ (m1 * 2 ^ (e1 + 149) <= 2 ^ 276 ->
      F32.is_finite r = true /\ Design.units r = m1 * 2 ^ (e1 + 149)).
Proof.
  intros Hm He Hnorm. cbv zeta.
  assert (Hp : 0 < 2 ^ (e1 + 149)) by (apply pow2_pos; lia).
  destruct (Z.eq_dec m1 0) as [E0|E0].
  { rewrite E0. unfold shr_fexp. cbn [Zdigits2 shr_record_of_loc].
    assert (Hs : fexp F32.prec F32.emax (0 + e1) - e1 <= 0)
      by (unfold fexp, emin, F32.prec, F32.emax; lia).
    destruct (fexp F32.prec F32.emax (0 + e1) - e1); try lia;
      cbn [shr shr_m]; repeat split. }
  change (2 ^ 24) with 16777216 in Hm. change (2 ^ 23) with 8388608 in Hnorm.
  destruct (Z.eq_dec m1 16777216) as [E|E].
  - rewrite E. unfold shr_fexp. cbn [Zdigits2 shr_record_of_loc].
    change (Z.pos (digits2_pos 16777216)) with 25.
    assert (E1 : fexp F32.prec F32.emax (25 + e1) - e1 = 1)
      by (unfold fexp, emin, F32.prec, F32.emax; lia).
    rewrite E1. cbn [shr iter_pos shr_1 shr_m].
    destruct (e1 + 1 <=? F32.emax - F32.prec) eqn:B.
    + split.
      * unfold F32.valid, valid_binary, bounded, canonical_mantissa.
        rewrite B. change (Z.pos (digits2_pos 8388608)) with 24.
        rewrite andb_true_r. apply Z.eqb_eq.
        unfold fexp, emin, F32.prec, F32.emax. lia.
      * intros _. split; [reflexivity|]. cbn [Design.units].
        replace (e1 + 1 + 149) with (Z.succ (e1 + 149)) by lia.
        rewrite Z.pow_succ_r by lia. lia.
    + split; [reflexivity|]. intros Hb. exfalso.
      apply Z.leb_gt in B. unfold F32.emax, F32.prec in B.
      change 16777216 with (2 ^ 24) in Hb.
      rewrite <- Z.pow_add_r in Hb by lia.
      apply pow2_le_inv in Hb; lia.
  - destruct m1 as [|mp|mp]; try lia.
    assert (Hd : Z.pos (digits2_pos mp) <= 24
                 /\ (-149 < e1 -> Z.pos (digits2_pos mp) = 24)).
    { pose proof (digits2_pos_bounds mp) as [Plo Phi]. split.
      - destruct (Z_le_gt_dec (Z.pos (digits2_pos mp)) 24) as [Hle|Hgt];
          [exact Hle|].
        assert (2 ^ 24 <= 2 ^ (Z.pos (digits2_pos mp) - 1))
          by (apply Z.pow_le_mono_r; lia).
        change (2 ^ 24) with 16777216 in *. lia.
      - intros Hn. specialize (Hnorm Hn).
        apply digits2_pos_unique;
          [change (2 ^ (24 - 1)) with 8388608;
           change (2 ^ 24) with 16777216|]; lia. }
    destruct Hd as [Hd Hd24].
    assert (Hc : fexp F32.prec F32.emax (Z.pos (digits2_pos mp) + e1) = e1).
    { unfold fexp, emin, F32.prec, F32.emax.
      destruct (Z.eq_dec e1 (-149)) as [->|Hne]; [lia|].
      rewrite Hd24 by lia. lia. }
    rewrite (shr_fexp_canonical mp e1 Hc). cbn [shr_m].
    destruct (e1 <=? F32.emax - F32.prec) eqn:B.
    + split.
      * unfold F32.valid, valid_binary, bounded, canonical_mantissa.
        now rewrite Hc, Z.eqb_refl, B.
      * intros _. split; reflexivity.
    + split; [reflexivity|]. intros Hb. exfalso.
      apply Z.leb_gt in B. unfold F32.emax, F32.prec in B.
      assert (Hn : 8388608 <= Z.pos mp) by (apply Hnorm; lia).
      assert (H2 : 2 ^ 23 * 2 ^ (e1 + 149) <= 2 ^ 276)
        by (change (2 ^ 23) with 8388608; nia).
      rewrite <- Z.pow_add_r in H2 by lia.
      apply pow2_le_inv in H2; lia.
Qed.

(** A mantissa [m] at exponent [e] whose value is at most [2^k] rounds to
    a number of magnitude at most [2^k]. *)
Lemma round_aux_atMost (sx : bool) (m e k : Z) (l : location) :
  0 <= m -> e <= fexp F32.prec F32.emax (Zdigits2 m + e) ->
  -149 <= k <= 127 -> e <= k ->
  (l = loc_Exact /\ m <= 2 ^ (k - e)) \/ m < 2 ^ (k - e) ->
  Design.atMost k (binary_round_aux F32.prec F32.emax sx m e l) = true.
Proof.
  intros Hm He Hk Hek Hbound. unfold binary_round_aux.
  pose proof (shr_fexp_digits m e l Hm He) as H1.
  pose proof (shr_fexp_value m e l Hm He) as H2. cbv zeta in H2.
  destruct (shr_fexp F32.prec F32.emax m e l) as [mrs e1].
  destruct H1 as (He1 & Hq & Hnorm). destruct H2 as (_ & Hdiv & Hexact).
  rewrite <- He1 in Hdiv, Hexact.
  assert (Hlow : -149 <= e1)
    by (rewrite He1; unfold fexp, emin, F32.prec, F32.emax; lia).
  assert (Hn : 0 <= e1 - e) by lia.
  assert (H2n : 0 < 2 ^ (e1 - e)) by (apply pow2_pos; lia).
  assert (He1k : e1 <= k).
  { destruct (Z.eq_dec m 0) as [->|Hm0].
    - unfold fexp, emin, F32.prec, F32.emax in He1. cbn [Zdigits2] in *.
      unfold fexp, emin, F32.prec, F32.emax in He. lia.
    - destruct (Zdigits2_bounds m ltac:(lia)) as [[Hlo _] Hd].
      assert (Hmk : m <= 2 ^ (k - e)) by (destruct Hbound as [[_ ?]|?]; lia).
      assert (Hle : 2 ^ (Zdigits2 m - 1) <= 2 ^ (k - e)) by lia.
      apply pow2_le_inv in Hle; [|lia].
      unfold fexp, emin, F32.prec, F32.emax in He1. lia. }
  set (c := 2 ^ (k - e1)).
  assert (Hc : 0 < c) by (apply pow2_pos; lia).
  assert (Hsplit : 2 ^ (k - e) = c * 2 ^ (e1 - e)).
  { unfold c. rewrite <- Z.pow_add_r by lia. f_equal. lia. }
  pose proof (round_nearest_even_range mrs) as [Hm1 Hsame].
  set (m1 := round_nearest_even (shr_m mrs) (loc_of_shr_record mrs)) in *.
  pose proof (Z.div_mod m (2 ^ (e1 - e)) ltac:(lia)) as Hdm.
  pose proof (Z.mod_pos_bound m (2 ^ (e1 - e)) H2n) as Hrem.
  rewrite <- Hdiv in Hdm.
  assert (Hm1c : m1 <= c).
  { destruct Hbound as [[Hl Hle]|Hlt].
    - rewrite Hsplit in Hle.
      destruct (Z_lt_le_dec (shr_m mrs) c) as [Hqc|Hqc]; [lia|].
      assert (Hmod : m mod 2 ^ (e1 - e) = 0) by nia.
      destruct (Hexact Hl Hmod) as [Hr Hs].
      rewrite (Hsame Hr Hs). nia.
    - rewrite Hsplit in Hlt.
      assert (shr_m mrs < c) by nia. lia. }
  change (2 ^ 24) with 16777216 in Hq. change (2 ^ 23) with 8388608 in Hnorm.
  destruct (round_finish sx m1 e1) as [Hvalid Hfin].
  - change (2 ^ 24) with 16777216. lia.
  - exact Hlow.
  - change (2 ^ 23) with 8388608. intros Hl. specialize (Hnorm Hl). lia.
  - cbv zeta in Hvalid, Hfin.
    assert (Hp : 0 < 2 ^ (e1 + 149)) by (apply pow2_pos; lia).
    assert (Hck : c * 2 ^ (e1 + 149) = 2 ^ (k + 149)).
    { unfold c. rewrite <- Z.pow_add_r by lia. f_equal. lia. }
    assert (Hb : m1 * 2 ^ (e1 + 149) <= 2 ^ (k + 149)) by nia.
    assert (Hk276 : 2 ^ (k + 149) <= 2 ^ 276)
      by (apply Z.pow_le_mono_r; lia).
    destruct Hfin as [Hf Hu]; [lia|].
    unfold Design.atMost. rewrite Hvalid, Hf, Hu. apply Z.leb_le. exact Hb.
Qed.

Lemma atMost_cases (k : Z) (x : float) :
  Design.atMost k x = true ->
  F32.valid x = true /\ F32.is_finite x = true
  /\ Design.units x <= 2 ^ (k + 149).
Proof.
  unfold Design.atMost. intros H.
  apply andb_true_iff in H. destruct H as [H Hu].
  apply andb_true_iff in H. destruct H as [Hv Hf].
  apply Z.leb_le in Hu. auto.
Qed.

Lemma atMost_zero (k : Z) (s : bool) :
  -149 <= k -> Design.atMost k (S754_zero s) = true.
Proof.
  intros Hk. unfold Design.atMost. cbn [F32.valid valid_binary F32.is_finite
    Design.units andb]. apply Z.leb_le.
  pose proof (pow2_pos (k + 149)). lia.
Qed.

(** A bound can be widened. *)
Lemma atMost_weaken (k k' : Z) (x : float) :
  Design.atMost k x = true -> -149 <= k <= k' ->
  Design.atMost k' x = true.
Proof.
  intros H Hk. destruct (atMost_cases k x H) as (Hv & Hf & Hu).
  unfold Design.atMost. rewrite Hv, Hf. apply Z.leb_le.
  assert (2 ^ (k + 149) <= 2 ^ (k' + 149)) by (apply Z.pow_le_mono_r; lia).
  lia.
Qed.

Lemma atMost_opp (k : Z) (x : float) :
  Design.atMost k (SFopp x) = Design.atMost k x.
Proof. destruct x; reflexivity. Qed.

(** The exponent and the digits of a number of magnitude at most [2^k]. *)
Lemma atMost_finite (k : Z) (s : bool) (m : positive) (e : Z) :
  Design.atMost k (S754_finite s m e) = true -> -149 <= k ->
  -149 <= e <= k /\ Z.pos m <= 2 ^ (k - e)
  /\ Z.pos (digits2_pos m) + e <= k + 1.
Proof.
  intros H Hk. destruct (atMost_cases k _ H) as (Hv & _ & Hu).
  destruct (valid_finite s m e Hv) as (He & _ & _).
  cbn [Design.units] in Hu.
  assert (Hp : 0 < 2 ^ (e + 149)) by (apply pow2_pos; lia).
  assert (Hek : e <= k).
  { assert (H1 : 2 ^ (e + 149) <= 2 ^ (k + 149)) by nia.
    apply pow2_le_inv in H1; lia. }
  assert (Hsplit : 2 ^ (k + 149) = 2 ^ (k - e) * 2 ^ (e + 149)).
  { rewrite <- Z.pow_add_r by lia. f_equal. lia. }
  assert (Hm : Z.pos m <= 2 ^ (k - e)) by nia.
  split; [lia|]. split; [exact Hm|].
  pose proof (digits2_pos_bounds m) as [Plo _].
  assert (H1 : 2 ^ (Z.pos (digits2_pos m) - 1) <= 2 ^ (k - e)) by lia.
  apply pow2_le_inv in H1; lia.
Qed.

(** A positive integer at exponent [e] whose value is at most [2^k]. *)
Lemma binary_round_atMost (sx : bool) (m : positive) (e k : Z) :
  -149 <= e <= k -> k <= 127 -> Z.pos m <= 2 ^ (k - e) ->
  Design.atMost k (binary_round F32.prec F32.emax sx m e) = true.
Proof.
  intros He Hk Hm. unfold binary_round, shl_align.
  set (d := Z.pos (digits2_pos m)).
  set (e1 := fexp F32.prec F32.emax (d + e)).
  destruct (e1 - e) as [|n|n] eqn:E.
  - apply round_aux_atMost; try lia.
    + cbn [Zdigits2]. fold d. fold e1. lia.
    + left. split; [reflexivity|exact Hm].
  - apply round_aux_atMost; try lia.
    + cbn [Zdigits2]. fold d. fold e1. lia.
    + left. split; [reflexivity|exact Hm].
  - assert (He1 : -149 <= e1)
      by (unfold e1, fexp, emin, F32.prec, F32.emax; lia).
    apply round_aux_atMost; try lia.
    + cbn [Zdigits2]. rewrite digits2_pos_iter_xO. fold d.
      replace (d + Z.pos n + e1) with (d + e) by lia. fold e1. lia.
    + left. split; [reflexivity|]. rewrite pos_iter_xO_value.
      replace (k - e1) with ((k - e) + Z.pos n) by lia.
      rewrite Z.pow_add_r by lia.
      pose proof (pow2_pos (Z.pos n) ltac:(lia)). nia.
Qed.

(** The digits of a product. *)
Lemma digits2_pos_mul (a b : positive) :
  Z.pos (digits2_pos a) + Z.pos (digits2_pos b) - 1
  <= Z.pos (digits2_pos (a * b)).
Proof.
  pose proof (digits2_pos_bounds a) as [La _].
  pose proof (digits2_pos_bounds b) as [Lb _].
  pose proof (Zdigits2_lower (Z.pos (a * b))
                (Z.pos (digits2_pos a) - 1 + (Z.pos (digits2_pos b) - 1)))
    as H.
  cbn [Zdigits2] in H. rewrite Z.pow_add_r in H by lia.
  rewrite Pos2Z.inj_mul in H.
  pose proof (pow2_pos (Z.pos (digits2_pos a) - 1) ltac:(lia)).
  pose proof (pow2_pos (Z.pos (digits2_pos b) - 1) ltac:(lia)).
  assert (Hle : 2 ^ (Z.pos (digits2_pos a) - 1)
                * 2 ^ (Z.pos (digits2_pos b) - 1)
                <= Z.pos a * Z.pos b) by nia.
  specialize (H ltac:(lia) Hle). lia.
Qed.

(** Products. *)
Lemma mul_atMost (a b : Z) (x y : float) :
  Design.atMost a x = true -> Design.atMost b y = true ->
  -149 <= a -> -149 <= b -> -149 <= a + b <= 127 ->
  Design.atMost (a + b) (x * y)%f32 = true.
Proof.
  intros Hx Hy Ha Hb Hab.
  destruct x as [sx|sx| |sx mx ex]; try discriminate;
    destruct y as [sy|sy| |sy my ey]; try discriminate;
    try (apply atMost_zero; lia).
  destruct (atMost_finite a sx mx ex Hx Ha) as (Hex & Hmx & _).
  destruct (atMost_finite b sy my ey Hy Hb) as (Hey & Hmy & _).
  destruct (atMost_cases a _ Hx) as (Vx & _ & _).
  destruct (atMost_cases b _ Hy) as (Vy & _ & _).
  destruct (valid_finite sx mx ex Vx) as (_ & Hdx & Cx).
  destruct (valid_finite sy my ey Vy) as (_ & Hdy & Cy).
  unfold F32.mul. cbn [SFmul].
  apply round_aux_atMost; try lia.
  - cbn [Zdigits2]. pose proof (digits2_pos_mul mx my) as Hd.
    pose proof (digits2_pos_bounds mx) as [_ _].
    assert (1 <= Z.pos (digits2_pos mx)) by lia.
    assert (1 <= Z.pos (digits2_pos my)) by lia.
    unfold fexp, emin, F32.prec, F32.emax. lia.
  - left. split; [reflexivity|]. rewrite Pos2Z.inj_mul.
    replace (a + b - (ex + ey)) with ((a - ex) + (b - ey)) by lia.
    rewrite Z.pow_add_r by lia.
    pose proof (pow2_pos (a - ex) ltac:(lia)).
    pose proof (pow2_pos (b - ey) ltac:(lia)). nia.
Qed.

(** Sums. *)
Lemma add_atMost (a : Z) (x y : float) :
  Design.atMost a x = true -> Design.atMost a y = true ->
  -149 <= a <= 126 ->
  Design.atMost (a + 1) (x + y)%f32 = true.
Proof.
  intros Hx Hy Ha.
  destruct x as [sx|sx| |sx mx ex]; try discriminate;
    destruct y as [sy|sy| |sy my ey]; try discriminate.
  - unfold F32.add. cbn [SFadd].
    destruct sx, sy; apply atMost_zero; lia.
  - apply (atMost_weaken a); [exact Hy|lia].
  - apply (atMost_weaken a); [exact Hx|lia].
  - destruct (atMost_finite a sx mx ex Hx ltac:(lia)) as (Hex & _ & _).
    destruct (atMost_finite a sy my ey Hy ltac:(lia)) as (Hey & _ & _).
    destruct (atMost_cases a _ Hx) as (_ & _ & Ux).
    destruct (atMost_cases a _ Hy) as (_ & _ & Uy).
    cbn [Design.units] in Ux, Uy.
    unfold F32.add. cbn [SFadd]. cbv zeta.
    set (ez := Z.min ex ey).
    pose proof (shl_align_units mx ex ez ltac:(unfold ez; lia)) as Ax.
    pose proof (shl_align_units my ey ez ltac:(unfold ez; lia)) as Ay.
    set (px := fst (shl_align mx ex ez)) in *.
    set (py := fst (shl_align my ey ez)) in *.
    assert (Hez : -149 <= ez <= a) by (unfold ez; lia).
    assert (Hp : 0 < 2 ^ (ez + 149)) by (apply pow2_pos; lia).
    assert (Hsplit : 2 ^ (a + 1 + 149) = 2 * 2 ^ (a + 149)).
    { replace (a + 1 + 149) with (Z.succ (a + 149)) by lia.
      apply Z.pow_succ_r. lia. }
    assert (Hsplit2 : 2 ^ (a + 1 + 149) = 2 ^ (a + 1 - ez) * 2 ^ (ez + 149)).
    { rewrite <- Z.pow_add_r by lia. f_equal. lia. }
    assert (Hsum : forall M : positive,
               Z.pos M <= Z.pos px + Z.pos py ->
               Z.pos M <= 2 ^ (a + 1 - ez)).
    { intros M HM.
      pose proof (pow2_pos (a + 1 - ez) ltac:(lia)). nia. }
    destruct (cond_Zopp sx (Z.pos px) + cond_Zopp sy (Z.pos py))
      as [|M|M] eqn:EM; cbn [binary_normalize].
    + apply atMost_zero. lia.
    + apply binary_round_atMost; try lia. apply Hsum.
      destruct sx, sy; cbn [cond_Zopp] in EM; lia.
    + apply binary_round_atMost; try lia. apply Hsum.
      destruct sx, sy; cbn [cond_Zopp] in EM; lia.
Qed.

(** Differences. *)
Lemma sub_atMost (a : Z) (x y : float) :
  Design.atMost a x = true -> Design.atMost a y = true ->
  -149 <= a <= 126 ->
  Design.atMost (a + 1) (x - y)%f32 = true.
Proof.
  intros Hx Hy Ha. unfold F32.sub. rewrite <- SFadd_opp_r.
  apply (add_atMost a x (SFopp y)); [exact Hx| |exact Ha].
  now rewrite atMost_opp.
Qed.

(** The quotient that a division hands to the rounding sits at or below
    its exponent. *)
Lemma SFdiv_core_pre (mx my : positive) (ex ey : Z) :
  let '(q, e', _) :=
    SFdiv_core_binary F32.prec F32.emax (Z.pos mx) ex (Z.pos my) ey in
  0 <= q /\ e' <= fexp F32.prec F32.emax (Zdigits2 q + e').
Proof.
  unfold SFdiv_core_binary.
  set (d1 := Zdigits2 (Z.pos mx)). set (d2 := Zdigits2 (Z.pos my)).
  set (X := d1 + ex - (d2 + ey)).
  set (e' := Z.min (fexp F32.prec F32.emax X) (ex - ey)).
  set (s := ex - ey - e').
  assert (Hs : 0 <= s) by (unfold s, e'; lia).
  set (m' := match s with
             | 0 => Z.pos mx
             | Z.pos _ => Z.shiftl (Z.pos mx) s
             | Z.neg _ => 0
             end).
  assert (Hm' : m' = Z.pos mx * 2 ^ s).
  { unfold m'. destruct s as [|p|p] eqn:Es; try lia.
    apply Z.shiftl_mul_pow2. lia. }
  pose proof (Z_div_mod m' (Z.pos my) ltac:(lia)) as Hdiv.
  destruct (Z.div_eucl m' (Z.pos my)) as [q r]. destruct Hdiv as [Hqr Hr].
  pose proof (pow2_pos s Hs) as H2s.
  assert (Hq : 0 <= q) by nia.
  split; [exact Hq|].
  destruct (Z_le_gt_dec e' (-149)) as [Hlow|Hhigh].
  { unfold fexp, emin, F32.prec, F32.emax. lia. }
  assert (HX : e' <= X - 24)
    by (unfold e' in *; unfold fexp, emin, F32.prec, F32.emax in *; lia).
  assert (Hk : 24 <= d1 - d2 + s) by (unfold X, s in *; lia).
  destruct (Zdigits2_bounds (Z.pos mx) ltac:(lia)) as [[L1 _] P1].
  destruct (Zdigits2_bounds (Z.pos my) ltac:(lia)) as [[_ U2] P2].
  fold d1 in L1, P1. fold d2 in U2, P2.
  assert (Hpow : 2 ^ (d1 - 1 + s) = 2 ^ (d1 - 1 + s - d2) * 2 ^ d2)
    by (rewrite <- Z.pow_add_r by lia; f_equal; lia).
  assert (Hsplit : 2 ^ (d1 - 1 + s) = 2 ^ (d1 - 1) * 2 ^ s)
    by (apply Z.pow_add_r; lia).
  assert (Hp : 0 < 2 ^ (d1 - 1 + s - d2)) by (apply pow2_pos; lia).
  assert (Hqlo : 2 ^ (d1 - 1 + s - d2) <= q).
  { destruct (Z_le_gt_dec (2 ^ (d1 - 1 + s - d2)) q) as [Hle|Hgt];
      [exact Hle|].
    assert (q + 1 <= 2 ^ (d1 - 1 + s - d2)) by lia.
    assert (m' < (q + 1) * Z.pos my) by lia.
    assert ((q + 1) * Z.pos my <= 2 ^ (d1 - 1 + s - d2) * Z.pos my) by nia.
    assert (2 ^ (d1 - 1 + s - d2) * Z.pos my < 2 ^ (d1 - 1 + s - d2) * 2 ^ d2)
      by nia.
    nia. }
  pose proof (Zdigits2_lower q (d1 - 1 + s - d2) ltac:(lia) Hqlo) as Hdq.
  eapply Z.le_trans; [|apply (fexp_mono (X - 24 + 24))].
  - unfold fexp, emin, F32.prec, F32.emax. lia.
  - unfold X, s in *. lia.
Qed.

(** Quotients by a number of magnitude at least [2^b]. *)
Lemma div_atMost (a b : Z) (x y : float) :
  Design.atMost a x = true -> F32.valid y = true ->
  2 ^ (b + 149) <= Design.units y ->
  -149 <= a -> -149 <= b -> -149 <= a - b + 1 <= 127 ->
  Design.atMost (a - b + 1) (x / y)%f32 = true.
Proof.
  intros Hx Vy Uy Ha Hb Hk.
  assert (Hpb : 0 < 2 ^ (b + 149)) by (apply pow2_pos; lia).
  destruct y as [sy|sy| |sy my ey]; cbn [Design.units] in Uy; try lia.
  destruct x as [sx|sx| |sx mx ex]; try discriminate.
  { apply atMost_zero. lia. }
  destruct (atMost_finite a sx mx ex Hx Ha) as (Hex & _ & Hdxa).
  destruct (valid_finite sy my ey Vy) as (Hey & _ & _).
  pose proof (SFdiv_core_pre mx my ex ey) as Hpre.
  unfold F32.div. cbn [SFdiv]. unfold SFdiv_core_binary in *.
  set (d1 := Zdigits2 (Z.pos mx)) in *. set (d2 := Zdigits2 (Z.pos my)) in *.
  set (X := d1 + ex - (d2 + ey)) in *.
  set (e' := Z.min (fexp F32.prec F32.emax X) (ex - ey)) in *.
  set (s := ex - ey - e') in *.
  assert (Hs : 0 <= s) by (unfold s, e'; lia).
  set (m' := match s with
             | 0 => Z.pos mx
             | Z.pos _ => Z.shiftl (Z.pos mx) s
             | Z.neg _ => 0
             end) in *.
  assert (Hm' : m' = Z.pos mx * 2 ^ s).
  { unfold m'. destruct s as [|p|p] eqn:Es; try lia.
    apply Z.shiftl_mul_pow2. lia. }
  pose proof (Z_div_mod m' (Z.pos my) ltac:(lia)) as Hdiv.
  destruct (Z.div_eucl m' (Z.pos my)) as [q r]. destruct Hdiv as [Hqr Hr].
  destruct Hpre as [Hq Hpre].
  pose proof (pow2_pos s Hs) as H2s.
  destruct (Zdigits2_bounds (Z.pos mx) ltac:(lia)) as [[L1 U1] P1].
  destruct (Zdigits2_bounds (Z.pos my) ltac:(lia)) as [[L2 U2] P2].
  fold d1 in L1, U1, P1. fold d2 in L2, U2, P2.
  change (Z.pos (digits2_pos mx)) with d1 in Hdxa. clearbody d1 d2.
  (* the divisor has more than [b - ey] digits *)
  assert (Hd2 : b + 1 <= d2 + ey).
  { assert (Hp : 0 < 2 ^ (ey + 149)) by (apply pow2_pos; lia).
    assert (H1 : 2 ^ (b + 149) < 2 ^ d2 * 2 ^ (ey + 149)) by nia.
    rewrite <- Z.pow_add_r in H1 by lia.
    destruct (Z_le_gt_dec (b + 1) (d2 + ey)) as [Hle|Hgt]; [exact Hle|].
    assert (2 ^ (d2 + (ey + 149)) <= 2 ^ (b + 149))
      by (apply Z.pow_le_mono_r; lia).
    lia. }
  assert (HXk : X <= a - b) by (unfold X; lia).
  assert (He'k : e' <= a - b + 1).
  { unfold e', fexp, emin, F32.prec, F32.emax. lia. }
  apply round_aux_atMost; [exact Hq|exact Hpre|lia|lia|].
  (* the quotient is below [2^(k - e')] *)
  right.
  destruct (Z_lt_le_dec q (2 ^ (a - b + 1 - e'))) as [Hlt|Hge];
    [exact Hlt|exfalso].
  assert (Hp : 0 < 2 ^ (a - b + 1 - e')) by (apply pow2_pos; lia).
  assert (Hp2 : 0 < 2 ^ (d2 - 1)) by (apply pow2_pos; lia).
  assert (H1 : 2 ^ (a - b + 1 - e') * 2 ^ (d2 - 1) <= q * Z.pos my) by nia.
  assert (H2 : q * Z.pos my < 2 ^ d1 * 2 ^ s) by nia.
  rewrite <- Z.pow_add_r in H1 by lia.
  rewrite <- Z.pow_add_r in H2 by lia.
  assert (H3 : 2 ^ (d1 + s) <= 2 ^ (a - b + 1 - e' + (d2 - 1)))
    by (apply Z.pow_le_mono_r; unfold s; lia).
  lia.
Qed.

(** ** Samples are numbers within [-1, 1] *)

Lemma isPhase_cases (x : float) :
  Design.isPhase x = true ->
  Design.nonneg x = true /\ (x <? F32.one)%f32 = true.
Proof. unfold Design.isPhase. intros H. now apply andb_true_iff in H. Qed.

Lemma isPhase_atMost (x : float) :
  Design.isPhase x = true -> Design.atMost 0 x = true.
Proof.
  intros H. destruct (isPhase_cases x H) as [Hn Hl].
  pose proof (units_below_one x Hn Hl) as Hu.
  unfold Design.nonneg in Hn. apply andb_true_iff in Hn.
  destruct Hn as [Hv Hs]. unfold Design.atMost. rewrite Hv.
  replace (F32.is_finite x) with true
    by (destruct x as [?|?| |[] ? ?]; try discriminate; reflexivity).
  apply Z.leb_le. change (0 + 149) with 149.
  pose proof (pow2_pos 125 ltac:(lia)). lia.
Qed.

(** The sum of two phases, less 1 if it reaches 1, is a phase. *)
Lemma wrap_once_isPhase (a b : float) :
  Design.isPhase a = true -> Design.isPhase b = true ->
  let x := (a + b)%f32 in
  Design.isPhase (if (x >=? F32.one)%f32 then (x - F32.one)%f32 else x)
  = true
  /\ Design.underTwo x = true.
Proof.
  intros Ha Hb. cbv zeta.
  destruct (isPhase_cases a Ha) as [Na La].
  destruct (isPhase_cases b Hb) as [Nb Lb].
  destruct (add_nonneg_below_two a b Na La Nb Lb) as [Hn Hl].
  split; [|unfold Design.underTwo; now rewrite Hn, Hl, orb_true_r].
  destruct (a + b >=? F32.one)%f32 eqn:E.
  - assert (Vx : F32.valid (a + b)%f32 = true).
    { unfold Design.nonneg in Hn. now apply andb_true_iff in Hn. }
    destruct (sub_one_below_one _ Vx E Hl) as (Hn' & Hl' & _).
    unfold Design.isPhase. now rewrite Hn', Hl'.
  - unfold Design.isPhase. rewrite Hn.
    now rewrite (geb_false_ltb _ F32.one (nonneg_not_nan _ Hn) eq_refl E).
Qed.

(** The normaliser of a core whose [w] is a phase is a number of
    magnitude at least [2^-10]. *)
Lemma normOf_bounds (w : float) :
  Design.isPhase w = true ->
  F32.valid (Design.normOf w) = true
  /\ 2 ^ (-10 + 149) <= Design.units (Design.normOf w).
Proof.
  intros Hw. pose proof (isPhase_atMost w Hw) as Aw.
  assert (A1 : Design.atMost 1 (f2 * w)%f32 = true)
    by (apply (mul_atMost 1 0); try lia; [reflexivity|exact Aw]).
  assert (A2 : Design.atMost 2 (F32.one - f2 * w)%f32 = true)
    by (apply (sub_atMost 1); try lia; [reflexivity|exact A1]).
  destruct (atMost_cases 2 _ A2) as (Vb & Fb & _).
  unfold Design.normOf, jmax.
  destruct (minNorm <? F32.one - f2 * w)%f32 eqn:E.
  - split; [exact Vb|].
    assert (Nb : Design.nonneg (F32.one - f2 * w)%f32 = true).
    { unfold Design.nonneg. rewrite Vb. cbn [andb].
      unfold F32.ltb, SFltb in E.
      destruct (F32.one - f2 * w)%f32 as [?|?| |[] ? ?];
        try reflexivity; discriminate. }
    rewrite (ltb_units minNorm _ eq_refl Nb) in E. apply Z.ltb_lt in E.
    eapply Z.le_trans; [|apply Z.lt_le_incl; exact E].
    vm_compute. discriminate.
  - split; [reflexivity|]. vm_compute. discriminate.
Qed.

(** One step of a core in bounds, taken from a phase. *)
Lemma saw_getNextSample_inBounds {L : Library} (s : Saw.t) :
  Design.sineInRange -> Design.sawInBounds s = true ->
  Design.isPhase (Saw.phase s) = true ->
  Design.atMost 15 (fst (Saw.getNextSample s)) = true
  /\ Design.sawInBounds (snd (Saw.getNextSample s)) = true
  /\ Design.isPhase (Saw.phase (snd (Saw.getNextSample s))) = true.
Proof.
  intros Hsin Hs Hph. unfold Design.sawInBounds in Hs.
  apply andb_true_iff in Hs. destruct Hs as [Hs Hbeta].
  apply andb_true_iff in Hs. destruct Hs as [Hs Hw].
  apply andb_true_iff in Hs. destruct Hs as [Hosc Hprev].
  pose proof (isPhase_atMost _ Hph) as Aph.
  pose proof (isPhase_atMost _ Hw) as Aw.
  rewrite saw_getNextSample_design. cbn [fst snd].
  assert (A1 : Design.atMost 8 (Saw.osc s * Saw.beta s)%f32 = true)
    by (apply (mul_atMost 0 8); try lia; assumption).
  assert (A2 : Design.atMost 9 (Saw.phase s + Saw.osc s * Saw.beta s)%f32
               = true).
  { apply (add_atMost 8); try lia; [|exact A1].
    apply (atMost_weaken 0); [exact Aph|lia]. }
  assert (A3 : Design.atMost 12
                 (twoPi * (Saw.phase s + Saw.osc s * Saw.beta s))%f32
               = true)
    by (apply (mul_atMost 3 9); try lia; [reflexivity|exact A2]).
  destruct (atMost_cases 12 _ A3) as (V3 & F3 & _).
  pose proof (Hsin _ V3 F3) as A4.
  assert (A5 : Design.atMost 1
                 (Saw.osc s
                  + sinf (twoPi * (Saw.phase s + Saw.osc s * Saw.beta s)))%f32
               = true)
    by (apply (add_atMost 0); try lia; assumption).
  assert (A6 : Design.atMost 0 (Design.sawOsc (Saw.phase s) s) = true)
    by (apply (mul_atMost (-1) 1); try lia; [reflexivity|exact A5]).
  split; [|split].
  - unfold Design.sawSample. cbv zeta.
    assert (B1 : Design.atMost 2
                   (hfCompA0 * Design.sawOsc (Saw.phase s) s)%f32 = true)
      by (apply (mul_atMost 2 0); try lia; [reflexivity|exact A6]).
    assert (B2 : Design.atMost 1 (f1_5 * Saw.previousInput s)%f32 = true)
      by (apply (mul_atMost 1 0); try lia; [reflexivity|exact Hprev]).
    assert (B3 : Design.atMost 3
                   (hfCompA0 * Design.sawOsc (Saw.phase s) s
                    - f1_5 * Saw.previousInput s)%f32 = true).
    { apply (sub_atMost 2); try lia; [exact B1|].
      apply (atMost_weaken 1); [exact B2|lia]. }
    assert (B4 : Design.atMost 0 (f0_752 * Saw.w s)%f32 = true)
      by (apply (mul_atMost 0 0); try lia; [reflexivity|exact Aw]).
    assert (B5 : Design.atMost 1 (f0_376 - f0_752 * Saw.w s)%f32 = true)
      by (apply (sub_atMost 0); try lia; [reflexivity|exact B4]).
    assert (B6 : Design.atMost 4
                   (hfCompA0 * Design.sawOsc (Saw.phase s) s
                    - f1_5 * Saw.previousInput s
                    - (f0_376 - f0_752 * Saw.w s))%f32 = true).
    { apply (sub_atMost 3); try lia; [exact B3|].
      apply (atMost_weaken 1); [exact B5|lia]. }
    destruct (normOf_bounds (Saw.w s) Hw) as [Vn Un].
    exact (div_atMost 4 (-10) _ _ B6 Vn Un ltac:(lia) ltac:(lia) ltac:(lia)).
  - unfold Design.sawInBounds, Design.sawNext.
    cbn [Saw.osc Saw.previousInput Saw.w Saw.beta].
    now rewrite A6, Hw, Hbeta.
  - unfold Design.sawNext. cbn [Saw.phase]. unfold Design.sawPhase.
    exact (proj1 (wrap_once_isPhase _ _ Hph Hw)).
Qed.

Lemma finite_not_nan (x : float) :
  F32.is_finite x = true -> F32.is_nan x = false.
Proof. destruct x; try reflexivity; discriminate. Qed.

(** X9.  With a sine whose values are numbers within [-1, 1], a pulse
    oscillator in bounds (both cores' [osc] and [previousInput] within
    [-1, 1], [w], the leading phase and the pulse width from 0 up to but
    not 1, [beta] of magnitude at most 256) returns from [getNextSample]
    with a sample that is a number within [-1, 1], never NaN, and is in
    bounds again. *)
Theorem pulse_getNextSample_inBounds {L : Library} (fuel : nat)
    (p : Pulse.t) :
  Design.sineInRange -> Design.pulseInBounds p = true -> (2 <= fuel)%nat ->
  exists (x : float) (p' : Pulse.t),
    Pulse.getNextSample fuel p = Some (x, p')
    /\ Design.within fm1 F32.one x = true
    /\ F32.is_nan x = false
    /\ Design.pulseInBounds p' = true.
Proof.
  intros Hsin Hp Hfuel. unfold Design.pulseInBounds in Hp.
  apply andb_true_iff in Hp. destruct Hp as [Hp Hpw].
  apply andb_true_iff in Hp. destruct Hp as [Hp Ht].
  apply andb_true_iff in Hp. destruct Hp as [Hph Hl].
  destruct (saw_getNextSample_inBounds (Pulse.leadingEdge p) Hsin Hl Hph)
    as (AL & Hl' & Hph').
  destruct (wrap_once_isPhase _ _ Hph' Hpw) as [Hshift Htwo].
  cbv zeta in Hshift, Htwo.
  rewrite pulse_getNextSample_design. cbv zeta.
  rewrite (wrapShiftedPhase_underTwo fuel _ Htwo Hfuel).
  set (shifted := (Saw.phase (snd (Saw.getNextSample (Pulse.leadingEdge p)))
                   + Pulse.pulseWidth p)%f32) in *.
  set (effective := if (shifted >=? F32.one)%f32
                    then (shifted - F32.one)%f32 else shifted) in *.
  destruct (saw_getNextSample_inBounds
              (Saw.set_phase effective (Pulse.trailingEdge p)) Hsin Ht
              Hshift)
    as (AT & Ht' & _).
  assert (AD : Design.atMost 16
                 (fst (Saw.getNextSample (Pulse.leadingEdge p))
                  - fst (Saw.getNextSample
                           (Saw.set_phase effective
                              (Pulse.trailingEdge p))))%f32
               = true)
    by (apply (sub_atMost 15); try lia; assumption).
  assert (Hnan : F32.is_nan
                   (fst (Saw.getNextSample (Pulse.leadingEdge p))
                    - fst (Saw.getNextSample
                             (Saw.set_phase effective
                                (Pulse.trailingEdge p))))%f32 = false).
  { destruct (atMost_cases 16 _ AD) as (_ & Hf & _).
    now apply finite_not_nan. }
  pose proof (jlimit_within fm1 F32.one _ eq_refl eq_refl eq_refl Hnan)
    as Hwithin.
  eexists. eexists. split; [reflexivity|].
  split; [exact Hwithin|]. split; [exact (within_not_nan _ _ _ Hwithin)|].
  unfold Design.pulseInBounds.
  cbn [Pulse.leadingEdge Pulse.trailingEdge Pulse.pulseWidth].
  now rewrite Hph', Hl', Ht', Hpw.
Qed.

Lemma squareOfSign_inRange : Design.sineInRange (L := Example.boundedLibrary).
Proof.
  intros [s|s| |[|] m e] _ Hf; try discriminate; reflexivity.
Qed.

(** X9's theorem at work on the oscillator that is halfway through its
    period. *)
Lemma pulse_getNextSample_inBounds_witness :
  exists (x : float) (p' : Pulse.t),
    Pulse.getNextSample (L := Example.boundedLibrary) 2 Example.pulseHalfway
    = Some (x, p')
    /\ Design.within fm1 F32.one x = true
    /\ F32.is_nan x = false
    /\ Design.pulseInBounds p' = true.
Proof.
  apply (pulse_getNextSample_inBounds (L := Example.boundedLibrary) 2
           Example.pulseHalfway squareOfSign_inRange).
  - vm_compute. reflexivity.
  - lia.
Defined.

(** The clamp of a number to a range of phases is a phase. *)
Lemma jlimit_isPhase (lo hi x : float) :
  Design.nonneg lo = true -> Design.nonneg hi = true ->
  (hi <? F32.one)%f32 = true -> (lo <=? hi)%f32 = true ->
  F32.valid x = true -> F32.is_nan x = false ->
  Design.isPhase (jlimit lo hi x) = true.
Proof.
  intros Nlo Nhi Hhi Hle Vx Nx.
  assert (Hin : Design.inUnit (jlimit lo hi x) = true).
  { apply jlimit_inUnit; try assumption. rewrite Vx. apply orb_true_r. }
  destruct (inUnit_cases _ Hin) as [Hnan|[Hn Hl]].
  - exfalso. unfold jlimit in Hnan.
    destruct (x <? lo)%f32;
      [rewrite Hnan in Nlo; discriminate|].
    destruct (hi <? x)%f32;
      [rewrite Hnan in Nhi; discriminate|].
    rewrite Hnan in Nx. discriminate.
  - unfold Design.isPhase. now rewrite Hn, Hl.
Qed.

(** [beta] for a [w] that is a phase. *)
Lemma betaOf_atMost (w : float) :
  Design.isPhase w = true -> Design.atMost 8 (Design.betaOf w) = true.
Proof.
  intros Hw. pose proof (isPhase_atMost w Hw) as Aw.
  assert (D : Design.atMost 1 (f0_5 - w)%f32 = true)
    by (apply (sub_atMost 0); try lia; [reflexivity|exact Aw]).
  unfold Design.betaOf. cbv zeta.
  assert (B1 : Design.atMost 5 (f13 * (f0_5 - w))%f32 = true)
    by (apply (mul_atMost 4 1); try lia; [reflexivity|exact D]).
  assert (B2 : Design.atMost 6 (f13 * (f0_5 - w) * (f0_5 - w))%f32 = true)
    by (apply (mul_atMost 5 1); try lia; assumption).
  assert (B3 : Design.atMost 7
                 (f13 * (f0_5 - w) * (f0_5 - w) * (f0_5 - w))%f32 = true)
    by (apply (mul_atMost 6 1); try lia; assumption).
  apply (mul_atMost 7 1); try lia; assumption.
Qed.

Lemma pulse_init_inBounds : Design.pulseInBounds Pulse.init = true.
Proof. vm_compute. reflexivity. Qed.

Lemma saw_setFrequency_inBounds f sr s :
  Design.sawInBounds s = true ->
  F64.leb sr F64.zero || negb (F32.is_nan (f / double_to_float sr)%f32)
  = true ->
  Design.sawInBounds (Saw.setFrequency f sr s) = true
  /\ Saw.phase (Saw.setFrequency f sr s) = Saw.phase s.
Proof.
  intros Hs Hq. destruct (F64.leb sr F64.zero) eqn:Hsr.
  - unfold Saw.setFrequency. rewrite Hsr. auto.
  - cbn [orb] in Hq. apply negb_true_iff in Hq.
    rewrite saw_setFrequency_set by exact Hsr. cbv zeta.
    split; [|reflexivity].
    unfold Design.sawInBounds in *.
    cbn [Saw.osc Saw.previousInput Saw.w Saw.beta].
    apply andb_true_iff in Hs. destruct Hs as [Hs _].
    apply andb_true_iff in Hs. destruct Hs as [Hs _].
    rewrite Hs. cbn [andb].
    assert (Hw : Design.isPhase
                   (jlimit F32.zero f0_49 (f / double_to_float sr)%f32)
                 = true)
      by (apply jlimit_isPhase; try reflexivity;
          [apply div_valid|exact Hq]).
    now rewrite Hw, (betaOf_atMost _ Hw).
Qed.

Lemma pulse_setFrequency_inBounds f sr p :
  Design.pulseInBounds p = true ->
  F64.leb sr F64.zero || negb (F32.is_nan (f / double_to_float sr)%f32)
  = true ->
  Design.pulseInBounds (Pulse.setFrequency f sr p) = true.
Proof.
  intros Hp Hq. unfold Design.pulseInBounds in *.
  apply andb_true_iff in Hp. destruct Hp as [Hp Hpw].
  apply andb_true_iff in Hp. destruct Hp as [Hp Ht].
  apply andb_true_iff in Hp. destruct Hp as [Hph Hl].
  unfold Pulse.setFrequency.
  cbn [Pulse.leadingEdge Pulse.trailingEdge Pulse.pulseWidth
       Pulse.set_leadingEdge Pulse.set_trailingEdge].
  destruct (saw_setFrequency_inBounds f sr _ Hl Hq) as [-> ->].
  destruct (saw_setFrequency_inBounds f sr _ Ht Hq) as [-> _].
  now rewrite Hph, Hpw.
Qed.

Lemma pulse_setPulseWidth_inBounds pw p :
  Design.pulseInBounds p = true ->
  F32.valid pw && negb (F32.is_nan pw) = true ->
  Design.pulseInBounds (Pulse.setPulseWidth pw p) = true.
Proof.
  intros Hp Hpw. unfold Design.pulseInBounds in *.
  apply andb_true_iff in Hp. destruct Hp as [Hp _].
  apply andb_true_iff in Hpw. destruct Hpw as [Vpw Npw].
  apply negb_true_iff in Npw.
  unfold Pulse.setPulseWidth.
  cbn [Pulse.leadingEdge Pulse.trailingEdge Pulse.pulseWidth
       Pulse.set_pulseWidth].
  rewrite Hp. cbn [andb]. apply jlimit_isPhase; try reflexivity; assumption.
Qed.

Lemma pulse_reset_inBounds p :
  Design.pulseInBounds p = true -> Design.pulseInBounds (Pulse.reset p) = true.
Proof.
  intros Hp. unfold Design.pulseInBounds, Design.sawInBounds in *.
  unfold Pulse.reset, Saw.reset.
  cbn [Pulse.leadingEdge Pulse.trailingEdge Pulse.pulseWidth
       Pulse.set_leadingEdge Pulse.set_trailingEdge Saw.phase Saw.osc
       Saw.previousInput Saw.w Saw.beta Saw.set_phase Saw.set_osc
       Saw.set_previousInput].
  apply andb_true_iff in Hp. destruct Hp as [Hp Hpw].
  apply andb_true_iff in Hp. destruct Hp as [Hp Ht].
  apply andb_true_iff in Hp. destruct Hp as [_ Hl].
  apply andb_true_iff in Hl. destruct Hl as [Hl Hlb].
  apply andb_true_iff in Hl. destruct Hl as [_ Hlw].
  apply andb_true_iff in Ht. destruct Ht as [Ht Htb].
  apply andb_true_iff in Ht. destruct Ht as [_ Htw].
  rewrite Hlw, Hlb, Htw, Htb, Hpw. reflexivity.
Qed.

(** X10.  With a sine whose values are numbers within [-1, 1], every
    sample of every run of the pulse oscillator's interface from the
    constructed state is a number within [-1, 1], and every call returns,
    as long as the calls pass numbers: each [setFrequency] a sample rate
    [<= 0] or a frequency whose quotient by the rate is not NaN, each
    [setPulseWidth] a [float] that is not NaN. *)
Theorem pulse_samples_in_range {L : Library} (fuel : nat)
    (cs : list Design.PulseCall) :
  Design.sineInRange -> (2 <= fuel)%nat ->
  forallb Design.pulseCallOfNumbers cs = true ->
  exists xs : list float,
    Design.samplesOfCalls fuel cs Pulse.init = Some xs
    /\ Forall (fun x => Design.within fm1 F32.one x = true) xs
    /\ exists p : Pulse.t,
         Design.applyCalls fuel cs Pulse.init = Some p
         /\ Design.pulseInBounds p = true.
Proof.
  intros Hsin Hfuel. generalize Pulse.init pulse_init_inBounds.
  induction cs as [|c cs IH]; intros p Hp Hcs.
  - exists []. split; [reflexivity|]. split; [constructor|].
    exists p. split; [reflexivity|exact Hp].
  - cbn [forallb] in Hcs. apply andb_true_iff in Hcs.
    destruct Hcs as [Hc Hcs].
    destruct c as [f sr|pw| |];
      cbn [Design.samplesOfCalls Design.applyCalls Design.applyCall
           Design.pulseCallOfNumbers] in *.
    + apply IH; [|exact Hcs]. now apply pulse_setFrequency_inBounds.
    + apply IH; [|exact Hcs]. now apply pulse_setPulseWidth_inBounds.
    + apply IH; [|exact Hcs]. now apply pulse_reset_inBounds.
    + destruct (pulse_getNextSample_inBounds fuel p Hsin Hp Hfuel)
        as (x & p' & -> & Hx & _ & Hp').
      destruct (IH p' Hp' Hcs) as (xs & -> & Hxs & Hfinal).
      exists (x :: xs). split; [reflexivity|].
      split; [constructor; assumption|exact Hfinal].
Qed.

(** X10's theorem at work on a run of the interface. *)
Lemma pulse_samples_in_range_witness :
  exists xs : list float,
    Design.samplesOfCalls (L := Example.boundedLibrary) 2 Example.calls
      Pulse.init
    = Some xs
    /\ Forall (fun x => Design.within fm1 F32.one x = true) xs
    /\ exists p : Pulse.t,
         Design.applyCalls (L := Example.boundedLibrary) 2 Example.calls
           Pulse.init
         = Some p
         /\ Design.pulseInBounds p = true.
Proof.
  apply (pulse_samples_in_range (L := Example.boundedLibrary) 2
           Example.calls squareOfSign_inRange).
  - lia.
  - vm_compute. reflexivity.
Defined.

(** ** The cutoff does not pass [maxHz] *)

(** A rounding of a non-negative mantissa keeps the sign it is given. *)
Lemma round_aux_form (sx : bool) (m e : Z) (l : location) :
  0 <= m -> e <= fexp F32.prec F32.emax (Zdigits2 m + e) ->
  let r := binary_round_aux F32.prec F32.emax sx m e l in
  r = S754_zero sx \/ (exists m' e', r = S754_finite sx m' e')
  \/ r = S754_infinity sx.
Proof.
  intros Hm He. cbv zeta. unfold binary_round_aux.
  pose proof (shr_fexp_digits m e l Hm He) as H1.
  destruct (shr_fexp F32.prec F32.emax m e l) as [mrs e1].
  destruct H1 as (He1 & Hq & Hnorm).
  pose proof (round_nearest_even_range mrs) as [Hm1 _].
  set (m1 := round_nearest_even (shr_m mrs) (loc_of_shr_record mrs)) in *.
  assert (Hm1' : 0 <= m1) by lia.
  assert (Hlow : -149 <= e1)
    by (rewrite He1; unfold fexp, emin, F32.prec, F32.emax; lia).
  destruct (shr_fexp F32.prec F32.emax m1 e1 loc_Exact) as [mrs2 e2] eqn:E2.
  assert (Hnn : 0 <= shr_m mrs2).
  { unfold shr_fexp in E2. cbn [shr_record_of_loc] in E2.
    destruct (fexp F32.prec F32.emax (Zdigits2 m1 + e1) - e1) as [|n|n];
      cbn [shr] in E2.
    - assert (Hr : mrs2 = Build_shr_record m1 false false) by congruence.
      now rewrite Hr.
    - rewrite iter_pos_nat in E2.
      assert (Hr : mrs2 = Nat.iter (Pos.to_nat n) shr_1
                            (Build_shr_record m1 false false))
        by congruence.
      rewrite Hr, shr_steps_m by exact Hm1'.
      apply Z.div_pos; [exact Hm1'|]. apply pow2_pos. lia.
    - assert (Hr : mrs2 = Build_shr_record m1 false false) by congruence.
      now rewrite Hr. }
  destruct (shr_m mrs2) as [|p|p]; [left; reflexivity| |lia].
  destruct (e2 <=? F32.emax - F32.prec).
  - right. left. eexists. eexists. reflexivity.
  - right. right. reflexivity.
Qed.

Lemma round_aux_nonpos (m e : Z) (l : location) :
  0 <= m -> e <= fexp F32.prec F32.emax (Zdigits2 m + e) ->
  Design.nonpos (binary_round_aux F32.prec F32.emax true m e l) = true.
Proof.
  intros Hm He.
  destruct (round_aux_form true m e l Hm He) as [->|[(m' & e' & ->)| ->]];
    reflexivity.
Qed.

Lemma binary_round_pre (m : positive) (e : Z) :
  let '(mz, ez) :=
    shl_align m e (fexp F32.prec F32.emax (Z.pos (digits2_pos m) + e)) in
  ez <= fexp F32.prec F32.emax (Zdigits2 (Z.pos mz) + ez).
Proof.
  unfold shl_align.
  set (d := Z.pos (digits2_pos m)).
  set (e1 := fexp F32.prec F32.emax (d + e)).
  destruct (e1 - e) as [|k|k] eqn:E; cbn [Zdigits2].
  - fold d. fold e1. lia.
  - fold d. fold e1. lia.
  - rewrite digits2_pos_iter_xO. fold d.
    replace (d + Z.pos k + e1) with (d + e) by lia. fold e1. lia.
Qed.

Lemma binary_round_nonpos (m : positive) (e : Z) :
  Design.nonpos (binary_round F32.prec F32.emax true m e) = true.
Proof.
  unfold binary_round. pose proof (binary_round_pre m e) as H.
  destruct (shl_align m e _) as [mz ez].
  apply round_aux_nonpos; [lia|exact H].
Qed.

(** The product of two [float]s sits at or below its exponent. *)
Lemma mul_pre (sx sy : bool) (mx my : positive) (ex ey : Z) :
  F32.valid (S754_finite sx mx ex) = true ->
  F32.valid (S754_finite sy my ey) = true ->
  ex + ey <= fexp F32.prec F32.emax (Zdigits2 (Z.pos (mx * my)) + (ex + ey)).
Proof.
  intros Vx Vy.
  destruct (valid_finite sx mx ex Vx) as (Hex & Hdx & Cx).
  destruct (valid_finite sy my ey Vy) as (Hey & Hdy & Cy).
  cbn [Zdigits2]. pose proof (digits2_pos_mul mx my) as Hd.
  assert (1 <= Z.pos (digits2_pos mx)) by lia.
  assert (1 <= Z.pos (digits2_pos my)) by lia.
  unfold fexp, emin, F32.prec, F32.emax. lia.
Qed.

(** A number that is not positive times one that is not negative. *)
Lemma mul_nonpos (d c : float) :
  Design.nonpos d = true -> F32.is_finite d = true -> F32.valid d = true ->
  Design.nonneg c = true ->
  Design.nonpos (d * c)%f32 = true.
Proof.
  intros Hd Fd Vd Hc. unfold Design.nonneg in Hc.
  apply andb_true_iff in Hc. destruct Hc as [Vc Sc].
  destruct d as [sd|sd| |sd md ed]; try discriminate;
    destruct c as [sc|sc| |sc mc ec]; try discriminate; try reflexivity.
  destruct sd; [|discriminate]. destruct sc; [discriminate|].
  unfold F32.mul. cbn [SFmul xorb].
  apply round_aux_nonpos; [lia|]. now apply (mul_pre true false).
Qed.

(** Such a number divided by 1. *)
Lemma div_one_nonpos (p : float) :
  Design.nonpos p = true -> Design.nonpos (p / F32.one)%f32 = true.
Proof.
  intros Hp. destruct p as [sp|sp| |sp mp ep]; try discriminate.
  - reflexivity.
  - destruct sp; [reflexivity|discriminate].
  - destruct sp; [|discriminate].
    unfold F32.div, F32.one. cbn [SFdiv xorb].
    pose proof (SFdiv_core_pre mp 8388608 ep (-23)) as H.
    destruct (SFdiv_core_binary _ _ _ _ _ _) as [[q e'] l].
    apply round_aux_nonpos; tauto.
Qed.

Lemma sub_zero_nonneg (c : float) :
  Design.nonneg c = true -> (c - F32.zero)%f32 = c.
Proof.
  unfold Design.nonneg. intros H. apply andb_true_iff in H.
  destruct H as [_ H].
  destruct c as [[|]|?| |? ? ?]; try discriminate; reflexivity.
Qed.

(** The digits of integers in order. *)
Lemma digits2_pos_le (a b : positive) :
  (a <= b)%positive -> Z.pos (digits2_pos a) <= Z.pos (digits2_pos b).
Proof.
  intros H. pose proof (digits2_pos_bounds a) as [La _].
  pose proof (digits2_pos_bounds b) as [_ Ub].
  assert (Hlt : 2 ^ (Z.pos (digits2_pos a) - 1) < 2 ^ Z.pos (digits2_pos b))
    by lia.
  destruct (Z_le_gt_dec (Z.pos (digits2_pos a)) (Z.pos (digits2_pos b)))
    as [Hle|Hgt]; [exact Hle|].
  assert (2 ^ Z.pos (digits2_pos b) <= 2 ^ (Z.pos (digits2_pos a) - 1))
    by (apply Z.pow_le_mono_r; lia).
  lia.
Qed.

Lemma nonpos_below (t : float) (m : positive) (e : Z) :
  Design.nonpos t = true -> (t <=? S754_finite false m e)%f32 = true.
Proof.
  destruct t as [s|[|]| |[|] ? ?]; try discriminate; reflexivity.
Qed.

(** A positive number plus one that is not positive does not pass the
    positive number. *)
Lemma add_nonpos_below (x t : float) :
  Design.nonneg x = true -> Design.atMost 99 x = true ->
  x <> S754_zero false -> x <> S754_zero true ->
  Design.nonpos t = true -> F32.valid t = true ->
  (x + t <=? x)%f32 = true.
Proof.
  intros Nx Ax Hx0 Hx1 Ht Vt.
  destruct x as [sx|sx| |sx mx ex]; try discriminate;
    [destruct sx; contradiction|].
  assert (sx = false) as ->.
  { unfold Design.nonneg in Nx. apply andb_true_iff in Nx.
    destruct sx; [destruct Nx; discriminate|reflexivity]. }
  destruct (atMost_finite 99 false mx ex Ax ltac:(lia)) as (Hex & _ & Hdx).
  destruct (atMost_cases 99 _ Ax) as (Vx & _ & _).
  destruct t as [st|st| |st mt et]; try discriminate.
  - (* a zero *)
    cbn. rewrite Z.compare_refl, Pos.compare_cont_refl. reflexivity.
  - destruct st; [reflexivity|discriminate].
  - destruct st; [|discriminate].
    destruct (valid_finite true mt et Vt) as (Het & _ & _).
    unfold F32.add. cbn [SFadd]. cbv zeta.
    set (ez := Z.min ex et).
    pose proof (shl_align_units mx ex ez ltac:(unfold ez; lia)) as Ax'.
    pose proof (shl_align_units mt et ez ltac:(unfold ez; lia)) as At'.
    set (px := fst (shl_align mx ex ez)) in *.
    set (pt := fst (shl_align mt et ez)) in *.
    cbn [cond_Zopp].
    assert (Hez : -149 <= ez <= ex) by (unfold ez; lia).
    assert (Hp : 0 < 2 ^ (ez + 149)) by (apply pow2_pos; lia).
    destruct (Z.pos px + - Z.pos pt) as [|M|M] eqn:EM;
      cbn [binary_normalize].
    + reflexivity.
    + (* the sum is positive and below [x] *)
      assert (HM : Z.pos M < Z.pos px) by lia.
      assert (Hdpx : Z.pos (digits2_pos px)
                     = Z.pos (digits2_pos mx) + (ex - ez)).
      { unfold px, shl_align.
        destruct (Z.eq_dec ez ex) as [E|E].
        - rewrite E, Z.sub_diag. cbn [fst]. lia.
        - set (k := Z.to_pos (ex - ez)).
          assert (Hk : Z.pos k = ex - ez) by (unfold k; rewrite Z2Pos.id; lia).
          replace (ez - ex) with (Z.neg k) by lia. cbn [fst].
          rewrite digits2_pos_iter_xO. lia. }
      pose proof (digits2_pos_le M px ltac:(lia)) as HdM.
      set (e1 := fexp F32.prec F32.emax (Z.pos (digits2_pos M) + ez)).
      destruct (valid_finite false mx ex Vx) as (_ & Hdx24 & Cx).
      assert (He1 : -149 <= e1 <= ex).
      { unfold e1, fexp, emin, F32.prec, F32.emax. lia. }
      destruct (binary_round_bound M ez
                  (Z.pos mx * 2 ^ (ex + 149)) (Z.pos mx * 2 ^ (ex - e1)))
        as [Hn Hu].
      * lia.
      * lia.
      * rewrite <- Ax'. nia.
      * fold e1. rewrite <- Z.mul_assoc, <- Z.pow_add_r by lia.
        do 2 f_equal. lia.
      * unfold F32.leb, SFleb.
        rewrite (SFcompare_units _ (S754_finite false mx ex) Hn Nx).
        cbn [Design.units] in *.
        destruct (Z.compare_spec
                    (Design.units (binary_round F32.prec F32.emax false M ez))
                    (Z.pos mx * 2 ^ (ex + 149))); try reflexivity. lia.
    + apply nonpos_below. apply binary_round_nonpos.
Qed.

(** 200 less a number that is at least 200. *)
Lemma sub_from_200 (x : float) :
  Design.atMost 99 x = true -> (f200 <=? x)%f32 = true ->
  Design.nonneg x = true /\ x <> S754_zero false /\ x <> S754_zero true
  /\ Design.nonpos (f200 - x)%f32 = true
  /\ Design.atMost 100 (f200 - x)%f32 = true.
Proof.
  intros Ax Hle. destruct (atMost_cases 99 x Ax) as (Vx & Fx & _).
  assert (Nx : Design.nonneg x = true).
  { unfold Design.nonneg. rewrite Vx.
    destruct x as [?|?| |[|] ? ?]; try discriminate; reflexivity. }
  split; [exact Nx|].
  destruct x as [sx|sx| |sx mx ex]; try discriminate.
  assert (sx = false) as -> by (destruct sx; [discriminate|reflexivity]).
  split; [discriminate|]. split; [discriminate|].
  split; [|apply (sub_atMost 99); try lia; [reflexivity|exact Ax]].
  unfold F32.leb, SFleb in Hle.
  rewrite (SFcompare_units f200 _ eq_refl Nx) in Hle.
  assert (Hu : Design.units f200 <= Design.units (S754_finite false mx ex)).
  { destruct (Z.compare_spec (Design.units f200)
                (Design.units (S754_finite false mx ex)));
      try discriminate; lia. }
  destruct (valid_finite false mx ex Vx) as (Hex & _ & _).
  unfold f200 in *. unfold F32.sub. cbn [SFsub]. cbv zeta.
  match goal with
  | |- context [shl_align ?m ?e (Z.min ?e ex)] =>
      set (m2 := m) in *; set (e2 := e) in *
  end.
  set (ez := Z.min e2 ex).
  assert (He2 : -149 <= e2) by (unfold e2; lia).
  pose proof (shl_align_units m2 e2 ez ltac:(unfold ez; lia)) as A2.
  pose proof (shl_align_units mx ex ez ltac:(unfold ez; lia)) as Ax'.
  set (p2 := fst (shl_align m2 e2 ez)) in *.
  set (px := fst (shl_align mx ex ez)) in *.
  cbn [Design.units] in Hu. cbn [cond_Zopp].
  assert (Hp : 0 < 2 ^ (ez + 149)) by (apply pow2_pos; unfold ez; lia).
  assert (HM : Z.pos p2 <= Z.pos px) by nia.
  destruct (Z.pos p2 - Z.pos px) as [|M|M] eqn:EM; cbn [binary_normalize].
  - reflexivity.
  - lia.
  - apply binary_round_nonpos.
Qed.

(** X11.  For a filter control [c] that is a number [>= 0] and a sample
    rate whose [maxHz = (float)(sampleRate·0.45)] is a number from 200 up
    to [2^99], the cutoff that [updateFilterCoefficients] hands to
    [makeLowPass] is not NaN and does not pass [maxHz], whatever the
    roundings of the interpolation. *)
Theorem cutoff_below_maxHz (sampleRate : double) (c : float) :
  let maxHz := double_to_float (F64.mul sampleRate d0_45) in
  Design.atMost 99 maxHz = true -> (f200 <=? maxHz)%f32 = true ->
  Design.nonneg c = true ->
  (Design.cutoffOf sampleRate c <=? maxHz)%f32 = true
  /\ F32.is_nan (Design.cutoffOf sampleRate c) = false.
Proof.
  cbv zeta. unfold Design.cutoffOf, jmap.
  generalize (double_to_float (F64.mul sampleRate d0_45)).
  intros maxHz Amax Hle Hc.
  destruct (sub_from_200 maxHz Amax Hle) as (Nmax & H0 & H1 & Nd & Ad).
  rewrite (sub_zero_nonneg c Hc).
  change (F32.one - F32.zero)%f32 with F32.one.
  destruct (atMost_cases 100 _ Ad) as (Vd & Fd & _).
  pose proof (mul_nonpos _ c Nd Fd Vd Hc) as Np.
  pose proof (div_one_nonpos _ Np) as Nt.
  pose proof (div_valid ((f200 - maxHz) * c)%f32 F32.one) as Vt.
  pose proof (add_nonpos_below maxHz _ Nmax Amax H0 H1 Nt Vt) as Hbelow.
  split; [exact Hbelow|].
  unfold F32.leb, SFleb in Hbelow.
  destruct (maxHz + (f200 - maxHz) * c / F32.one)%f32;
    try reflexivity.
  rewrite SFcompare_nan_l in Hbelow. discriminate.
Qed.

(** X11's theorem at work at 44.1 kHz with the control halfway. *)
Lemma cutoff_below_maxHz_witness :
  (Design.cutoffOf d44100 f0_5
   <=? double_to_float (F64.mul d44100 d0_45))%f32 = true.
Proof.
  apply (cutoff_below_maxHz d44100 f0_5); vm_compute; reflexivity.
Defined.

(** ** The editor's layout *)

Module Editor := AudioPluginAudioProcessorEditor.

Lemma contains_spec (px py : Z) (r : Rectangle.t) :
  Rectangle.contains px py r = true
  <-> Rectangle.x r <= px < Rectangle.x r + Rectangle.w r
      /\ Rectangle.y r <= py < Rectangle.y r + Rectangle.h r.
Proof.
  unfold Rectangle.contains. rewrite !andb_true_iff.
  rewrite !Z.leb_le, !Z.ltb_lt. lia.
Qed.

Lemma inside_trans (a b c : Rectangle.t) :
  Rectangle.inside a b -> Rectangle.inside b c -> Rectangle.inside a c.
Proof. intros Hab Hbc px py H. apply Hbc, Hab, H. Qed.

Lemma inside_refl (a : Rectangle.t) : Rectangle.inside a a.
Proof. intros px py H. exact H. Qed.

Lemma apart_inside (a b a' b' : Rectangle.t) :
  Rectangle.apart a b -> Rectangle.inside a' a -> Rectangle.inside b' b ->
  Rectangle.apart a' b'.
Proof. intros H Ha Hb px py H1 H2. exact (H px py (Ha _ _ H1) (Hb _ _ H2)). Qed.

Lemma apart_sym (a b : Rectangle.t) :
  Rectangle.apart a b -> Rectangle.apart b a.
Proof. intros H px py H1 H2. exact (H px py H2 H1). Qed.

(** A strip taken from the top and the rest: both inside the rectangle,
    apart from each other, of the same width and of heights that are not
    negative. *)
Lemma removeFromTop_spec (amountToRemove : Z) (r : Rectangle.t) :
  0 <= amountToRemove -> 0 <= Rectangle.h r ->
  let '(strip, rest) := Rectangle.removeFromTop amountToRemove r in
  Rectangle.inside strip r /\ Rectangle.inside rest r
  /\ Rectangle.apart strip rest
  /\ Rectangle.w strip = Rectangle.w r /\ Rectangle.w rest = Rectangle.w r
  /\ 0 <= Rectangle.h strip /\ 0 <= Rectangle.h rest.
Proof.
  intros Ha Hh. unfold Rectangle.removeFromTop, Rectangle.inside,
    Rectangle.apart. cbv zeta.
  repeat split; try (cbn [Rectangle.h Rectangle.w]; lia);
    intros px py; rewrite !contains_spec;
    cbn [Rectangle.x Rectangle.y Rectangle.w Rectangle.h]; lia.
Qed.

Lemma removeFromLeft_spec (amountToRemove : Z) (r : Rectangle.t) :
  0 <= amountToRemove -> 0 <= Rectangle.w r ->
  let '(strip, rest) := Rectangle.removeFromLeft amountToRemove r in
  Rectangle.inside strip r /\ Rectangle.inside rest r
  /\ Rectangle.apart strip rest
  /\ Rectangle.h strip = Rectangle.h r /\ Rectangle.h rest = Rectangle.h r
  /\ 0 <= Rectangle.w strip /\ 0 <= Rectangle.w rest.
Proof.
  intros Ha Hh. unfold Rectangle.removeFromLeft, Rectangle.inside,
    Rectangle.apart. cbv zeta.
  repeat split; try (cbn [Rectangle.h Rectangle.w]; lia);
    intros px py; rewrite !contains_spec;
    cbn [Rectangle.x Rectangle.y Rectangle.w Rectangle.h]; lia.
Qed.

(** A rectangle reduced by a margin lies inside it. *)
Lemma reduced_spec (delta : Z) (r : Rectangle.t) :
  0 <= delta ->
  Rectangle.inside (Rectangle.reduced delta r) r
  /\ 0 <= Rectangle.w (Rectangle.reduced delta r)
  /\ 0 <= Rectangle.h (Rectangle.reduced delta r).
Proof.
  intros Hd. unfold Rectangle.reduced, Rectangle.expanded, Rectangle.inside.
  cbn [Rectangle.w Rectangle.h]. repeat split; try lia.
  intros px py. rewrite !contains_spec.
  cbn [Rectangle.x Rectangle.y Rectangle.w Rectangle.h]. lia.
Qed.

(** A column's label and fader: inside the column and apart. *)
Lemma layoutColumn_spec (bounds : Rectangle.t) :
  0 <= Rectangle.h bounds ->
  let '(label, slider) := Editor.layoutColumn bounds in
  Rectangle.inside label bounds /\ Rectangle.inside slider bounds
  /\ Rectangle.apart label slider
  /\ 0 <= Rectangle.w slider /\ 0 <= Rectangle.h slider
  /\ Rectangle.w label = Rectangle.w bounds /\ 0 <= Rectangle.h label.
Proof.
  intros Hh. unfold Editor.layoutColumn.
  pose proof (removeFromTop_spec 24 bounds ltac:(lia) Hh) as H.
  destruct (Rectangle.removeFromTop 24 bounds) as [labelArea rest].
  destruct H as (H1 & H2 & H3 & H4 & _ & H5 & _).
  destruct (reduced_spec 10 rest ltac:(lia)) as (R1 & R2 & R3).
  repeat split; try assumption.
  - exact (inside_trans _ _ _ R1 H2).
  - exact (apart_inside _ _ _ _ H3 (inside_refl _) R1).
Qed.

(** The truncating third of a width. *)
Lemma third_bounds (width : Z) : 0 <= width -> 0 <= Z.quot width 3.
Proof. intros H. apply Z.quot_pos; lia. Qed.

(** From the points of a rectangle to those of the rectangles around it,
    and to a contradiction for a point in two rectangles that are apart. *)
Ltac saturate_inside px py :=
  repeat match goal with
         | H : Rectangle.contains px py ?a = true,
           I : Rectangle.inside ?a ?b |- _ =>
             lazymatch goal with
             | _ : Rectangle.contains px py b = true |- _ => fail
             | _ => pose proof (I px py H)
             end
         end.

Ltac find_apart px py :=
  match goal with
  | H1 : Rectangle.contains px py ?a = true,
    H2 : Rectangle.contains px py ?b = true,
    A : Rectangle.apart ?a ?b |- _ =>
      exact (False_ind _ (A px py H1 H2))
  end.

(** X12.  Whatever size the host gives the editor, [resized] places the
    keyboard, the three labels and the three faders so that no point lies
    in two of them and every point of a widget lies inside the editor;
    the widths and heights that it sets are never negative. *)
Theorem resized_apart (width height px py : Z) :
  0 <= width -> 0 <= height ->
  let placed := Editor.widgets (Editor.resized width height) in
  (length (filter (Rectangle.contains px py) placed) <= 1)%nat
  /\ (existsb (Rectangle.contains px py) placed = true ->
      Rectangle.contains px py (Editor.getLocalBounds width height) = true)
  /\ Forall (fun r => 0 <= Rectangle.w r /\ 0 <= Rectangle.h r) placed.
Proof.
  intros Hw Hh. cbv zeta. unfold Editor.resized.
  set (local := Editor.getLocalBounds width height).
  destruct (reduced_spec 20 local ltac:(lia)) as (A1 & A2 & A3).
  set (area := Rectangle.reduced 20 local) in *. clearbody area.
  pose proof (removeFromTop_spec 40 area ltac:(lia) A3) as T1.
  destruct (Rectangle.removeFromTop 40 area) as [headerArea area1].
  destruct T1 as (_ & T1b & _ & _ & T1w & _ & T1h).
  pose proof (removeFromTop_spec 110 area1 ltac:(lia) T1h) as T2.
  destruct (Rectangle.removeFromTop 110 area1) as [controlArea area2].
  destruct T2 as (T2a & T2b & T2c & T2wa & T2wb & T2ha & T2hb).
  pose proof (removeFromTop_spec 10 area2 ltac:(lia) T2hb) as T3.
  destruct (Rectangle.removeFromTop 10 area2) as [gap keyboardArea].
  destruct T3 as (_ & T3b & _ & _ & T3w & _ & T3h).
  assert (Hcw : 0 <= Rectangle.w controlArea) by lia.
  pose proof (third_bounds _ Hcw) as Hc.
  set (columnWidth := Z.quot (Rectangle.w controlArea) 3) in *.
  clearbody columnWidth.
  pose proof (removeFromLeft_spec columnWidth controlArea Hc Hcw) as L1.
  destruct (Rectangle.removeFromLeft columnWidth controlArea)
    as [firstColumn controlArea1].
  destruct L1 as (L1a & L1b & L1c & L1ha & L1hb & L1wa & L1wb).
  pose proof (layoutColumn_spec firstColumn ltac:(lia)) as C1.
  destruct (Editor.layoutColumn firstColumn) as [gainLabel gainSlider].
  destruct C1 as (C1a & C1b & C1c & C1w & C1h & C1lw & C1lh).
  pose proof (removeFromLeft_spec columnWidth controlArea1 Hc L1wb) as L2.
  destruct (Rectangle.removeFromLeft columnWidth controlArea1)
    as [secondColumn controlArea2].
  destruct L2 as (L2a & L2b & L2c & L2ha & L2hb & L2wa & L2wb).
  pose proof (layoutColumn_spec secondColumn ltac:(lia)) as C2.
  destruct (Editor.layoutColumn secondColumn)
    as [pulseWidthLabel pulseWidthSlider].
  destruct C2 as (C2a & C2b & C2c & C2w & C2h & C2lw & C2lh).
  pose proof (layoutColumn_spec controlArea2 ltac:(lia)) as C3.
  destruct (Editor.layoutColumn controlArea2)
    as [filterCutoffLabel filterCutoffSlider].
  destruct C3 as (C3a & C3b & C3c & C3w & C3h & C3lw & C3lh).
  unfold Editor.widgets.
  cbn [Editor.midiKeyboard Editor.gainLabel Editor.gainSlider
       Editor.pulseWidthLabel Editor.pulseWidthSlider
       Editor.filterCutoffLabel Editor.filterCutoffSlider].
  pose proof (apart_sym _ _ T2c) as T2c'.
  pose proof (apart_sym _ _ L1c) as L1c'.
  pose proof (apart_sym _ _ L2c) as L2c'.
  pose proof (apart_sym _ _ C1c) as C1c'.
  pose proof (apart_sym _ _ C2c) as C2c'.
  pose proof (apart_sym _ _ C3c) as C3c'.
  split; [|split].
  - cbn [filter].
    destruct (Rectangle.contains px py keyboardArea) eqn:K;
      destruct (Rectangle.contains px py gainLabel) eqn:G1;
      destruct (Rectangle.contains px py gainSlider) eqn:G2;
      destruct (Rectangle.contains px py pulseWidthLabel) eqn:P1;
      destruct (Rectangle.contains px py pulseWidthSlider) eqn:P2;
      destruct (Rectangle.contains px py filterCutoffLabel) eqn:F1;
      destruct (Rectangle.contains px py filterCutoffSlider) eqn:F2;
      cbn [length]; try lia;
      exfalso; saturate_inside px py; find_apart px py.
  - cbn [existsb]. rewrite !orb_true_iff.
    intros [H|[H|[H|[H|[H|[H|[H|H]]]]]]]; try discriminate;
      saturate_inside px py; assumption.
  - repeat constructor; lia.
Qed.

(** X12's theorem at work at the size that the constructor sets: the point
    (40, 100) lies in the first fader and in no other widget. *)
Lemma resized_apart_witness :
  (length
     (filter (Rectangle.contains 40 100)
        (Editor.widgets
           (Editor.resized Editor.initialWidth Editor.initialHeight)))
   <= 1)%nat
  /\ Rectangle.contains 40 100
       (Editor.gainSlider
          (Editor.resized Editor.initialWidth Editor.initialHeight))
     = true.
Proof.
  split; [|reflexivity].
  apply (resized_apart Editor.initialWidth Editor.initialHeight 40 100);
    unfold Editor.initialWidth, Editor.initialHeight; lia.
Defined.

(** From 40 by 200 on nothing is clamped, and the layout has a closed
    form: three columns of a third of the inner width, the last one taking
    the rest. *)
Lemma resized_from_40_200 (width height : Z) :
  40 <= width -> 200 <= height ->
  let cw := (width - 40) / 3 in
  Editor.resized width height
  = Editor.mkBounds
      (Rectangle.mk 20 180 (width - 40) (height - 200))
      (Rectangle.mk 20 60 cw 24)
      (Rectangle.mk 30 94 (Z.max 0 (cw - 20)) 66)
      (Rectangle.mk (20 + cw) 60 cw 24)
      (Rectangle.mk (30 + cw) 94 (Z.max 0 (cw - 20)) 66)
      (Rectangle.mk (20 + 2 * cw) 60 (width - 40 - 2 * cw) 24)
      (Rectangle.mk (30 + 2 * cw) 94 (Z.max 0 (width - 60 - 2 * cw)) 66).
Proof.
  intros Hw Hh cw.
  unfold Editor.resized, Editor.getLocalBounds, Rectangle.reduced,
    Rectangle.expanded.
  cbn [Rectangle.x Rectangle.y Rectangle.w Rectangle.h].
  replace (Z.max 0 (width + - (20) * 2)) with (width - 40) by lia.
  replace (Z.max 0 (height + - (20) * 2)) with (height - 40) by lia.
  unfold Rectangle.removeFromTop at 1.
  cbn [Rectangle.x Rectangle.y Rectangle.w Rectangle.h].
  replace (Z.min 40 (height - 40)) with 40 by lia.
  unfold Rectangle.removeFromTop at 1.
  cbn [Rectangle.x Rectangle.y Rectangle.w Rectangle.h].
  replace (Z.min 110 (height - 40 - 40)) with 110 by lia.
  unfold Rectangle.removeFromTop at 1.
  cbn [Rectangle.x Rectangle.y Rectangle.w Rectangle.h].
  replace (Z.min 10 (height - 40 - 40 - 110)) with 10 by lia.
  assert (Hq : Z.quot (width - 40) 3 = cw)
    by (apply Z.quot_div_nonneg; lia).
  rewrite Hq.
  pose proof (Z.div_mod (width - 40) 3 ltac:(lia)) as Hdm.
  pose proof (Z.mod_pos_bound (width - 40) 3 ltac:(lia)) as Hmod.
  fold cw in Hdm. clearbody cw.
  unfold Rectangle.removeFromLeft at 1.
  cbn [Rectangle.x Rectangle.y Rectangle.w Rectangle.h].
  replace (Z.min cw (width - 40)) with cw by lia.
  unfold Rectangle.removeFromLeft at 1.
  cbn [Rectangle.x Rectangle.y Rectangle.w Rectangle.h].
  replace (Z.min cw (width - 40 - cw)) with cw by lia.
  unfold Editor.layoutColumn, Rectangle.removeFromTop, Rectangle.reduced,
    Rectangle.expanded.
  cbn [Rectangle.x Rectangle.y Rectangle.w Rectangle.h].
  f_equal; f_equal; lia.
Qed.

(** The width of the first fader and the height of the keyboard, at any
    size. *)
Lemma gainSlider_width (width height : Z) :
  Rectangle.w (Editor.gainSlider (Editor.resized width height))
  = let aw := Z.max 0 (width + - (20) * 2) in
    Z.max 0 (Z.min (Z.quot aw 3) aw + - (10) * 2).
Proof. reflexivity. Qed.

Lemma midiKeyboard_height (width height : Z) :
  Rectangle.h (Editor.midiKeyboard (Editor.resized width height))
  = let ah := Z.max 0 (height + - (20) * 2) in
    let a1 := ah - Z.min 40 ah in
    let a2 := a1 - Z.min 110 a1 in
    a2 - Z.min 10 a2.
Proof. reflexivity. Qed.

Lemma resized_narrow (width height : Z) :
  width < 103 ->
  Rectangle.w (Editor.gainSlider (Editor.resized width height)) = 0.
Proof.
  intros Hw. rewrite gainSlider_width. cbv zeta.
  set (aw := Z.max 0 (width + - (20) * 2)).
  assert (Haw : 0 <= aw < 63) by (unfold aw; lia).
  clearbody aw.
  rewrite Z.quot_div_nonneg by lia.
  pose proof (Z.div_mod aw 3 ltac:(lia)) as Hdm.
  pose proof (Z.mod_pos_bound aw 3 ltac:(lia)) as Hmod.
  lia.
Qed.

Lemma resized_short (width height : Z) :
  height < 201 ->
  Rectangle.h (Editor.midiKeyboard (Editor.resized width height)) = 0.
Proof.
  intros Hh. rewrite midiKeyboard_height. cbv zeta.
  set (ah := Z.max 0 (height + - (20) * 2)).
  assert (Hah : 0 <= ah <= 160) by (unfold ah; lia).
  clearbody ah. lia.
Qed.

(** X16.  [resized] leaves no widget empty exactly from the size 103 by 201
    on: the keyboard, the three labels and the three faders all get a
    positive width and a positive height if and only if the editor is at
    least 103 wide and 201 high.  Below that the first fader has no width
    or the keyboard no height. *)
Theorem resized_visible (width height : Z) :
  Forall (fun r => 0 < Rectangle.w r /\ 0 < Rectangle.h r)
    (Editor.widgets (Editor.resized width height))
  <-> 103 <= width /\ 201 <= height.
Proof.
  split.
  - intros H. unfold Editor.widgets in H.
    rewrite !Forall_cons_iff in H.
    destruct H as [[_ K2] [_ [[S1 _] _]]].
    split.
    + destruct (Z_lt_le_dec width 103) as [Hlt|Hge]; [|exact Hge].
      rewrite (resized_narrow _ _ Hlt) in S1. lia.
    + destruct (Z_lt_le_dec height 201) as [Hlt|Hge]; [|exact Hge].
      rewrite (resized_short _ _ Hlt) in K2. lia.
  - intros [H1 H2].
    rewrite resized_from_40_200 by lia. unfold Editor.widgets.
    cbn [Editor.midiKeyboard Editor.gainLabel Editor.gainSlider
         Editor.pulseWidthLabel Editor.pulseWidthSlider
         Editor.filterCutoffLabel Editor.filterCutoffSlider].
    cbv zeta.
    pose proof (Z.div_mod (width - 40) 3 ltac:(lia)) as Hdm.
    pose proof (Z.mod_pos_bound (width - 40) 3 ltac:(lia)) as Hmod.
    repeat constructor; cbn [Rectangle.w Rectangle.h]; lia.
Qed.

(** ** The parameters' ranges *)

Lemma leb_units (x y : float) :
  Design.nonneg x = true -> Design.nonneg y = true ->
  (x <=? y)%f32 = (Design.units x <=? Design.units y).
Proof.
  intros Hx Hy. unfold F32.leb, SFleb, Z.leb.
  rewrite (SFcompare_units x y Hx Hy). reflexivity.
Qed.

(** A [float] that is at least a positive number is positive. *)
Lemma above_positive_nonneg (lo x : float) (m : positive) (e : Z) :
  lo = S754_finite false m e -> F32.valid x = true ->
  (lo <=? x)%f32 = true -> F32.is_finite x = true ->
  Design.nonneg x = true.
Proof.
  intros -> Vx Hle Fx. unfold Design.nonneg. rewrite Vx.
  destruct x as [?|?| |[|] ? ?]; try discriminate; reflexivity.
Qed.

(** X13.  The defaults of [createParameterLayout] lie in their ranges;
    every [float] in the range of the pulse-width parameter is a phase
    that [setPulseWidth] stores as it is, the clamp to [0.01, 0.99] never
    cutting in; and every [float] in the range of the filter control is a
    number [>= 0]. *)
Theorem parameter_ranges :
  Forall
    (fun a =>
       Design.within (Processor.rangeStart a) (Processor.rangeEnd a)
         (Processor.defaultValue a) = true)
    Processor.createParameterLayout
  /\ (forall (a : Processor.AudioParameterFloat) (pw : float) (p : Pulse.t),
        In a Processor.createParameterLayout ->
        Processor.parameterID a = Processor.pulseWidthParamID ->
        F32.valid pw = true ->
        Design.within (Processor.rangeStart a) (Processor.rangeEnd a) pw
        = true ->
        Pulse.pulseWidth (Pulse.setPulseWidth pw p) = pw
        /\ Design.isPhase pw = true)
  /\ (forall (a : Processor.AudioParameterFloat) (c : float),
        In a Processor.createParameterLayout ->
        Processor.parameterID a = Processor.filterCutoffParamID ->
        F32.valid c = true ->
        Design.within (Processor.rangeStart a) (Processor.rangeEnd a) c
        = true ->
        Design.nonneg c = true).
Proof.
  split; [|split].
  - repeat constructor.
  - intros a pw p Ha Hid Vpw Hin.
    destruct Ha as [<-|[<-|[<-|[]]]]; try discriminate Hid.
    cbn [Processor.rangeStart Processor.rangeEnd] in Hin.
    unfold Design.within in Hin. apply andb_true_iff in Hin.
    destruct Hin as [Hlo Hhi].
    assert (Fpw : F32.is_finite pw = true).
    { destruct pw as [?|[|]| |? ? ?]; try reflexivity; discriminate. }
    pose proof (above_positive_nonneg _ pw _ _ eq_refl Vpw Hlo Fpw) as Npw.
    assert (N5 : Design.nonneg (F32.of_decimal 5 100) = true)
      by (vm_compute; reflexivity).
    assert (N95 : Design.nonneg (F32.of_decimal 95 100) = true)
      by (vm_compute; reflexivity).
    rewrite (leb_units (F32.of_decimal 5 100) pw N5 Npw) in Hlo.
    rewrite (leb_units pw (F32.of_decimal 95 100) Npw N95) in Hhi.
    apply Z.leb_le in Hlo, Hhi.
    split.
    + unfold Pulse.setPulseWidth. cbn [Pulse.pulseWidth Pulse.set_pulseWidth].
      unfold jlimit.
      rewrite (ltb_units pw f0_01 Npw eq_refl).
      rewrite (ltb_units f0_99 pw eq_refl Npw).
      replace (Design.units pw <? Design.units f0_01) with false.
      * replace (Design.units f0_99 <? Design.units pw) with false;
          [reflexivity|].
        symmetry. apply Z.ltb_ge. eapply Z.le_trans; [exact Hhi|].
        vm_compute. discriminate.
      * symmetry. apply Z.ltb_ge. eapply Z.le_trans; [|exact Hlo].
        vm_compute. discriminate.
    + unfold Design.isPhase. rewrite Npw.
      rewrite (ltb_units pw F32.one Npw eq_refl). apply Z.ltb_lt.
      eapply Z.le_lt_trans; [exact Hhi|]. vm_compute. reflexivity.
  - intros a c Ha Hid Vc Hin.
    destruct Ha as [<-|[<-|[<-|[]]]]; try discriminate Hid.
    cbn [Processor.rangeStart Processor.rangeEnd] in Hin.
    unfold Design.within in Hin. apply andb_true_iff in Hin.
    destruct Hin as [Hlo Hhi]. unfold Design.nonneg. rewrite Vc.
    destruct c as [?|[|]| |[|] ? ?]; try discriminate; reflexivity.
Qed.

(** X13's theorem at work: the default pulse width of 0.5 is stored as it
    is. *)
Lemma parameter_ranges_witness :
  Pulse.pulseWidth (Pulse.setPulseWidth f0_5 Pulse.init) = f0_5.
Proof.
  apply (proj1 (proj2 parameter_ranges)
           (Processor.mkAudioParameterFloat Processor.pulseWidthParamID
              "Pulse Width" (F32.of_decimal 5 100) (F32.of_decimal 95 100)
              (F32.of_decimal 1 1000) f0_5)
           f0_5 Pulse.init).
  - right. left. reflexivity.
  - reflexivity.
  - reflexivity.
  - vm_compute. reflexivity.
Defined.

(** ** What a render call leaves alone *)

Lemma sampleLoop_keeps {L : Library} fuel gain startSample todo :
  forall sample v outputBuffer out v',
  Voice.sampleLoop fuel gain startSample todo sample v outputBuffer
  = Some (out, v') ->
  Voice.base v' = Voice.base v /\ Voice.isActive v' = Voice.isActive v
  /\ Voice.currentLevel v' = Voice.currentLevel v
  /\ Voice.currentFrequency v' = Voice.currentFrequency v
  /\ Voice.currentSampleRate v' = Voice.currentSampleRate v
  /\ map (@length float) out = map (@length float) outputBuffer.
Proof.
  induction todo as [|todo IH]; intros sample v outputBuffer out v' H;
    cbn [Voice.sampleLoop] in H.
  - assert (E : out = outputBuffer /\ v' = v) by (split; congruence).
    destruct E as [-> ->]. repeat split.
  - destruct (Pulse.getNextSample fuel (Voice.pulseOsc v)) as [[x p]|];
      [|discriminate].
    destruct (processSingleSampleRaw _ _) as [value f].
    apply IH in H.
    cbn [Voice.base Voice.isActive Voice.currentLevel Voice.currentFrequency
         Voice.currentSampleRate Voice.set_lowPassFilter Voice.set_pulseOsc]
      in H.
    destruct H as (H1 & H2 & H3 & H4 & H5 & H6).
    repeat (split; [assumption|]).
    rewrite H6. apply addToChannels_shape.
Qed.

Lemma refreshed_keeps {L : Library} (ps : Parameters) (v : Voice.t) :
  Voice.base (Design.refreshed ps v) = Voice.base v
  /\ Voice.isActive (Design.refreshed ps v) = Voice.isActive v
  /\ Voice.currentLevel (Design.refreshed ps v) = Voice.currentLevel v
  /\ Voice.currentFrequency (Design.refreshed ps v)
     = Voice.currentFrequency v.
Proof.
  unfold Design.refreshed. cbv zeta.
  destruct (_ >? _)%f32; [|repeat split].
  unfold Voice.updateFilterCoefficients.
  destruct (F64.leb _ _); repeat split.
Qed.

(** X14.  A render call is no note event: whenever it returns, the voice
    has the note, channel and sample rate of its base class, the active
    flag, the level and the frequency that it had, and the buffer has its
    shape. *)
Theorem renderNextBlock_keeps {L : Library} (fuel : nat) (ps : Parameters)
    (outputBuffer out : AudioBuffer) (startSample numSamples : Z)
    (v v' : Voice.t) :
  Voice.renderNextBlock fuel ps outputBuffer startSample numSamples v
  = Some (out, v') ->
  Voice.base v' = Voice.base v /\ Voice.isActive v' = Voice.isActive v
  /\ Voice.currentLevel v' = Voice.currentLevel v
  /\ Voice.currentFrequency v' = Voice.currentFrequency v
  /\ Voice.rendering v' = Voice.rendering v
  /\ map (@length float) out = map (@length float) outputBuffer.
Proof.
  intros H. destruct (Design.renders v) eqn:Hr.
  - rewrite (renderNextBlock_renders _ _ _ _ _ v) in H by exact Hr.
    destruct (sampleLoop_keeps _ _ _ _ _ _ _ _ _ H)
      as (H1 & H2 & H3 & H4 & _ & H6).
    destruct (refreshed_keeps ps v) as (R1 & R2 & R3 & R4).
    unfold Voice.rendering. rewrite H1, H2, H3, H4, R1, R2, R3, R4.
    repeat split. exact H6.
  - rewrite (renderNextBlock_idle _ _ _ _ _ v) in H by exact Hr.
    assert (E : out = outputBuffer /\ v' = v) by (split; congruence).
    destruct E as [-> ->]. repeat split.
Qed.

(** X14's theorem at work on a block of the playing voice. *)
Lemma renderNextBlock_keeps_witness :
  exists out v',
    Voice.renderNextBlock (L := Example.library) 2 defaultParameters
      Example.buffer 0 3 Example.playingVoice
    = Some (out, v')
    /\ Voice.currentLevel v' = Voice.currentLevel Example.playingVoice.
Proof.
  destruct (blockValues_returns (L := Example.library) 2 defaultParameters 3
              Example.playingVoice playingVoice_inRange (le_n 2))
    as (values & v' & Hvalues).
  pose proof (renderNextBlock_values (L := Example.library) 2
                defaultParameters Example.buffer 0 3 Example.playingVoice
                values v' playingVoice_renders Hvalues) as H.
  exists (Design.mixIn 0 values Example.buffer), v'.
  split; [exact H|].
  exact (proj1 (proj2 (proj2
    (renderNextBlock_keeps (L := Example.library) 2 defaultParameters
       Example.buffer _ 0 3 Example.playingVoice v' H)))).
Defined.

(** ** The wrap of a phase is exact *)

(** A positive integer below [2^23] at exponent -23 is normalised without
    rounding. *)
Lemma binary_normalize_below_one_units (p : positive) :
  Z.pos p < 2 ^ 23 ->
  Design.units (binary_normalize F32.prec F32.emax (Z.pos p) (-23) false)
  = Z.pos p * 2 ^ 126.
Proof.
  intros Hp. pose proof (digits2_pos_bounds p) as Hd.
  assert (Hd23 : Z.pos (digits2_pos p) <= 23).
  { destruct (Z_le_gt_dec (Z.pos (digits2_pos p)) 23) as [H|H]; [exact H|].
    assert (2 ^ 23 <= 2 ^ (Z.pos (digits2_pos p) - 1))
      by (apply Z.pow_le_mono_r; lia).
    lia. }
  set (k := Z.to_pos (24 - Z.pos (digits2_pos p))).
  assert (Hk : Z.pos k = 24 - Z.pos (digits2_pos p))
    by (unfold k; rewrite Z2Pos.id; lia).
  assert (E0 : binary_normalize F32.prec F32.emax (Z.pos p) (-23) false
               = S754_finite false (Pos.iter xO p k) (-23 - Z.pos k)).
  { cbn [binary_normalize]. unfold binary_round.
    assert (E : fexp F32.prec F32.emax (Z.pos (digits2_pos p) + -23)
                = -23 - Z.pos k).
    { unfold fexp, emin, F32.prec, F32.emax. lia. }
    rewrite E. unfold shl_align.
    assert (E2 : -23 - Z.pos k - -23 = Z.neg k) by lia.
    rewrite E2.
    apply binary_round_aux_in_place; [|lia].
    rewrite digits2_pos_iter_xO. lia. }
  rewrite E0. cbn [Design.units]. rewrite pos_iter_xO_value.
  replace 126 with (Z.pos k + (-23 - Z.pos k + 149)) by lia.
  rewrite (Z.pow_add_r 2 (Z.pos k) (-23 - Z.pos k + 149)) by lia. ring.
Qed.

Lemma units_nonneg (x : float) : 0 <= Design.units x.
Proof.
  destruct x as [?|?| |s m e]; cbn [Design.units]; lia.
Qed.

(** A [float] from 1 up to but not 2 less 1: the difference is exact. *)
Lemma sub_one_exact (x : float) :
  F32.valid x = true -> (x >=? F32.one)%f32 = true ->
  (x <? f2)%f32 = true ->
  Design.units (x - F32.one)%f32 + 2 ^ 149 = Design.units x.
Proof.
  intros Hvalid Hge Hlt.
  destruct x as [s|s| |s m e]; try discriminate;
    [destruct s; discriminate|].
  destruct (between_one_and_two s m e Hvalid Hge Hlt) as (-> & -> & Hm).
  change (2 ^ 149) with (8388608 * 2 ^ 126).
  cbn [Design.units]. change (-23 + 149) with 126.
  unfold F32.sub, SFsub, F32.one.
  change (Z.min (-23) (-23)) with (-23).
  change (shl_align m (-23) (-23)) with (m, -23).
  change (shl_align 8388608 (-23) (-23)) with (8388608%positive, -23).
  cbn [fst cond_Zopp].
  change (2 ^ 23) with 8388608 in Hm. change (2 ^ 24) with 16777216 in Hm.
  destruct (Z.eq_dec (Z.pos m) 8388608) as [E|E].
  - rewrite E. reflexivity.
  - assert (Hp : Z.pos m - 8388608 = Z.pos (Z.to_pos (Z.pos m - 8388608)))
      by (rewrite Z2Pos.id; lia).
    rewrite Hp, binary_normalize_below_one_units
      by (change (2 ^ 23) with 8388608; lia).
    lia.
Qed.

(** The sum of two phases, wrapped: its value mod 1. *)
Lemma wrap_once_exact (a b : float) :
  Design.isPhase a = true -> Design.isPhase b = true ->
  let x := (a + b)%f32 in
  Design.units (if (x >=? F32.one)%f32 then (x - F32.one)%f32 else x)
  = Design.units x mod 2 ^ 149.
Proof.
  intros Ha Hb. cbv zeta.
  destruct (isPhase_cases a Ha) as [Na La].
  destruct (isPhase_cases b Hb) as [Nb Lb].
  destruct (add_nonneg_below_two a b Na La Nb Lb) as [Hn Hl].
  pose proof Hl as Hl2. rewrite (ltb_units _ f2 Hn nonneg_two) in Hl2.
  apply Z.ltb_lt in Hl2. change (Design.units f2) with (2 ^ 150) in Hl2.
  assert (H2 : 2 ^ 150 = 2 * 2 ^ 149) by reflexivity.
  assert (Hp : 0 < 2 ^ 149) by reflexivity.
  destruct (a + b >=? F32.one)%f32 eqn:E.
  - assert (Vx : F32.valid (a + b)%f32 = true).
    { unfold Design.nonneg in Hn. now apply andb_true_iff in Hn. }
    pose proof (sub_one_exact _ Vx E Hl) as Hex.
    change ((F32.one <=? a + b)%f32 = true) in E.
    rewrite (leb_units F32.one _ nonneg_one Hn) in E.
    apply Z.leb_le in E. change (Design.units F32.one) with (2 ^ 149) in E.
    pose proof (units_nonneg (a + b - F32.one)%f32).
    apply (Z.mod_unique _ _ 1); lia.
  - pose proof (geb_false_ltb _ F32.one (nonneg_not_nan _ Hn) eq_refl E)
      as Hlt1.
    rewrite (ltb_units _ F32.one Hn nonneg_one) in Hlt1.
    apply Z.ltb_lt in Hlt1.
    change (Design.units F32.one) with (2 ^ 149) in Hlt1.
    symmetry. apply Z.mod_small.
    pose proof (units_nonneg (a + b)%f32).
    lia.
Qed.

(** X15.  The wrap of a phase loses nothing.  On a core whose phase and
    [w] are phases (numbers from 0 up to but not 1), the phase that
    [getNextSample] stores is the rounded sum [phase + w] reduced mod 1
    exactly: in units of [2^-149], its value is that of the sum mod
    [2^149].  The same holds for the effective trailing phase that the
    pulse oscillator's loop makes of [leading phase + pulseWidth]. *)
Theorem phase_wrap_exact {L : Library} :
  (forall s : Saw.t,
     Design.isPhase (Saw.phase s) = true -> Design.isPhase (Saw.w s) = true ->
     let stored := Saw.phase (snd (Saw.getNextSample s)) in
     Design.isPhase stored = true
     /\ Design.units stored
        = Design.units (Saw.phase s + Saw.w s)%f32 mod 2 ^ 149)
  /\ (forall (fuel : nat) (phase pulseWidth : float),
        Design.isPhase phase = true -> Design.isPhase pulseWidth = true ->
        (2 <= fuel)%nat ->
        exists shiftedPhase : float,
          Pulse.wrapShiftedPhase fuel (phase + pulseWidth)%f32
          = Some shiftedPhase
          /\ Design.isPhase shiftedPhase = true
          /\ Design.units shiftedPhase
             = Design.units (phase + pulseWidth)%f32 mod 2 ^ 149).
Proof.
  split.
  - intros s Hph Hw. cbv zeta. rewrite saw_getNextSample_design.
    cbn [snd Design.sawNext Saw.phase]. unfold Design.sawPhase. cbv zeta.
    split.
    + exact (proj1 (wrap_once_isPhase _ _ Hph Hw)).
    + exact (wrap_once_exact _ _ Hph Hw).
  - intros fuel phase pulseWidth Hph Hpw Hfuel.
    destruct (wrap_once_isPhase _ _ Hph Hpw) as [Hwrapped Htwo].
    cbv zeta in Hwrapped, Htwo.
    rewrite (wrapShiftedPhase_underTwo fuel _ Htwo Hfuel).
    eexists. split; [reflexivity|]. split; [exact Hwrapped|].
    exact (wrap_once_exact _ _ Hph Hpw).
Qed.

(** X15's theorem at work: the halfway oscillator's shifted phase wraps
    once. *)
Lemma phase_wrap_exact_witness :
  exists shiftedPhase : float,
    Pulse.wrapShiftedPhase 2 (f0_5 + f0_99)%f32 = Some shiftedPhase
    /\ Design.isPhase shiftedPhase = true
    /\ Design.units shiftedPhase
       = Design.units (f0_5 + f0_99)%f32 mod 2 ^ 149.
Proof.
  apply (proj2 (phase_wrap_exact (L := Example.library)) 2%nat f0_5 f0_99).
  - reflexivity.
  - reflexivity.
  - lia.
Defined.
